(** * overcast.runner: a shallow embedding of the deployment runner

    The development follows [overcast/runner/__init__.py].  The runner is a
    single-threaded Python program that talks to an OpenStack cloud through
    the nova, neutron and cinder clients, appends every resource it creates
    to a cleanup log, and can replay that log backwards to tear the
    resources down again.

    Conventions of the embedding:
    - Python code that mutates [self] and may raise becomes a computation in
      the monad [M]: it threads the state of the process and ends in a
      value, in an exception, or (for the [while True] loops) out of fuel.
    - The cloud is an external collaborator.  It is a parameter [cloud]: an
      arbitrary function from the history of requests made so far and the
      current request to either an exception or a reply.  Every request is
      appended to the history [calls], which is what theorems observe.
    - Python dicts used as tables are [gmap]s, Python sets are [gset]s,
      lists whose order matters stay lists. *)

From stdpp Require Import gmap strings list fin_maps pretty.
From Stdlib Require Import ZArith Lia Ascii DecimalString.

Open Scope Z_scope.
Open Scope string_scope.
Open Scope list_scope.

(** ** Python strings *)

(** Strings are Rocq strings; the operations that look inside one work on
    its list of characters. *)
Module Str.

Abbreviation chars := String.list_ascii_of_string.
Abbreviation of_chars := String.string_of_list_ascii.

(** [s.endswith(suffix)] *)
Definition endswith (s suffix : string) : bool :=
  bool_decide (chars suffix `suffix_of` chars s).

(** [s[:-n]]; Python reads [-0] as [0], so [s[:-0]] is the empty string. *)
Definition slice_to_neg (s : string) (n : nat) : string :=
  of_chars (take (String.length s - n)%nat (chars s)).

(** The characters [str.strip()] removes: space, tab, newline, carriage
    return, vertical tab and form feed. *)
Definition is_whitespace (c : ascii) : bool :=
  let n := Ascii.nat_of_ascii c in
  ((n =? 32) || ((9 <=? n) && (n <=? 13)))%nat.

Fixpoint lstrip_chars (l : list ascii) : list ascii :=
  match l with
  | c :: l' => if is_whitespace c then lstrip_chars l' else l
  | [] => []
  end.

(** [s.strip()] *)
Definition strip (s : string) : string :=
  of_chars (reverse (lstrip_chars (reverse (lstrip_chars (chars s))))).

(** [s.split(': ')]: cut at every occurrence of colon-space, scanning from
    the left; [cur] holds the piece being read, last character first. *)
Fixpoint split_colon_space_go (cur l : list ascii) : list string :=
  match l with
  | [] => [of_chars (reverse cur)]
  | c :: l' =>
      match l' with
      | " "%char :: l'' =>
          if Ascii.eqb c ":"%char
          then of_chars (reverse cur) :: split_colon_space_go [] l''
          else split_colon_space_go (c :: cur) l'
      | _ => split_colon_space_go (c :: cur) l'
      end
  end.

Definition split_colon_space (s : string) : list string :=
  split_colon_space_go [] (chars s).

Definition newline : ascii := Ascii.ascii_of_nat 10.

(** Iterating over a text file: the lines of the content, each with its
    newline; a last line without one is a line too. *)
Fixpoint readlines_go (cur l : list ascii) : list string :=
  match l with
  | [] => match cur with [] => [] | _ => [of_chars (reverse cur)] end
  | c :: l' =>
      if Ascii.eqb c newline
      then of_chars (reverse (c :: cur)) :: readlines_go [] l'
      else readlines_go (c :: cur) l'
  end.

Definition readlines (content : string) : list string :=
  readlines_go [] (chars content).

(** Python truthiness of an optional string: [None] and [''] are false. *)
Definition truthy (o : option string) : bool :=
  match o with
  | Some s => negb (String.eqb s "")
  | None => false
  end.

End Str.

(** ** Exceptions *)

(** The exceptions the runner raises or handles.  All of them derive from
    Python's [Exception]; the four of [overcast.exceptions] are taken to be
    unrelated classes, none a subclass of another.  [CloudError] stands
    for any other exception a client call raises (not found, unauthorised,
    connection lost, ...). *)
Inductive Exn :=
| NeutronConflict (msg : string)
| NovaConflict (msg : string)
| CloudError (msg : string)
| KeyError (key : string)
| IndexError
| ValueError (msg : string)
| AttributeError (attr : string)
| IOError (msg : string)
| TypeError (msg : string)
| UnboundLocalError (name : string)
| CommandFailedException (stdin : string)
| CommandTimedOutException (stdin : string)
| ProvisionFailedException
| DuplicateResourceException (kind name : string).

Global Instance Exn_eq_dec : EqDecision Exn.
Proof. solve_decision. Defined.

(** The outcome of a computation. [OutOfFuel] is not a Python outcome: it
    marks a [while True] loop cut off by the fuel of the model. *)
Inductive Res (A : Type) :=
| Val (a : A)
| Exc (e : Exn)
| OutOfFuel.
Arguments Val {A} a.
Arguments Exc {A} e.
Arguments OutOfFuel {A}.

(** ** What the cloud returns *)

Record ApiNetwork := { net_id : string; net_name : string }.
Record ApiFixedIp := { ip_address : string; subnet_id : string }.
Record ApiPort := {
  ap_id : string;
  ap_fixed_ips : list ApiFixedIp;
  ap_mac_address : string;
  ap_network_id : string;
  ap_device_id : string
}.
Record ApiFloatingIp := {
  fip_id : string;
  fip_port_id : option string;
  fip_floating_ip_address : string
}.
Record ApiSecgroup := { sg_id : string; sg_name : string }.
(** [addresses] maps a network label to a list of addresses; only the MAC
    of each address is read. *)
Record ApiServer := {
  srv_id : string;
  srv_name : string;
  srv_status : string;
  srv_addresses : list (string * list string)
}.
Record ApiVolume := { vol_id : string; vol_status : string }.
Record ApiFlavor := { flavor_ref : string }.

(** The body of a security group rule, as [create_security_group] builds it. *)
Inductive RuleSource :=
| remote_group_id (group : string)
| remote_ip_prefix (cidr : string).

Record SecgroupRule := {
  direction : string;
  ethertype : string;
  port_range_min : Z;
  port_range_max : Z;
  protocol : string;
  security_group_id : string;
  rule_source : RuleSource
}.

(** ** Requests to the cloud *)

Inductive Req : Type → Type :=
(* neutron *)
| neutron_list_networks (router_external : bool) : Req (list ApiNetwork)
| neutron_list_ports (device_owner : option string) : Req (list ApiPort)
| neutron_list_floatingips : Req (list ApiFloatingIp)
| neutron_list_security_groups : Req (list ApiSecgroup)
| neutron_create_port (name network_id : string) (security_groups : list string)
    : Req ApiPort
| neutron_create_floatingip (floating_network_id : string) : Req ApiFloatingIp
| neutron_update_floatingip (fip port : string) : Req unit
| neutron_create_network (name : string) : Req ApiNetwork
| neutron_create_subnet (network_id cidr name : string) : Req string
| neutron_add_interface_router (router subnet : string) : Req unit
| neutron_remove_interface_router (router subnet : string) : Req unit
| neutron_create_security_group (name : string) : Req ApiSecgroup
| neutron_create_security_group_rule (rule : SecgroupRule) : Req string
| neutron_delete_port (uuid : string) : Req unit
| neutron_delete_network (uuid : string) : Req unit
| neutron_delete_router (uuid : string) : Req unit
| neutron_delete_subnet (uuid : string) : Req unit
| neutron_delete_security_group (uuid : string) : Req unit
| neutron_delete_security_group_rule (uuid : string) : Req unit
| neutron_delete_floatingip (uuid : string) : Req unit
(* nova *)
| nova_flavors_get (flavor : string) : Req ApiFlavor
| nova_servers_get (uuid : option string) : Req ApiServer
| nova_servers_create (name : string) (block_device_mapping : string)
    (flavor : option ApiFlavor) (nics : list string)
    (key_name userdata : option string) : Req ApiServer
| nova_servers_list : Req (list ApiServer)
| nova_servers_delete (uuid : option string) : Req unit
| nova_keypairs_create (name keydata : string) : Req unit
| nova_keypairs_delete (name : string) : Req unit
(* cinder *)
| cinder_volumes_create (size : Z) (imageRef : string) : Req ApiVolume
| cinder_volumes_get (uuid : string) : Req ApiVolume
| cinder_volumes_delete (uuid : string) : Req unit.

(** One entry of the request history. *)
Definition Call : Type := sigT Req.
Definition call_of {A} (q : Req A) : Call := existT A q.

(** A cloud answers a request knowing everything asked before. *)
Definition Cloud : Type := ∀ A, list Call → Req A → Exn + A.

(** ** The state of the process *)

(** [record_resource] is an attribute holding a callable.  The program
    assigns it two values only: the default [lambda *args, **kwargs: None]
    and, in [main], the closure that writes a line to the cleanup file. *)
Inductive Sink :=
| sink_noop
| sink_cleanup_file.

(** A port as the runner keeps it: the dict
    [{'id', 'fixed_ip', 'mac', 'network_name'}] with the optional key
    ['floating_ip']. *)
Record Port := {
  port_id : string;
  port_fixed_ip : string;
  port_mac : string;
  port_network_name : string;
  port_floating_ip : option string
}.

(** One entry of a node's ['networks'] list. *)
Record Attachment := {
  att_network : string;
  att_securitygroups : option (list string);
  att_assign_floating_ip : bool
}.

(** The [info] dict of a node; a key that is absent is [None]. *)
Record NodeInfo := {
  info_image : option string;
  info_flavor : option string;
  info_disk : option Z;
  info_networks : option (list Attachment);
  info_number : option Z;
  info_export : bool
}.

Definition empty_info : NodeInfo :=
  {| info_image := None; info_flavor := None; info_disk := None;
     info_networks := None; info_number := None; info_export := false |}.

(** The attributes of a [Node] object. *)
Module Node.
Record t := mk {
  record_resource : Sink;
  name : string;
  info : NodeInfo;
  keypair : option string;
  userdata : option string;
  server_id : option string;
  fip_ids : gset string;
  ports : list Port;
  server_status : option string;
  image : option string;
  flavor : option ApiFlavor;
  attempts_left : Z
}.

Definition set_server_id (v : option string) (n : t) : t :=
  mk (record_resource n) (name n) (info n) (keypair n) (userdata n) v
     (fip_ids n) (ports n) (server_status n) (image n) (flavor n)
     (attempts_left n).
Definition set_fip_ids (v : gset string) (n : t) : t :=
  mk (record_resource n) (name n) (info n) (keypair n) (userdata n)
     (server_id n) v (ports n) (server_status n) (image n) (flavor n)
     (attempts_left n).
Definition set_ports (v : list Port) (n : t) : t :=
  mk (record_resource n) (name n) (info n) (keypair n) (userdata n)
     (server_id n) (fip_ids n) v (server_status n) (image n) (flavor n)
     (attempts_left n).
Definition set_server_status (v : option string) (n : t) : t :=
  mk (record_resource n) (name n) (info n) (keypair n) (userdata n)
     (server_id n) (fip_ids n) (ports n) v (image n) (flavor n)
     (attempts_left n).
Definition set_flavor (v : option ApiFlavor) (n : t) : t :=
  mk (record_resource n) (name n) (info n) (keypair n) (userdata n)
     (server_id n) (fip_ids n) (ports n) (server_status n) (image n) v
     (attempts_left n).
Definition set_attempts_left (v : Z) (n : t) : t :=
  mk (record_resource n) (name n) (info n) (keypair n) (userdata n)
     (server_id n) (fip_ids n) (ports n) (server_status n) (image n)
     (flavor n) v.
End Node.

(** The static mapping file: four tables, empty when the section is absent. *)
Record Mappings := {
  map_flavors : gmap string string;
  map_networks : gmap string string;
  map_images : gmap string string;
  map_routers : gmap string string
}.

Definition no_mappings : Mappings :=
  {| map_flavors := ∅; map_networks := ∅; map_images := ∅; map_routers := ∅ |}.

(** The attributes of a [DeploymentRunner] object ([cfg] and the client
    cache [conncache] play no part in what is modelled). *)
Module Runner.
Record t := mk {
  suffix : option string;
  mappings : Mappings;
  key : option string;
  retry_count : Z;
  record_resource : Sink;
  networks : gmap string string;
  secgroups : gmap string string;
  nodes : gmap string Node.t
}.

Definition set_record_resource (v : Sink) (r : t) : t :=
  mk (suffix r) (mappings r) (key r) (retry_count r) v (networks r)
     (secgroups r) (nodes r).
Definition set_networks (v : gmap string string) (r : t) : t :=
  mk (suffix r) (mappings r) (key r) (retry_count r) (record_resource r) v
     (secgroups r) (nodes r).
Definition set_secgroups (v : gmap string string) (r : t) : t :=
  mk (suffix r) (mappings r) (key r) (retry_count r) (record_resource r)
     (networks r) v (nodes r).
Definition set_nodes (v : gmap string Node.t) (r : t) : t :=
  mk (suffix r) (mappings r) (key r) (retry_count r) (record_resource r)
     (networks r) (secgroups r) v.
End Runner.

(** [DeploymentRunner.__init__] *)
Definition DeploymentRunner (suffix : option string) (mappings : option Mappings)
    (key : option string) (retry_count : Z) : Runner.t :=
  {| Runner.suffix := suffix;
     Runner.mappings := default no_mappings mappings;
     Runner.key := key;
     Runner.retry_count := retry_count;
     Runner.record_resource := sink_noop;
     Runner.networks := ∅;
     Runner.secgroups := ∅;
     Runner.nodes := ∅ |}.

(** Everything a computation can read or change: the runner object [dr], the
    requests made to the cloud so far, the content of the cleanup file, what
    was printed, the wall clock and the number of processes started. *)
Record State := mkState {
  dr : Runner.t;
  calls : list Call;
  cleanup_file : string;
  stdout : list string;
  clock : Z;
  spawned : nat
}.

Definition set_dr (v : Runner.t) (s : State) : State :=
  mkState v (calls s) (cleanup_file s) (stdout s) (clock s) (spawned s).
Definition set_calls (v : list Call) (s : State) : State :=
  mkState (dr s) v (cleanup_file s) (stdout s) (clock s) (spawned s).
Definition set_cleanup_file (v : string) (s : State) : State :=
  mkState (dr s) (calls s) v (stdout s) (clock s) (spawned s).
Definition set_stdout (v : list string) (s : State) : State :=
  mkState (dr s) (calls s) (cleanup_file s) v (clock s) (spawned s).
Definition set_clock (v : Z) (s : State) : State :=
  mkState (dr s) (calls s) (cleanup_file s) (stdout s) v (spawned s).
Definition set_spawned (v : nat) (s : State) : State :=
  mkState (dr s) (calls s) (cleanup_file s) (stdout s) (clock s) v.

(** ** The monad of runner computations *)

Definition M (A : Type) : Type := State → State * Res A.

Global Instance M_ret : MRet M := λ A a s, (s, Val a).
Global Instance M_bind : MBind M := λ A B f m s,
  match m s with
  | (s', Val a) => f a s'
  | (s', Exc e) => (s', Exc e)
  | (s', OutOfFuel) => (s', OutOfFuel)
  end.

Definition raise {A} (e : Exn) : M A := λ s, (s, Exc e).
Definition out_of_fuel {A} : M A := λ s, (s, OutOfFuel).

(** A step that reads no state: it raises or returns. *)
Definition lift {A} (r : Exn + A) : M A :=
  match r with
  | inl e => raise e
  | inr a => mret a
  end.

Definition modify (f : State → State) : M unit := λ s, (f s, Val tt).
Definition gets {A} (f : State → A) : M A := λ s, (s, Val (f s)).

(** [try: m except Exception, e: h e] and [try: m except E: h] with a
    filter on the exception. *)
Definition try_except {A} (m : M A) (catches : Exn → bool) (h : Exn → M A) : M A :=
  λ s, match m s with
       | (s', Exc e) => if catches e then h e s' else (s', Exc e)
       | r => r
       end.

(** [for x in l: body x] *)
Fixpoint for_each {A} (l : list A) (body : A → M unit) : M unit :=
  match l with
  | [] => mret tt
  | x :: l' => body x ;; for_each l' body
  end.

(** [d[k]] on a dict: [KeyError] when the key is absent. *)
Definition subscript {V} (d : gmap string V) (k : string) : M V :=
  match d !! k with
  | Some v => mret v
  | None => raise (KeyError k)
  end.

(** [d[k]] on a dict whose key is modelled as an optional field. *)
Definition field {V} (k : string) (o : option V) : M V :=
  match o with
  | Some v => mret v
  | None => raise (KeyError k)
  end.

(** Reading and updating [self.nodes[key]], the way the runner reaches a
    node object. *)
Definition get_node (key : string) : M Node.t :=
  r ← gets dr; subscript (Runner.nodes r) key.

Definition modify_node (key : string) (f : Node.t → Node.t) : M unit :=
  modify (λ s, set_dr (Runner.set_nodes (alter f key (Runner.nodes (dr s))) (dr s)) s).

Definition modify_dr (f : Runner.t → Runner.t) : M unit :=
  modify (λ s, set_dr (f (dr s)) s).

(** [time.time()] and [time.sleep(d)] *)
Definition time_time : M Z := gets clock.
Definition time_sleep (d : Z) : M unit :=
  if (d <? 0)%Z then raise (IOError "[Errno 22] Invalid argument")
  else modify (λ s, set_clock (clock s + d) s).

(** [print e] *)
Definition print (line : string) : M unit :=
  modify (λ s, set_stdout (stdout s ++ [line]) s).

(** [for x in l: acc = body x acc], for loops that carry a local variable. *)
Fixpoint for_fold {A B} (l : list A) (acc : B) (body : A → B → M B) : M B :=
  match l with
  | [] => mret acc
  | x :: l' => acc' ← body x acc; for_fold l' acc' body
  end.

(** [[f x for x in l]] when [f] may raise. *)
Fixpoint list_comp {A B} (l : list A) (f : A → M B) : M (list B) :=
  match l with
  | [] => mret []
  | x :: l' => y ← f x; ys ← list_comp l' f; mret (y :: ys)
  end.

Definition is_NeutronConflict (e : Exn) : bool :=
  match e with NeutronConflict _ => true | _ => false end.
Definition is_NovaConflict (e : Exn) : bool :=
  match e with NovaConflict _ => true | _ => false end.

Definition nl : string := String Str.newline "".

(** The line [record_resource] writes: ['%s: %s\n' % (type_, id)]. *)
Definition ledger_line (type_ id : string) : string :=
  type_ +:+ ": " +:+ id +:+ nl.

(** Calling the callable held in a [record_resource] attribute. *)
Definition call_record_resource (f : Sink) (type_ id : string) : M unit :=
  match f with
  | sink_noop => mret tt
  | sink_cleanup_file =>
      modify (λ s, set_cleanup_file (cleanup_file s +:+ ledger_line type_ id) s)
  end.

(** [DeploymentRunner.add_suffix] *)
Definition add_suffix (self : Runner.t) (s : string) : string :=
  if Str.truthy (Runner.suffix self)
  then s +:+ "_" +:+ default "" (Runner.suffix self)
  else s.

(** ** The stack description

    The YAML stack file, once parsed.  Dicts the code iterates over are
    lists of pairs, in the order the iteration visits them. *)

Record NetworkInfo := { net_cidr : option string }.

(** One rule of a security group; an absent key is [None]. *)
Record RuleSpec := {
  from_port : option Z;
  to_port : option Z;
  rule_protocol : option string;
  source_group : option string;
  rule_cidr : option string
}.

Record Stack := {
  stack_networks : option (list (string * NetworkInfo));
  stack_securitygroups : option (list (string * option (list RuleSpec)));
  stack_nodes : option (list (string * NodeInfo))
}.

(** The details of a [provision] step: the stack its ['stack'] file holds
    and the content of its ['userdata'] file, when it names one. *)
Record ProvisionDetails := {
  pd_stack : Stack;
  pd_userdata : option string
}.

(** ** The methods of [DeploymentRunner] and [Node] *)

Section Methods.
Context (cloud : Cloud).

(** A call of a client method: the request joins the history and the cloud
    decides the outcome.  (The client handles themselves, which the source
    builds lazily from the environment, are taken to be ready.) *)
Definition request {A} (q : Req A) : M A := λ s,
  let s' := set_calls (calls s ++ [call_of q]) s in
  match cloud A (calls s) q with
  | inl e => (s', Exc e)
  | inr a => (s', Val a)
  end.

(** [self.record_resource(type_, id)] with [self] the runner *)
Definition runner_record_resource (type_ id : string) : M unit :=
  r ← gets dr; call_record_resource (Runner.record_resource r) type_ id.

(** [self.record_resource(type_, id)] with [self] the node [self.nodes[key]] *)
Definition node_record_resource (key type_ id : string) : M unit :=
  n ← get_node key; call_record_resource (Node.record_resource n) type_ id.

Definition _map_network (network : string) : M string :=
  r ← gets dr;
  match map_networks (Runner.mappings r) !! network with
  | Some v => mret v
  | None =>
      match Runner.networks r !! network with
      | Some v => mret v
      | None => mret network
      end
  end.

Definition delete_volume (uuid : string) : M unit :=
  request (cinder_volumes_delete uuid).
Definition delete_port (uuid : string) : M unit :=
  request (neutron_delete_port uuid).
Definition delete_network (uuid : string) : M unit :=
  request (neutron_delete_network uuid).
Definition delete_router (uuid : string) : M unit :=
  request (neutron_delete_router uuid).

(** The inner loop of [delete_subnet]: the first fixed IP on the subnet
    sets [router_found], detaches the router interface of the port and
    leaves the loop. *)
Fixpoint delete_subnet_fixed_ips (uuid : string) (port : ApiPort)
    (fixed_ips : list ApiFixedIp) (router_found : bool) : M bool :=
  match fixed_ips with
  | [] => mret router_found
  | fixed_ip :: rest =>
      if String.eqb (subnet_id fixed_ip) uuid
      then request (neutron_remove_interface_router (ap_device_id port) uuid);;
           mret true
      else delete_subnet_fixed_ips uuid port rest router_found
  end.

Definition delete_subnet (uuid : string) : M unit :=
  try_except (request (neutron_delete_subnet uuid)) is_NeutronConflict (λ e,
    ports ← request (neutron_list_ports (Some "network:router_interface"));
    router_found ← for_fold ports false (λ port router_found,
      delete_subnet_fixed_ips uuid port (ap_fixed_ips port) router_found);
    if router_found : bool
    then request (neutron_delete_subnet uuid)
    else raise e).

Definition delete_secgroup (uuid : string) : M unit :=
  request (neutron_delete_security_group uuid).
Definition delete_secgroup_rule (uuid : string) : M unit :=
  request (neutron_delete_security_group_rule uuid).
Definition delete_floatingip (uuid : string) : M unit :=
  request (neutron_delete_floatingip uuid).
Definition delete_keypair (name : string) : M unit :=
  request (nova_keypairs_delete name).
Definition delete_server (uuid : option string) : M unit :=
  request (nova_servers_delete uuid).

Definition create_port (name network : string) (secgroups : list string) : M Port :=
  network_id ← _map_network network;
  port ← request (neutron_create_port name network_id secgroups);
  match ap_fixed_ips port with
  | [] => raise IndexError
  | fixed_ip :: _ =>
      mret {| port_id := ap_id port;
              port_fixed_ip := ip_address fixed_ip;
              port_mac := ap_mac_address port;
              port_network_name := network;
              port_floating_ip := None |}
  end.

Definition create_keypair (name keydata : string) : M unit :=
  try_except (request (nova_keypairs_create name keydata)) is_NovaConflict
    (λ _, mret tt).

Definition find_floating_network : M string :=
  networks ← request (neutron_list_networks true);
  match networks with
  | [] => raise IndexError
  | network :: _ => mret (net_id network)
  end.

Definition create_floating_ip : M (string * string) :=
  floating_network ← find_floating_network;
  floatingip ← request (neutron_create_floatingip floating_network);
  runner_record_resource "floatingip" (fip_id floatingip);;
  mret (fip_id floatingip, fip_floating_ip_address floatingip).

Definition associate_floating_ip (port_id fip_id : string) : M unit :=
  request (neutron_update_floatingip fip_id port_id).


Definition create_network (name : string) (info : NetworkInfo) : M string :=
  network ← request (neutron_create_network name);
  runner_record_resource "network" (net_id network);;
  cidr ← field "cidr" (net_cidr info);
  subnet ← request (neutron_create_subnet (net_id network) cidr name);
  runner_record_resource "subnet" subnet;;
  r ← gets dr;
  match map_routers (Runner.mappings r) !! "*" with
  | Some router => request (neutron_add_interface_router router subnet)
  | None => mret tt
  end;;
  mret (net_id network).

(** The rule [create_security_group] sends for one entry of [info], given
    the table [self.secgroups] and the id of the group being filled; the
    keys of [rule] are read in the order of the dict literal. *)
Definition secgroup_rule (secgroups : gmap string string) (secgroup_id : string)
    (rule : RuleSpec) : Exn + SecgroupRule :=
  match from_port rule with
  | None => inl (KeyError "from_port")
  | Some from_port =>
  match to_port rule with
  | None => inl (KeyError "to_port")
  | Some to_port =>
  match rule_protocol rule with
  | None => inl (KeyError "protocol")
  | Some protocol =>
      let secgroup_rule source :=
        {| direction := "ingress";
           ethertype := "IPv4";
           port_range_min := from_port;
           port_range_max := to_port;
           protocol := protocol;
           security_group_id := secgroup_id;
           rule_source := source |} in
      match source_group rule with
      | Some group =>
          inr (secgroup_rule (remote_group_id (default group (secgroups !! group))))
      | None =>
          match rule_cidr rule with
          | Some cidr => inr (secgroup_rule (remote_ip_prefix cidr))
          | None => inl (KeyError "cidr")
          end
      end
  end end end.

Definition create_security_group (base_name : string)
    (info : option (list RuleSpec)) : M unit :=
  r ← gets dr;
  let name := add_suffix r base_name in
  secgroup ← request (neutron_create_security_group name);
  runner_record_resource "secgroup" (sg_id secgroup);;
  modify_dr (λ r, Runner.set_secgroups (<[base_name := sg_id secgroup]> (Runner.secgroups r)) r);;
  for_each (default [] info) (λ rule,
    r ← gets dr;
    body ← lift (secgroup_rule (Runner.secgroups r) (sg_id secgroup) rule);
    rule_id ← request (neutron_create_security_group_rule body);
    runner_record_resource "secgroup_rule" rule_id).

(** *** Node *)

(** [Node.__init__] *)
Definition Node_init (name : string) (info : NodeInfo) (runner : Runner.t)
    (keypair userdata : option string) : Node.t :=
  let image' :=
    match info_image info with
    | Some i => Some (default i (map_images (Runner.mappings runner) !! i))
    | None => None
    end in
  let flavor' :=
    match info_flavor info with
    | Some f => Some (default f (map_flavors (Runner.mappings runner) !! f))
    | None => None
    end in
  {| Node.record_resource := sink_noop;
     Node.name := name;
     Node.info := {| info_image := image'; info_flavor := flavor';
                     info_disk := info_disk info;
                     info_networks := info_networks info;
                     info_number := info_number info;
                     info_export := info_export info |};
     Node.keypair := keypair;
     Node.userdata := userdata;
     Node.server_id := None;
     Node.fip_ids := ∅;
     Node.ports := [];
     Node.server_status := None;
     Node.image := None;
     Node.flavor := None;
     Node.attempts_left := Runner.retry_count runner + 1 |}.

(** [Node.poll]; [key] is the key under which the node sits in
    [runner.nodes]. *)
Definition Node_poll (key : string) (desired_status : string) : M (option string) :=
  n ← get_node key;
  (if bool_decide (Node.server_status n ≠ Some desired_status)
   then server ← request (nova_servers_get (Node.server_id n));
        modify_node key (Node.set_server_status (Some (srv_status server)))
   else mret tt);;
  n ← get_node key;
  mret (Node.server_status n).

(** [Node.clean] *)
Definition Node_clean (key : string) : M unit :=
  n ← get_node key;
  for_each (elements (Node.fip_ids n)) delete_floatingip;;
  modify_node key (Node.set_fip_ids ∅);;
  n ← get_node key;
  for_each (Node.ports n) (λ port, delete_port (port_id port));;
  modify_node key (Node.set_ports []);;
  n ← get_node key;
  delete_server (Node.server_id n);;
  modify_node key (Node.set_server_id None).

(** [port_info['floating_ip'] = fip_address] in [create_nics]: [port_info]
    is the dict that was just appended to [self.ports], so the assignment
    shows in the last element of that list. *)
Definition set_floating_ip (address : string) (port : Port) : Port :=
  {| port_id := port_id port; port_fixed_ip := port_fixed_ip port;
     port_mac := port_mac port; port_network_name := port_network_name port;
     port_floating_ip := Some address |}.

Definition set_last_floating_ip (address : string) (ports : list Port) : list Port :=
  match reverse ports with
  | [] => []
  | port :: before => reverse before ++ [set_floating_ip address port]
  end.

(** [Node.create_nics]: the loop over [enumerate(networks)], from index
    [eth_idx] on, with the [nics] collected so far. *)
Fixpoint Node_create_nics_from (key : string) (eth_idx : nat)
    (networks : list Attachment) (nics : list string) : M (list string) :=
  match networks with
  | [] => mret nics
  | network :: rest =>
      n ← get_node key;
      r ← gets dr;
      let port_name := Node.name n +:+ "_eth" +:+ pretty eth_idx in
      secgroups ← list_comp (default [] (att_securitygroups network))
                    (subscript (Runner.secgroups r));
      port_info ← create_port port_name (att_network network) secgroups;
      runner_record_resource "port" (port_id port_info);;
      modify_node key (λ n, Node.set_ports (Node.ports n ++ [port_info]) n);;
      (if att_assign_floating_ip network
       then '(fip_id, fip_address) ← create_floating_ip;
            associate_floating_ip (port_id port_info) fip_id;;
            modify_node key (λ n,
              Node.set_ports (set_last_floating_ip fip_address (Node.ports n)) n);;
            modify_node key (λ n, Node.set_fip_ids ({[fip_id]} ∪ Node.fip_ids n) n)
       else mret tt);;
      Node_create_nics_from key (S eth_idx) rest (nics ++ [port_id port_info])
  end.

Definition Node_create_nics (key : string) (networks : list Attachment)
    : M (list string) :=
  Node_create_nics_from key 0 networks [].

(** The loop of [build] that waits for the volume:
    [while volume.status != 'available': time.sleep(3); volume = ...get(volume.id)]. *)
Fixpoint wait_volume (fuel : nat) (volume : ApiVolume) : M ApiVolume :=
  if String.eqb (vol_status volume) "available" then mret volume
  else match fuel with
       | O => out_of_fuel
       | S fuel' =>
           time_sleep 3;;
           volume' ← request (cinder_volumes_get (vol_id volume));
           wait_volume fuel' volume'
       end.

(** [Node.build] *)
Definition Node_build (fuel : nat) (key : string) : M unit :=
  n ← get_node key;
  match Node.flavor n with
  | None =>
      flavor_name ← field "flavor" (info_flavor (Node.info n));
      flavor ← request (nova_flavors_get flavor_name);
      modify_node key (Node.set_flavor (Some flavor))
  | Some _ => mret tt
  end;;
  networks ← field "networks" (info_networks (Node.info n));
  nics ← Node_create_nics key networks;
  disk ← field "disk" (info_disk (Node.info n));
  image ← field "image" (info_image (Node.info n));
  volume ← request (cinder_volumes_create disk image);
  node_record_resource key "volume" (vol_id volume);;
  volume ← wait_volume fuel volume;
  let bdm := vol_id volume +:+ ":::1" in
  n ← get_node key;
  server ← request (nova_servers_create (Node.name n) bdm (Node.flavor n) nics
                      (Node.keypair n) (Node.userdata n));
  runner_record_resource "server" (srv_id server);;
  modify_node key (Node.set_server_id (Some (srv_id server)));;
  modify_node key (λ n, Node.set_attempts_left (Node.attempts_left n - 1) n).

(** The [floating_ip] property: the loop returns at the first port whose
    dict has the key; falling off the end returns [None]. *)
Fixpoint first_floating_ip (ports : list Port) : option string :=
  match ports with
  | [] => None
  | port :: rest =>
      match port_floating_ip port with
      | Some address => Some address
      | None => first_floating_ip rest
      end
  end.

Definition Node_floating_ip (self : Node.t) : option string :=
  first_floating_ip (Node.ports self).

(** *** Reconciliation *)

(** The three views of the ports [detect_existing_resources] builds.  The
    dicts of [raw_ports] are shared by [ports_by_id] and [ports_by_mac], so
    the two tables hold positions in [raw_ports] and an assignment through
    one table is seen through the other. *)
Definition index_by (f : Port → string) (raw_ports : list Port) : gmap string nat :=
  foldl (λ m ip, <[f ip.2 := ip.1]> m) ∅ (imap pair raw_ports).

(** [strip_suffix] as [detect_existing_resources] picks it: [s[:-len(suffix)]]
    when the suffix is not empty, [s] itself when it is. *)
Definition strip_suffix (suffix : string) : string → string :=
  if negb (String.eqb suffix "")
  then λ s, Str.slice_to_neg s (String.length suffix)
  else λ s, s.

(** The body of the loop over the networks. *)
Definition detect_network (suffix : string) (network : ApiNetwork)
    (network_name_by_id : gmap string string) : M (gmap string string) :=
  if Str.endswith (net_name network) suffix then
    let base_name := strip_suffix suffix (net_name network) in
    r ← gets dr;
    if bool_decide (is_Some (Runner.networks r !! base_name))
    then raise (DuplicateResourceException "Network" (net_name network))
    else
      modify_dr (λ r, Runner.set_networks
                        (<[base_name := net_id network]> (Runner.networks r)) r);;
      mret (<[net_id network := base_name]> network_name_by_id)
  else mret network_name_by_id.

(** One element of [raw_ports]. *)
Definition detect_port (network_name_by_id : gmap string string) (port : ApiPort)
    : M Port :=
  match ap_fixed_ips port with
  | [] => raise IndexError
  | fixed_ip :: _ =>
      mret {| port_id := ap_id port;
              port_fixed_ip := ip_address fixed_ip;
              port_mac := ap_mac_address port;
              port_network_name :=
                default (ap_network_id port)
                        (network_name_by_id !! ap_network_id port);
              port_floating_ip := None |}
  end.

(** The body of the loop over the floating IPs. *)
Definition detect_floatingip (ports_by_id : gmap string nat) (fip : ApiFloatingIp)
    (raw_ports : list Port) : M (list Port) :=
  if negb (Str.truthy (fip_port_id fip)) then mret raw_ports
  else
    i ← subscript ports_by_id (default "" (fip_port_id fip));
    mret (alter (set_floating_ip (fip_floating_ip_address fip)) i raw_ports).

(** The body of the loop over the security groups. *)
Definition detect_secgroup (suffix : string) (secgroup : ApiSecgroup) : M unit :=
  if Str.endswith (sg_name secgroup) suffix then
    let base_name := strip_suffix suffix (sg_name secgroup) in
    r ← gets dr;
    if bool_decide (is_Some (Runner.secgroups r !! base_name))
    then raise (DuplicateResourceException "Security Group" (sg_name secgroup))
    else modify_dr (λ r, Runner.set_secgroups
                           (<[base_name := sg_id secgroup]> (Runner.secgroups r)) r)
  else mret tt.

(** The inner loop over the addresses of a server. *)
Definition detect_address (ports_by_mac : gmap string nat) (raw_ports : list Port)
    (base_name : string) (address : list string) : M unit :=
  match address with
  | [] => raise IndexError
  | mac :: _ =>
      i ← subscript ports_by_mac mac;
      match raw_ports !! i with
      | Some port =>
          modify_node base_name (λ n, Node.set_ports (Node.ports n ++ [port]) n)
      | None => raise IndexError
      end
  end.

(** The body of the loop over the servers. *)
Definition detect_server (suffix : string) (ports_by_mac : gmap string nat)
    (raw_ports : list Port) (node : ApiServer) : M unit :=
  if Str.endswith (srv_name node) suffix then
    let base_name := strip_suffix suffix (srv_name node) in
    r ← gets dr;
    if bool_decide (is_Some (Runner.nodes r !! base_name))
    then raise (DuplicateResourceException "Node" (srv_name node))
    else
      modify_dr (λ r, Runner.set_nodes
                        (<[base_name := Node_init (srv_name node) empty_info r None None]>
                           (Runner.nodes r)) r);;
      for_each (srv_addresses node).*2
        (detect_address ports_by_mac raw_ports base_name)
  else mret tt.

Definition detect_existing_resources : M unit :=
  r ← gets dr;
  let suffix := add_suffix r "" in
  networks ← request (neutron_list_networks false);
  network_name_by_id ← for_fold networks (∅ : gmap string string)
                         (detect_network suffix);
  ports ← request (neutron_list_ports None);
  raw_ports ← list_comp ports (detect_port network_name_by_id);
  let ports_by_id := index_by port_id raw_ports in
  let ports_by_mac := index_by port_mac raw_ports in
  floatingips ← request neutron_list_floatingips;
  raw_ports ← for_fold floatingips raw_ports (detect_floatingip ports_by_id);
  secgroups ← request neutron_list_security_groups;
  for_each secgroups (detect_secgroup suffix);;
  servers ← request nova_servers_list;
  for_each servers (detect_server suffix ports_by_mac raw_ports).

(** *** Provisioning *)

Definition _create_node (fuel : nat) (base_name : string) (node_info : NodeInfo)
    (keypair_name userdata : option string) : M (option string) :=
  r ← gets dr;
  if bool_decide (is_Some (Runner.nodes r !! base_name)) then mret None
  else
    let node_name := add_suffix r base_name in
    modify_dr (Runner.set_nodes
                 (<[base_name := Node_init node_name node_info r keypair_name userdata]>
                    (Runner.nodes r)));;
    Node_build fuel base_name;;
    mret (Some base_name).

Definition _poll_pending_nodes (fuel : nat) (pending_nodes : gset string)
    : M (gset string) :=
  done ← for_fold (elements pending_nodes) (∅ : gset string) (λ name done,
    state ← Node_poll name "ACTIVE";
    if bool_decide (state = Some "ACTIVE") then mret ({[name]} ∪ done)
    else if bool_decide (state = Some "ERROR") then
      r ← gets dr;
      if bool_decide (Runner.retry_count r ≠ 0) then
        Node_clean name;;
        n ← get_node name;
        if bool_decide (Node.attempts_left n ≠ 0)
        then Node_build fuel name;; mret done
        else raise ProvisionFailedException
      else raise ProvisionFailedException
    else mret done);
  mret (pending_nodes ∖ done).

(** The loop that ends [provision_step]:
    [while True: pending = poll(pending); if not pending: break; wait()]. *)
Fixpoint wait_pending_nodes (rounds fuel : nat) (pending_nodes : gset string) : M unit :=
  match rounds with
  | O => out_of_fuel
  | S rounds' =>
      pending_nodes ← _poll_pending_nodes fuel pending_nodes;
      if bool_decide (pending_nodes = ∅) then mret tt
      else time_sleep 5;; wait_pending_nodes rounds' fuel pending_nodes
  end.

(** [if name: pending_nodes.add(name)] *)
Definition add_pending (name : option string) (pending_nodes : gset string) : gset string :=
  if Str.truthy name then {[default "" name]} ∪ pending_nodes else pending_nodes.

Definition without_number (node_info : NodeInfo) : NodeInfo :=
  {| info_image := info_image node_info; info_flavor := info_flavor node_info;
     info_disk := info_disk node_info; info_networks := info_networks node_info;
     info_number := None; info_export := info_export node_info |}.

(** [provision_step].  The replicas of a template share one [node_info]
    dict, which [Node.__init__] updates with the mapped image and flavor:
    each replica is created from the dict as the previous one left it. *)
Definition provision_step (fuel : nat) (details : ProvisionDetails) : M unit :=
  let stack := pd_stack details in
  r ← gets dr;
  keypair_name ←
    (if Str.truthy (Runner.key r) then
       let keypair_name := add_suffix r "pubkey" in
       create_keypair keypair_name (default "" (Runner.key r));;
       runner_record_resource "keypair" keypair_name;;
       mret (Some keypair_name)
     else mret None);
  let userdata := pd_userdata details in
  networks ← field "networks" (stack_networks stack);
  for_each networks (λ '(base_network_name, network_info),
    r ← gets dr;
    if bool_decide (is_Some (Runner.networks r !! base_network_name)) then mret tt
    else
      let network_name := add_suffix r base_network_name in
      network_id ← create_network network_name network_info;
      modify_dr (λ r, Runner.set_networks
                        (<[base_network_name := network_id]> (Runner.networks r)) r));;
  securitygroups ← field "securitygroups" (stack_securitygroups stack);
  for_each securitygroups (λ '(base_secgroup_name, secgroup_info),
    r ← gets dr;
    if bool_decide (is_Some (Runner.secgroups r !! base_secgroup_name)) then mret tt
    else create_security_group base_secgroup_name secgroup_info);;
  nodes ← field "nodes" (stack_nodes stack);
  pending_nodes ← for_fold nodes (∅ : gset string)
    (λ '(base_node_name, node_info) pending_nodes,
      match info_number node_info with
      | Some count =>
          '(_, pending_nodes) ←
            for_fold (seqZ 1 count) (without_number node_info, pending_nodes)
              (λ idx '(node_info, pending_nodes),
                let node_name := base_node_name +:+ pretty idx in
                name ← _create_node fuel node_name node_info keypair_name userdata;
                r ← gets dr;
                let node_info :=
                  match name, Runner.nodes r !! node_name with
                  | Some _, Some n => Node.info n
                  | _, _ => node_info
                  end in
                mret (node_info, add_pending name pending_nodes));
          mret pending_nodes
      | None =>
          name ← _create_node fuel base_node_name node_info keypair_name userdata;
          mret (add_pending name pending_nodes)
      end);
  wait_pending_nodes fuel fuel pending_nodes.

(** *** Teardown *)

(** [getattr(dr, 'delete_%s' % resource_type)] *)
Definition getattr_delete (resource_type : string) : M (string → M unit) :=
  if String.eqb resource_type "volume" then mret delete_volume
  else if String.eqb resource_type "port" then mret delete_port
  else if String.eqb resource_type "network" then mret delete_network
  else if String.eqb resource_type "router" then mret delete_router
  else if String.eqb resource_type "subnet" then mret delete_subnet
  else if String.eqb resource_type "secgroup" then mret delete_secgroup
  else if String.eqb resource_type "secgroup_rule" then mret delete_secgroup_rule
  else if String.eqb resource_type "floatingip" then mret delete_floatingip
  else if String.eqb resource_type "keypair" then mret delete_keypair
  else if String.eqb resource_type "server" then mret (λ uuid, delete_server (Some uuid))
  else raise (AttributeError ("delete_" +:+ resource_type)).

(** What [print e] shows for an exception. *)
Definition Exn_str (e : Exn) : string :=
  match e with
  | NeutronConflict msg | NovaConflict msg | CloudError msg | ValueError msg
  | IOError msg | TypeError msg | UnboundLocalError msg => msg
  | KeyError k => k
  | IndexError => "list index out of range"
  | AttributeError a => a
  | CommandFailedException s | CommandTimedOutException s => s
  | ProvisionFailedException => ""
  | DuplicateResourceException kind name => kind +:+ " " +:+ name
  end.

(** [cleanup] in [main]; [log] is the content of the file [args.log]. *)
Definition cleanup (log : string) : M unit :=
  modify (set_dr (DeploymentRunner None None None 0));;
  let lines := Str.strip <$> Str.readlines log in
  for_each (reverse lines) (λ l,
    match Str.split_colon_space l with
    | [resource_type; uuid] =>
        func ← getattr_delete resource_type;
        try_except (func uuid) (λ _, true) (λ e, print (Exn_str e))
    | [] | [_] => raise (ValueError "need more than 1 value to unpack")
    | _ => raise (ValueError "too many values to unpack")
    end).

End Methods.

(** ** Shell steps *)

(** The details of a [shell] step; an absent key is [None].  The three
    durations are kept as written in the file: [utils.parse_time] reads
    them. *)
Record ShellDetails := {
  sd_cmd : option string;
  sd_type : option string;
  sd_node : option string;
  sd_total_timeout : option string;
  sd_timeout : option string;
  sd_retry_delay : option string;
  sd_retry_if_fails : bool;
  sd_environment : option (list (string * string))
}.

(** How a started process behaves: after how many polls of the parent it
    has exited (never, for [None]), with which return code, and what is
    left of the script when the parent gives up on it. *)
Record Proc := {
  exits_after : option nat;
  returncode : Z;
  unsent : string
}.

(** Python truthiness of an optional number: [None] and [0] are false. *)
Definition truthyZ (o : option Z) : bool :=
  match o with
  | Some z => negb (z =? 0)%Z
  | None => false
  end.

(** [x < d] in Python 2, where [None] sorts below every number. *)
Definition lt_py2 (x : Z) (d : option Z) : bool :=
  match d with
  | Some d => (x <? d)%Z
  | None => false
  end.

(** The deadline [shell_step] gives an attempt that starts at [now]. *)
Definition attempt_deadline (now : Z) (individual_exec_limit overall_deadline : option Z)
    : option Z :=
  if truthyZ individual_exec_limit then
    let deadline := (now + default 0 individual_exec_limit)%Z in
    if truthyZ overall_deadline then
      if (deadline >? default 0 overall_deadline)%Z then overall_deadline
      else Some deadline
    else Some deadline
  else if truthyZ overall_deadline then overall_deadline
  else None.

(** [proc.poll() is not None] at the given poll of the parent. *)
Definition has_exited (p : Proc) (polls : nat) : bool :=
  match exits_after p with
  | Some n => (n <=? polls)%nat
  | None => false
  end.

Inductive LoopStep := loop_break | loop_continue.

Definition is_command_exception (e : Exn) : bool :=
  match e with
  | CommandFailedException _ | CommandTimedOutException _ => true
  | _ => false
  end.

Definition dquote : string := String (Ascii.ascii_of_nat 34) "".

Section Shell.
(** [utils.parse_time] is not part of this file; [pipes.quote], the
    environment of the process and the behaviour of the commands it starts
    are given from outside.  Time is counted in seconds. *)
Context (parse_time : string → Z).
Context (pipes_quote : string → string).
Context (environ : gmap string string).
Context (proc : nat → string → Proc).

(** The [while True] loop of [run_cmd_once].  One pass waits on the input
    of the process for up to a second (feeding it the script), then looks
    whether the process has exited, then at the deadline. *)
Fixpoint run_cmd_once_loop (fuel : nat) (p : Proc) (polls : nat)
    (deadline : option Z) : M bool :=
  match fuel with
  | O => out_of_fuel
  | S fuel' =>
      modify (λ s, set_clock (clock s + 1) s);;
      if has_exited p polls then
        if (returncode p =? 0)%Z then mret true
        else raise (CommandFailedException (unsent p))
      else
        now ← time_time;
        if truthyZ deadline && (now >? default 0 deadline)%Z
        then raise (CommandTimedOutException (unsent p))
        else run_cmd_once_loop fuel' p (S polls) deadline
  end.

Definition run_cmd_once (fuel : nat) (shell_cmd real_cmd : string)
    (deadline : option Z) : M bool :=
  n ← gets spawned;
  modify (set_spawned (S n));;
  run_cmd_once_loop fuel (proc n shell_cmd) 0 deadline.

Definition add_environment (key value : string) : string :=
  pipes_quote key +:+ "=" +:+ pipes_quote value +:+ " ".

Definition build_env_prefix (details : ShellDetails) : M string :=
  r ← gets dr;
  let env_prefix :=
    add_environment "ALL_NODES"
      (String.concat " " (add_suffix r <$> (map_to_list (Runner.nodes r)).*1)) in
  let env_prefix :=
    foldl (λ env_prefix '(node_name, node),
             if info_export (Node.info node) then
               foldl (λ env_prefix port,
                        env_prefix +:+
                        add_environment
                          ("OVERCAST_" +:+ node_name +:+ "_" +:+
                           port_network_name port +:+ "_fixed")
                          (port_fixed_ip port))
                     env_prefix (Node.ports node)
             else env_prefix)
          env_prefix (map_to_list (Runner.nodes r)) in
  for_fold (default [] (sd_environment details)) env_prefix
    (λ '(key, value) env_prefix,
      value ← match value with
              | String "$"%char name =>
                  match environ !! name with
                  | Some v => mret v
                  | None => raise (TypeError "'NoneType' object is not iterable")
                  end
              | _ => mret value
              end;
      mret (env_prefix +:+ add_environment key value)).

Definition shell_step_cmd (details : ShellDetails) (env_prefix : string) : M string :=
  if bool_decide (sd_type details = Some "remote") then
    node_key ← field "node" (sd_node details);
    node ← get_node node_key;
    let fip_addr := default "None" (Node_floating_ip node) in
    mret ("ssh -o StrictHostKeyChecking=no ubuntu@" +:+ fip_addr +:+ " " +:+
          dquote +:+ env_prefix +:+ " bash" +:+ dquote)
  else mret (env_prefix +:+ " bash").

(** One pass of the [while True] loop of [shell_step]: the deadline, one
    run of the command, and what the two [except] clauses decide. *)
Definition shell_step_attempt (fuel : nat) (details : ShellDetails) (cmd : string)
    (overall_deadline individual_exec_limit : option Z) (retry_delay : Z)
    : M LoopStep :=
  now ← time_time;
  let deadline := attempt_deadline now individual_exec_limit overall_deadline in
  try_except
    (real_cmd ← field "cmd" (sd_cmd details);
     run_cmd_once fuel cmd real_cmd deadline;;
     mret loop_break)
    is_command_exception
    (λ e,
      match e with
      | CommandFailedException _ =>
          if sd_retry_if_fails details
          then time_sleep retry_delay;; mret loop_continue
          else raise e
      | CommandTimedOutException _ =>
          if sd_retry_if_fails details then
            now ← time_time;
            if lt_py2 (now + retry_delay) deadline
            then time_sleep retry_delay;; mret loop_continue
            else raise e
          else raise e
      | _ => raise e
      end).

Fixpoint shell_step_loop (attempts fuel : nat) (details : ShellDetails) (cmd : string)
    (overall_deadline individual_exec_limit : option Z) (retry_delay : Z)
    : M unit :=
  match attempts with
  | O => out_of_fuel
  | S attempts' =>
      step ← shell_step_attempt fuel details cmd overall_deadline
               individual_exec_limit retry_delay;
      match step with
      | loop_break => mret tt
      | loop_continue =>
          shell_step_loop attempts' fuel details cmd overall_deadline
            individual_exec_limit retry_delay
      end
  end.

Definition shell_step (fuel : nat) (details : ShellDetails) : M unit :=
  env_prefix ← build_env_prefix details;
  cmd ← shell_step_cmd details env_prefix;
  now ← time_time;
  let overall_deadline :=
    if Str.truthy (sd_total_timeout details)
    then Some (now + parse_time (default "" (sd_total_timeout details)))%Z
    else None in
  let individual_exec_limit :=
    if Str.truthy (sd_timeout details)
    then Some (parse_time (default "" (sd_timeout details)))
    else None in
  let retry_delay :=
    if Str.truthy (sd_retry_delay details)
    then parse_time (default "" (sd_retry_delay details))
    else 0%Z in
  shell_step_loop fuel fuel details cmd overall_deadline individual_exec_limit
    retry_delay.

(** ** Deployments *)

Inductive Step :=
| provision (details : ProvisionDetails)
| shell (details : ShellDetails)
| other_step (step_type : string).

Context (cloud : Cloud).

(** [DeploymentRunner.deploy], with [steps] the list [self.cfg[name]]. *)
Definition deploy (fuel : nat) (steps : list Step) : M unit :=
  for_each steps (λ step,
    match step with
    | provision details => provision_step cloud fuel details
    | shell details => shell_step fuel details
    | other_step step_type => raise (AttributeError (step_type +:+ "_step"))
    end).

(** The command line of [deploy], with the files it names already read:
    [mappings] is what [load_mappings] makes of [--mappings], [key] is the
    content of [--key], [cleanup] says whether [--cleanup] was given; the
    cleanup file is opened for appending.  Without [--mappings] the call
    [load_mappings(None)] fails on [open]; without [--key] the local [key]
    is read before it is bound. *)
Record DeployArgs := {
  args_steps : list Step;
  args_suffix : option string;
  args_mappings : option Mappings;
  args_key : option string;
  args_retry_count : Z;
  args_cont : bool;
  args_cleanup : bool
}.

(** [deploy] in [main] *)
Definition main_deploy (fuel : nat) (args : DeployArgs) : M unit :=
  mappings ← match args_mappings args with
             | Some mappings => mret mappings
             | None => raise (TypeError "coercing to Unicode: need string or buffer")
             end;
  key ← match args_key args with
        | Some key => mret key
        | None => raise (UnboundLocalError "key")
        end;
  modify (set_dr (DeploymentRunner (args_suffix args) (Some mappings)
                    (Some key) (args_retry_count args)));;
  (if args_cont args then detect_existing_resources cloud else mret tt);;
  (if args_cleanup args
   then modify_dr (Runner.set_record_resource sink_cleanup_file)
   else mret tt);;
  deploy fuel (args_steps args).

End Shell.

(** ** The weak references of a stack *)

(** The loop of [find_weak_refs] over the nodes.  A node is read by
    subscript: its image, its flavor, then its networks. *)
Fixpoint find_weak_refs_nodes (nodes : list (string * NodeInfo))
    (images flavors networks : gset string)
    : Exn + (gset string * gset string * gset string) :=
  match nodes with
  | [] => inr (images, flavors, networks)
  | (node_name, node) :: rest =>
      match info_image node with
      | None => inl (KeyError "image")
      | Some image =>
      match info_flavor node with
      | None => inl (KeyError "flavor")
      | Some flavor =>
      match info_networks node with
      | None => inl (KeyError "networks")
      | Some attachments =>
          find_weak_refs_nodes rest ({[image]} ∪ images) ({[flavor]} ∪ flavors)
            (list_to_set (att_network <$> attachments) ∪ networks)
      end end end
  end.

(** [find_weak_refs]: the images, the flavors, and the networks the nodes
    name that the stack does not define itself. *)
Definition find_weak_refs (stack : Stack)
    : Exn + (gset string * gset string * gset string) :=
  match stack_nodes stack with
  | None => inl (KeyError "nodes")
  | Some nodes =>
      match find_weak_refs_nodes nodes ∅ ∅ ∅ with
      | inl e => inl e
      | inr (images, flavors, networks) =>
          let dynamic_networks : gset string :=
            list_to_set (default [] (stack_networks stack)).*1 in
          inr (images, flavors, networks ∖ dynamic_networks)
      end
  end.

(** ** The clients

    The runner builds its clients on first use and keeps them in
    [self.conncache].  A client is modelled by the call that constructs it;
    whether a constructor raises is given from outside, as is the
    environment of the process.  (The imports at the head of each getter
    are taken to succeed.) *)

(** The dict [get_creds_from_env] returns. *)
Record Creds := {
  username : string;
  password : string;
  auth_url : string;
  tenant_name : string
}.

Inductive Client :=
| keystone_Password (creds : Creds)
| keystone_Session (auth : Client)
| keystone_Client (session : Client)
| nova_Client (version : string) (session : Client) (region_name : option string)
| cinder_Client (version : string) (session : Client) (region_name : option string)
| neutron_Client (version : string) (session : Client) (region_name : option string).

(** The cache of a runner, and the clients constructed so far, in order. *)
Record Conns := {
  conncache : gmap string Client;
  constructed : list Client
}.

Definition no_conns : Conns := {| conncache := ∅; constructed := [] |}.

(** A computation on the cache that may raise. *)
Definition Conn (A : Type) : Type := Conns → Conns * (Exn + A).

Definition Conn_ret {A} (a : A) : Conn A := λ st, (st, inr a).

Definition Conn_bind {A B} (m : Conn A) (k : A → Conn B) : Conn B := λ st,
  match m st with
  | (st', inr a) => k a st'
  | (st', inl e) => (st', inl e)
  end.

(** [self.conncache[key] = client] *)
Definition cache (key : string) (client : Client) : Conn unit := λ st,
  ({| conncache := <[key := client]> (conncache st); constructed := constructed st |},
   inr tt).

(** [self.conncache[key]] *)
Definition cached (key : string) : Conn Client := λ st,
  match conncache st !! key with
  | Some client => (st, inr client)
  | None => (st, inl (KeyError key))
  end.

Section Clients.
Context (environ : gmap string string).
Context (raises : Client → option Exn).

(** [os.environ[name]] *)
Definition getenv (name : string) : Exn + string :=
  match environ !! name with
  | Some value => inr value
  | None => inl (KeyError name)
  end.

Definition get_creds_from_env : Exn + Creds :=
  match getenv "OS_USERNAME" with
  | inl e => inl e
  | inr username =>
  match getenv "OS_PASSWORD" with
  | inl e => inl e
  | inr password =>
  match getenv "OS_AUTH_URL" with
  | inl e => inl e
  | inr auth_url =>
  match getenv "OS_TENANT_NAME" with
  | inl e => inl e
  | inr tenant_name =>
      inr {| username := username; password := password; auth_url := auth_url;
             tenant_name := tenant_name |}
  end end end end.

(** A call of a constructor. *)
Definition construct (client : Client) : Conn Client := λ st,
  match raises client with
  | Some e => (st, inl e)
  | None =>
      ({| conncache := conncache st; constructed := constructed st ++ [client] |},
       inr client)
  end.

Definition get_keystone_session : Conn Client := λ st,
  (if bool_decide (conncache st !! "keystone_session" = None) then
     Conn_bind (λ st, (st, get_creds_from_env)) (λ creds,
     Conn_bind (construct (keystone_Password creds)) (λ auth,
     Conn_bind (cache "keystone_auth" auth) (λ _,
     Conn_bind (cached "keystone_auth") (λ auth,
     Conn_bind (construct (keystone_Session auth)) (λ session,
     Conn_bind (cache "keystone_session" session) (λ _,
     cached "keystone_session"))))))
   else cached "keystone_session") st.

Definition get_keystone_client : Conn Client := λ st,
  (if bool_decide (conncache st !! "keystone" = None) then
     Conn_bind get_keystone_session (λ ks,
     Conn_bind (construct (keystone_Client ks)) (λ client,
     Conn_bind (cache "keystone" client) (λ _,
     cached "keystone")))
   else cached "keystone") st.

(** The three service clients are built the same way: the session, the
    region when the environment names one, the constructor with its
    version. *)
Definition get_service_client (key : string)
    (new : Client → option string → Client) : Conn Client := λ st,
  (if bool_decide (conncache st !! key = None) then
     Conn_bind get_keystone_session (λ session,
     let region_name := environ !! "OS_REGION_NAME" in
     Conn_bind (construct (new session region_name)) (λ client,
     Conn_bind (cache key client) (λ _,
     cached key)))
   else cached key) st.

Definition get_nova_client : Conn Client :=
  get_service_client "nova" (nova_Client "2").

Definition get_cinder_client : Conn Client :=
  get_service_client "cinder" (cinder_Client "1").

Definition get_neutron_client : Conn Client :=
  get_service_client "neutron" (neutron_Client "2.0").

End Clients.

(** ** A scripted cloud

    A cloud for running the model on concrete inputs.  It names what it
    creates after the number of requests it has seen, lists what the script
    says exists, reports for every server the status the script gives, and
    raises where the script says so. *)

Record Script := {
  script_fail : ∀ A, list Call → Req A → option Exn;
  script_status : list Call → option string → string;
  script_volume_status : list Call → string → string;
  script_networks : list ApiNetwork;
  script_ports : list ApiPort;
  script_router_ports : list ApiPort;
  script_floatingips : list ApiFloatingIp;
  script_security_groups : list ApiSecgroup;
  script_servers : list ApiServer
}.

Definition fresh (prefix : string) (h : list Call) : string :=
  prefix +:+ pretty (length h).

Definition scripted_reply (sc : Script) {A} (h : list Call) (q : Req A) : A :=
  match q in Req A return A with
  | neutron_list_networks router_external =>
      if router_external then [{| net_id := "ext-net"; net_name := "public" |}]
      else script_networks sc
  | neutron_list_ports device_owner =>
      match device_owner with
      | Some _ => script_router_ports sc
      | None => script_ports sc
      end
  | neutron_list_floatingips => script_floatingips sc
  | neutron_list_security_groups => script_security_groups sc
  | neutron_create_port name network_id _ =>
      {| ap_id := fresh "port-" h;
         ap_fixed_ips := [{| ip_address := fresh "10.0.0." h;
                             subnet_id := "subnet-of-" +:+ network_id |}];
         ap_mac_address := fresh "fa:16:3e:00:00:" h;
         ap_network_id := network_id;
         ap_device_id := "" |}
  | neutron_create_floatingip _ =>
      {| fip_id := fresh "fip-" h; fip_port_id := None;
         fip_floating_ip_address := fresh "172.24.4." h |}
  | neutron_create_network name => {| net_id := fresh "net-" h; net_name := name |}
  | neutron_create_subnet _ _ _ => fresh "subnet-" h
  | neutron_create_security_group name => {| sg_id := fresh "sg-" h; sg_name := name |}
  | neutron_create_security_group_rule _ => fresh "rule-" h
  | nova_flavors_get flavor => {| flavor_ref := flavor |}
  | nova_servers_get uuid =>
      {| srv_id := default "" uuid; srv_name := "";
         srv_status := script_status sc h uuid; srv_addresses := [] |}
  | nova_servers_create name _ _ _ _ _ =>
      {| srv_id := fresh "srv-" h; srv_name := name; srv_status := "BUILD";
         srv_addresses := [] |}
  | nova_servers_list => script_servers sc
  | cinder_volumes_create _ _ =>
      {| vol_id := fresh "vol-" h; vol_status := "creating" |}
  | cinder_volumes_get uuid =>
      {| vol_id := uuid; vol_status := script_volume_status sc h uuid |}
  | neutron_update_floatingip _ _ | neutron_add_interface_router _ _
  | neutron_remove_interface_router _ _ | neutron_delete_port _
  | neutron_delete_network _ | neutron_delete_router _ | neutron_delete_subnet _
  | neutron_delete_security_group _ | neutron_delete_security_group_rule _
  | neutron_delete_floatingip _ | nova_servers_delete _
  | nova_keypairs_create _ _ | nova_keypairs_delete _
  | cinder_volumes_delete _ => tt
  end.

Definition scripted_cloud (sc : Script) : Cloud := λ A h q,
  match script_fail sc A h q with
  | Some e => inl e
  | None => inr (scripted_reply sc h q)
  end.

(** The script of a cloud on which nothing exists and nothing goes wrong:
    volumes are available at the first look, servers report [status]. *)
Definition quiet (status : string) : Script :=
  {| script_fail := λ _ _ _, None;
     script_status := λ _ _, status;
     script_volume_status := λ _ _, "available";
     script_networks := [];
     script_ports := [];
     script_router_ports := [];
     script_floatingips := [];
     script_security_groups := [];
     script_servers := [] |}.

(** A process state to start from: the given runner, nothing asked of the
    cloud, an empty cleanup file, the clock at zero. *)
Definition initial_state (r : Runner.t) : State :=
  {| dr := r; calls := []; cleanup_file := ""; stdout := []; clock := 0;
     spawned := 0 |}.

(** ** The ledger

    The resource types the runner has a [delete_] method for, and the
    teardown as the specification words it, to compare [cleanup] with. *)

Inductive Kind :=
| kind_volume | kind_port | kind_network | kind_router | kind_subnet
| kind_secgroup | kind_secgroup_rule | kind_floatingip | kind_keypair
| kind_server.

Definition kind_name (kind : Kind) : string :=
  match kind with
  | kind_volume => "volume"
  | kind_port => "port"
  | kind_network => "network"
  | kind_router => "router"
  | kind_subnet => "subnet"
  | kind_secgroup => "secgroup"
  | kind_secgroup_rule => "secgroup_rule"
  | kind_floatingip => "floatingip"
  | kind_keypair => "keypair"
  | kind_server => "server"
  end.

(** The delete operation named by a resource kind. *)
Definition delete_operation (cloud : Cloud) (kind : Kind) : string → M unit :=
  match kind with
  | kind_volume => delete_volume cloud
  | kind_port => delete_port cloud
  | kind_network => delete_network cloud
  | kind_router => delete_router cloud
  | kind_subnet => delete_subnet cloud
  | kind_secgroup => delete_secgroup cloud
  | kind_secgroup_rule => delete_secgroup_rule cloud
  | kind_floatingip => delete_floatingip cloud
  | kind_keypair => delete_keypair cloud
  | kind_server => λ uuid, delete_server cloud (Some uuid)
  end.

(** The text of a log to which the entries were appended in order. *)
Definition ledger_text (ledger : list (Kind * string)) : string :=
  foldr (λ entry text, ledger_line (kind_name entry.1) entry.2 +:+ text) "" ledger.

(** One deletion, attempted on its own: a failure is reported, not thrown. *)
Definition attempt_delete (cloud : Cloud) (s : State) (entry : Kind * string) : State :=
  match delete_operation cloud entry.1 entry.2 s with
  | (s', Exc e) => set_stdout (stdout s' ++ [Exn_str e]) s'
  | (s', _) => s'
  end.

(** The teardown of the specification: the ledger is read, its order is
    reversed, and each entry is dispatched to the delete operation of its
    kind, whatever became of the entries before it. *)
Definition teardown_spec (cloud : Cloud) (ledger : list (Kind * string)) (s : State)
    : State :=
  foldl (attempt_delete cloud) s (reverse ledger).

(** * The vocabulary of the statements, and the data of the examples *)

(** ** The [floating_ip] property *)

Definition no_floating_ip (port : Port) : Prop := port_floating_ip port = None.

(** ** Frames: what a computation leaves alone *)

(** [m] does not touch the runner object. *)
Definition keeps_dr {A} (m : M A) : Prop := ∀ s, dr (m s).1 = dr s.

(** A node with three ports, the last two with a floating address. *)
Definition three_ports : list Port :=
  [ {| port_id := "p0"; port_fixed_ip := "10.0.0.2"; port_mac := "m0";
       port_network_name := "private"; port_floating_ip := None |};
    {| port_id := "p1"; port_fixed_ip := "10.0.1.2"; port_mac := "m1";
       port_network_name := "public"; port_floating_ip := Some "172.24.4.3" |};
    {| port_id := "p2"; port_fixed_ip := "10.0.2.2"; port_mac := "m2";
       port_network_name := "other"; port_floating_ip := Some "172.24.4.9" |} ].

Definition node_with_three_ports : Node.t :=
  Node.set_ports three_ports
    (Node_init "web_env1" empty_info (DeploymentRunner (Some "env1") None None 0)
       None None).

Definition runner_with_three_ports : State :=
  initial_state
    (Runner.set_nodes {[ "web" := node_with_three_ports ]}
       (DeploymentRunner (Some "env1") None None 0)).

(** ** Key pairs *)

(** A cloud on which every key pair already exists. *)
Definition keypair_exists : Script :=
  {| script_fail := λ A _ q,
       match q with
       | nova_keypairs_create name _ =>
           Some (NovaConflict ("Key pair '" +:+ name +:+ "' already exists."))
       | _ => None
       end;
     script_status := λ _ _, "ACTIVE";
     script_volume_status := λ _ _, "available";
     script_networks := [];
     script_ports := [];
     script_router_ports := [];
     script_floatingips := [];
     script_security_groups := [];
     script_servers := [] |}.

(** ** Security groups *)

Definition sg_rules : list RuleSpec :=
  [ {| from_port := Some 5432; to_port := Some 5432; rule_protocol := Some "tcp";
       source_group := Some "db"; rule_cidr := None |};
    {| from_port := Some 22; to_port := Some 22; rule_protocol := Some "tcp";
       source_group := Some "bastion"; rule_cidr := None |};
    {| from_port := Some 80; to_port := Some 80; rule_protocol := Some "tcp";
       source_group := None; rule_cidr := Some "0.0.0.0/0" |} ].

Definition sg_rule_sent (port : Z) (source : RuleSource) : SecgroupRule :=
  {| direction := "ingress"; ethertype := "IPv4"; port_range_min := port;
     port_range_max := port; protocol := "tcp"; security_group_id := "sg-0";
     rule_source := source |}.

Definition runner_knowing_db : State :=
  initial_state
    (Runner.set_secgroups {[ "db" := "sg-db" ]}
       (DeploymentRunner (Some "env1") None None 0)).

(** ** Deleting a subnet *)

(** The port has a fixed IP on the subnet. *)
Definition on_subnet (uuid : string) (port : ApiPort) : bool :=
  existsb (λ fixed_ip, String.eqb (subnet_id fixed_ip) uuid) (ap_fixed_ips port).

Definition detach_call (uuid : string) (port : ApiPort) : Call :=
  call_of (neutron_remove_interface_router (ap_device_id port) uuid).

(** A cloud with a router interface on subnet [subnet-1]: deleting the
    subnet conflicts until the interface has been detached. *)
Definition router_port : ApiPort :=
  {| ap_id := "port-r"; ap_mac_address := "fa:16:3e:aa:bb:cc";
     ap_fixed_ips := [ {| ip_address := "10.1.0.1"; subnet_id := "subnet-0" |};
                       {| ip_address := "10.2.0.1"; subnet_id := "subnet-1" |} ];
     ap_network_id := "net-1"; ap_device_id := "router-1" |}.

Definition is_detach (c : Call) : bool :=
  match projT2 c with
  | neutron_remove_interface_router _ _ => true
  | _ => false
  end.

Definition subnet_in_use (router_ports : list ApiPort) : Script :=
  {| script_fail := λ A h q,
       match q with
       | neutron_delete_subnet uuid =>
           if existsb is_detach h then None
           else Some (NeutronConflict "Unable to complete operation on subnet")
       | _ => None
       end;
     script_status := λ _ _, "ACTIVE";
     script_volume_status := λ _ _, "available";
     script_networks := [];
     script_ports := [];
     script_router_ports := router_ports;
     script_floatingips := [];
     script_security_groups := [];
     script_servers := [] |}.

(** ** Reading the cleanup log back *)

(** No colon followed by a space. *)
Fixpoint no_colon_space (l : list ascii) : bool :=
  match l with
  | [] => true
  | c :: l' =>
      match l' with
      | " "%char :: _ => negb (Ascii.eqb c ":"%char) && no_colon_space l'
      | _ => no_colon_space l'
      end
  end.

Definition starts_in_ink (l : list ascii) : bool :=
  match l with
  | [] => false
  | c :: _ => negb (Str.is_whitespace c)
  end.

Definition ends_in_ink (l : list ascii) : bool := starts_in_ink (reverse l).

(** An id the log can carry: not empty, on one line, no white space at its
    end, no colon-space inside. *)
Definition plain_id (uuid : string) : bool :=
  ends_in_ink (Str.chars uuid) &&
  forallb (λ c, negb (Ascii.eqb c Str.newline)) (Str.chars uuid) &&
  no_colon_space (Str.chars uuid).

(** A resource type made of letters and underscores. *)
Definition plain_kind (kind : string) : bool :=
  starts_in_ink (Str.chars kind) &&
  forallb (λ c, negb (Ascii.eqb c Str.newline) && negb (Ascii.eqb c ":"%char))
          (Str.chars kind).

Definition plain_entry (entry : Kind * string) : Prop := plain_id entry.2 = true.

(** The delete operations have no unbounded loop. *)
Definition never_out_of_fuel {A} (m : M A) : Prop := ∀ s, (m s).2 ≠ OutOfFuel.

(** A cloud on which the listed resources are already gone. *)
Definition already_deleted (gone : list string) : Script :=
  {| script_fail := λ A h q,
       match q with
       | neutron_delete_port uuid | neutron_delete_floatingip uuid
       | neutron_delete_network uuid =>
           if bool_decide (uuid ∈ gone) then Some (CloudError (uuid +:+ " could not be found"))
           else None
       | _ => None
       end;
     script_status := λ _ _, "ACTIVE";
     script_volume_status := λ _ _, "available";
     script_networks := [];
     script_ports := [];
     script_router_ports := [];
     script_floatingips := [];
     script_security_groups := [];
     script_servers := [] |}.

Definition small_ledger : list (Kind * string) :=
  [ (kind_keypair, "pubkey_env1"); (kind_network, "net-1"); (kind_port, "port-2");
    (kind_floatingip, "fip-4"); (kind_server, "srv-9") ].

(** ** Reconciliation *)

(** The logical name reconciliation gives a resource called [name], when
    the name carries the suffix. *)
Definition base_name_of (suffix name : string) : option string :=
  if Str.endswith name suffix then Some (strip_suffix suffix name) else None.

(** The name at which a loop of [detect_existing_resources] finds a base
    name already taken, going through [names] with [taken] in the table. *)
Fixpoint first_duplicate (suffix : string) (taken : gset string)
    (names : list string) : option string :=
  match names with
  | [] => None
  | name :: rest =>
      match base_name_of suffix name with
      | Some base =>
          if bool_decide (base ∈ taken) then Some name
          else first_duplicate suffix ({[base]} ∪ taken) rest
      | None => first_duplicate suffix taken rest
      end
  end.

(** The table a loop of [detect_existing_resources] builds from what the
    cloud lists: every resource carrying the suffix, under its base name. *)
Definition reconciled {V} (suffix : string) (table : gmap string V)
    (items : list (string * V)) : gmap string V :=
  foldl (λ table item,
           match base_name_of suffix item.1 with
           | Some base => <[base := item.2]> table
           | None => table
           end) table items.

(** What the cloud lists, whenever it is asked. *)
Record Listing := {
  ls_networks : list ApiNetwork;
  ls_ports : list ApiPort;
  ls_floatingips : list ApiFloatingIp;
  ls_security_groups : list ApiSecgroup;
  ls_servers : list ApiServer
}.

Definition lists (cloud : Cloud) (L : Listing) : Prop :=
  (∀ h, cloud _ h (neutron_list_networks false) = inr (ls_networks L)) ∧
  (∀ h, cloud _ h (neutron_list_ports None) = inr (ls_ports L)) ∧
  (∀ h, cloud _ h neutron_list_floatingips = inr (ls_floatingips L)) ∧
  (∀ h, cloud _ h neutron_list_security_groups = inr (ls_security_groups L)) ∧
  (∀ h, cloud _ h nova_servers_list = inr (ls_servers L)).

(** The listing hangs together: every port has a fixed IP, every floating
    IP that names a port names a listed one, and every address of a server
    starts with the MAC of a listed port. *)
Definition consistent (L : Listing) : Prop :=
  Forall (λ port, ap_fixed_ips port ≠ []) (ls_ports L) ∧
  Forall (λ fip, Str.truthy (fip_port_id fip) = true →
                 default "" (fip_port_id fip) ∈ ap_id <$> ls_ports L)
         (ls_floatingips L) ∧
  Forall (λ server,
            Forall (λ address, ∃ mac, head address = Some mac ∧
                                      mac ∈ ap_mac_address <$> ls_ports L)
                   (srv_addresses server).*2)
         (ls_servers L).

Definition index_step (f : Port → string) (m : gmap string nat) (ip : nat * Port)
    : gmap string nat :=
  <[f ip.2 := ip.1]> m.

(** The address starts with a MAC the table sends to a position of
    [raw_ports]. *)
Definition address_ok (ports_by_mac : gmap string nat) (raw_ports : list Port)
    (address : list string) : Prop :=
  ∃ mac i, head address = Some mac ∧ ports_by_mac !! mac = Some i ∧
           (i < length raw_ports)%nat.

(** How [detect_existing_resources] ends on a consistent listing: at the
    first duplicate, looked for among the networks, then among the security
    groups, then among the servers. *)
Definition detect_outcome (suffix : string) (r : Runner.t) (L : Listing) : Res unit :=
  match first_duplicate suffix (dom (Runner.networks r)) (net_name <$> ls_networks L) with
  | Some name => Exc (DuplicateResourceException "Network" name)
  | None =>
  match first_duplicate suffix (dom (Runner.secgroups r))
          (sg_name <$> ls_security_groups L) with
  | Some name => Exc (DuplicateResourceException "Security Group" name)
  | None =>
  match first_duplicate suffix (dom (Runner.nodes r)) (srv_name <$> ls_servers L) with
  | Some name => Exc (DuplicateResourceException "Node" name)
  | None => Val ()
  end end end.

(** Two entries of a listing reduce to one base name. *)
Definition collide (suffix : string) (names : list string) : Prop :=
  ∃ i j a b base,
    i ≠ j ∧ names !! i = Some a ∧ names !! j = Some b ∧
    base_name_of suffix a = Some base ∧ base_name_of suffix b = Some base.

Definition server_on (id name mac : string) : ApiServer :=
  {| srv_id := id; srv_name := name; srv_status := "ACTIVE";
     srv_addresses := [("private", [mac])] |}.

Definition port_on (id mac ip : string) : ApiPort :=
  {| ap_id := id; ap_fixed_ips := [ {| ip_address := ip; subnet_id := "subnet-1" |} ];
     ap_mac_address := mac; ap_network_id := "net-1"; ap_device_id := "" |}.

(** A cloud that already holds a network, two ports, a floating IP, a
    security group and the given servers. *)
Definition existing (servers : list ApiServer) : Listing :=
  {| ls_networks := [ {| net_id := "net-1"; net_name := "private_env1" |} ];
     ls_ports := [ port_on "port-1" "fa:16:3e:00:00:01" "10.0.0.3";
                   port_on "port-2" "fa:16:3e:00:00:02" "10.0.0.4" ];
     ls_floatingips := [ {| fip_id := "fip-1"; fip_port_id := Some "port-2";
                            fip_floating_ip_address := "172.24.4.7" |} ];
     ls_security_groups := [ {| sg_id := "sg-1"; sg_name := "web_env1" |} ];
     ls_servers := servers |}.

Definition listing_script (L : Listing) : Script :=
  {| script_fail := λ _ _ _, None;
     script_status := λ _ _, "ACTIVE";
     script_volume_status := λ _ _, "available";
     script_networks := ls_networks L;
     script_ports := ls_ports L;
     script_router_ports := [];
     script_floatingips := ls_floatingips L;
     script_security_groups := ls_security_groups L;
     script_servers := ls_servers L |}.

Definition web_and_web2 : Listing :=
  existing [ server_on "srv-1" "web_env1" "fa:16:3e:00:00:01";
             server_on "srv-2" "web2_env1" "fa:16:3e:00:00:02" ].

Definition web_twice : Listing :=
  existing [ server_on "srv-1" "web_env1" "fa:16:3e:00:00:01";
             server_on "srv-2" "web_env1" "fa:16:3e:00:00:02" ].

Definition env1_start : State :=
  initial_state (DeploymentRunner (Some "env1") None None 0).

(** ** Shell steps: which outcomes are retried *)

(** Durations written as a plain number of seconds. *)
Definition parse_seconds (s : string) : Z :=
  match DecimalString.NilZero.uint_of_string s with
  | Some u => Z.of_uint u
  | None => 0
  end.

Definition hangs : Proc := {| exits_after := None; returncode := 0; unsent := "" |}.

(** A step that allows ten seconds per attempt and a hundred in all, and
    asks for a retry one second after a failure. *)
Definition patient_step (retry_if_fails : bool) : ShellDetails :=
  {| sd_cmd := Some "make install"; sd_type := None; sd_node := None;
     sd_total_timeout := Some "100"; sd_timeout := Some "10";
     sd_retry_delay := Some "1"; sd_retry_if_fails := retry_if_fails;
     sd_environment := None |}.

(** ** What a build records *)

(** A stack of one node on two networks, the first with a floating IP. *)
Definition web_info : NodeInfo :=
  {| info_image := Some "trusty"; info_flavor := Some "m1.small";
     info_disk := Some 10;
     info_networks :=
       Some [ {| att_network := "private"; att_securitygroups := None;
                 att_assign_floating_ip := true |};
              {| att_network := "management"; att_securitygroups := None;
                 att_assign_floating_ip := false |} ];
     info_number := None; info_export := false |}.

Definition web_stack : Stack :=
  {| stack_networks := Some []; stack_securitygroups := Some [];
     stack_nodes := Some [("web", web_info)] |}.

Definition deploy_web (retry_count : Z) : DeployArgs :=
  {| args_steps := [provision {| pd_stack := web_stack; pd_userdata := None |}];
     args_suffix := Some "env1"; args_mappings := Some no_mappings;
     args_key := Some "ssh-rsa AAAA"; args_retry_count := retry_count;
     args_cont := false; args_cleanup := true |}.

Definition is_volume_delete (c : Call) : bool :=
  match projT2 c with
  | cinder_volumes_delete _ => true
  | _ => false
  end.

(** ** A logic of computations that return *)

(** From a state in [P], [m] returns, with a value and a state in [Q]. *)
Definition returns {A} (P : State → Prop) (m : M A) (Q : A → State → Prop) : Prop :=
  ∀ s, P s → ∃ s' a, m s = (s', Val a) ∧ Q a s'.

(** ** The retry budget *)

(** What a request means for the node called [name]: its server is
    created, by [build]; a server is deleted, by [clean]. *)
Inductive Event := ev_build | ev_clean.

Definition event_of (name : string) (c : Call) : option Event :=
  match projT2 c with
  | nova_servers_create name' _ _ _ _ _ =>
      if String.eqb name' name then Some ev_build else None
  | nova_servers_delete _ => Some ev_clean
  | _ => None
  end.

Definition events (name : string) (h : list Call) : list Event :=
  omap (event_of name) h.

(** The cloud answers every request, gives every port it creates a fixed
    IP, and has an external network for the floating IPs. *)
Record reliable (cloud : Cloud) : Prop := {
  never_raises : ∀ A h (q : Req A), ∃ a, cloud A h q = inr a;
  ports_have_fixed_ip : ∀ h name network_id secgroups port,
    cloud _ h (neutron_create_port name network_id secgroups) = inr port →
    ap_fixed_ips port ≠ [];
  has_floating_network : ∀ h networks,
    cloud _ h (neutron_list_networks true) = inr networks → networks ≠ []
}.

(** Every volume is available after at most [fuel] looks at it. *)
Definition volumes_settle (cloud : Cloud) (fuel : nat) : Prop :=
  ∀ volume s, (wait_volume cloud fuel volume s).2 ≠ OutOfFuel.

(** Whenever a server is polled, it is in error. *)
Definition always_in_error (cloud : Cloud) : Prop :=
  ∀ h uuid server,
    cloud _ h (nova_servers_get uuid) = inr server → srv_status server = "ERROR".

(** The node can be built: its template has a flavor, networks, a disk
    size and an image, and the security groups of its attachments are in
    the table. *)
Definition buildable (secgroups : gmap string string) (info : NodeInfo) : Prop :=
  is_Some (info_flavor info) ∧ is_Some (info_disk info) ∧
  is_Some (info_image info) ∧
  ∃ networks, info_networks info = Some networks ∧
    Forall (λ network, Forall (λ secgroup, is_Some (secgroups !! secgroup))
                              (default [] (att_securitygroups network)))
           networks.

(** The node under watch, as the loop of [provision_step] must find it:
    it keeps its name and its template, has [k] attempts left and has not
    been seen active. *)
Definition tracked (name : string) (info : NodeInfo) (k : Z) (n : Node.t) : Prop :=
  Node.name n = name ∧ Node.info n = info ∧ Node.attempts_left n = k ∧
  Node.server_status n ≠ Some "ACTIVE".

(** The node sits at [key] in [runner.nodes] with [k] attempts left, [rest]
    is the runner without its nodes, and [e] is what has happened to the
    node so far. *)
Definition Inv (key name : string) (info : NodeInfo) (rest : Runner.t)
    (k : Z) (e : list Event) (s : State) : Prop :=
  Runner.set_nodes ∅ (dr s) = rest ∧
  (∃ n, Runner.nodes (dr s) !! key = Some n ∧ tracked name info k n) ∧
  events name (calls s) = e.

(** The rebuilds of a node with [j] attempts left. *)
Definition rebuilds (j : nat) : list Event :=
  concat (replicate j [ev_clean; ev_build]).

Global Instance Event_eq_dec : EqDecision Event.
Proof. solve_decision. Defined.

(** How many times the server called [name] was asked of the cloud: once
    per [build()] of its node. *)
Definition builds (name : string) (h : list Call) : nat :=
  length (filter (λ ev, ev = ev_build) (events name h)).

(** ** Clouds, for the statements about whole runs *)

(** The cloud answers every request. *)
Definition obliging (cloud : Cloud) : Prop :=
  ∀ A h (q : Req A), ∃ a, cloud A h q = inr a.

(** Whenever the cloud is asked about a volume, the volume is not
    available: it is still being created, or it has ended in error. *)
Definition volume_never_available (cloud : Cloud) : Prop :=
  ∀ h uuid, ∃ volume,
    cloud _ h (cinder_volumes_get uuid) = inr volume ∧
    vol_status volume ≠ "available".

(** A volume that ends in error. *)
Definition volumes_fail : Script :=
  {| script_fail := λ _ _ _, None;
     script_status := λ _ _, "BUILD";
     script_volume_status := λ _ _, "error";
     script_networks := [];
     script_ports := [];
     script_router_ports := [];
     script_floatingips := [];
     script_security_groups := [];
     script_servers := [] |}.

(** ** Shell steps: the command line *)

(** The value of an [environment] entry can be resolved: it is literal, or
    it names a variable the process has. *)
Definition resolvable (environ : gmap string string) (entry : string * string) : Prop :=
  match entry.2 with
  | String "$"%char name => is_Some (environ !! name)
  | _ => True
  end.

Definition remote_step (node : string) : ShellDetails :=
  {| sd_cmd := Some "uptime"; sd_type := Some "remote"; sd_node := Some node;
     sd_total_timeout := None; sd_timeout := None; sd_retry_delay := None;
     sd_retry_if_fails := false; sd_environment := None |}.

Definition step_with_environment (environment : list (string * string)) : ShellDetails :=
  {| sd_cmd := Some "make install"; sd_type := None; sd_node := None;
     sd_total_timeout := None; sd_timeout := None; sd_retry_delay := None;
     sd_retry_if_fails := false; sd_environment := Some environment |}.

(** A command that cannot be started: every process exits at once, with a
    status that is not zero. *)
Definition fails_at_once (proc : nat → string → Proc) : Prop :=
  ∀ n shell_cmd,
    exits_after (proc n shell_cmd) = Some 0%nat ∧ returncode (proc n shell_cmd) ≠ 0.

Definition refused : Proc :=
  {| exits_after := Some 0%nat; returncode := 255; unsent := "" |}.

(** ** Reading the cleanup log back: lines that stop the teardown *)

Definition all_kinds : list Kind :=
  [ kind_volume; kind_port; kind_network; kind_router; kind_subnet; kind_secgroup;
    kind_secgroup_rule; kind_floatingip; kind_keypair; kind_server ].

(** The exception [cleanup] raises at a line of the log, if it raises one:
    the line does not split in two at colon-space, or the runner has no
    [delete_] method for its resource type. *)
Definition line_failure (line : string) : option Exn :=
  match Str.split_colon_space (Str.strip line) with
  | [resource_type; _] =>
      if bool_decide (resource_type ∈ kind_name <$> all_kinds) then None
      else Some (AttributeError ("delete_" +:+ resource_type))
  | [] | [_] => Some (ValueError "need more than 1 value to unpack")
  | _ => Some (ValueError "too many values to unpack")
  end.

Definition one_line (line : string) : bool :=
  forallb (λ c, negb (Ascii.eqb c Str.newline)) (Str.chars line).

(** ** Polling the pending nodes *)

(** Whenever a server is polled, it is neither active nor in error. *)
Definition servers_stay_building (cloud : Cloud) : Prop :=
  ∀ h uuid, ∃ server,
    cloud _ h (nova_servers_get uuid) = inr server ∧
    srv_status server ≠ "ACTIVE" ∧ srv_status server ≠ "ERROR".

(** Whenever a server is polled, it is active. *)
Definition servers_active (cloud : Cloud) : Prop :=
  ∀ h uuid, ∃ server,
    cloud _ h (nova_servers_get uuid) = inr server ∧ srv_status server = "ACTIVE".

(** Every pending name is the key of a node that has not been seen
    active. *)
Definition pending_in (pending : gset string) (s : State) : Prop :=
  ∀ name, name ∈ pending →
    ∃ n, Runner.nodes (dr s) !! name = Some n ∧
         Node.server_status n ≠ Some "ACTIVE".

(** The node [clean] leaves behind. *)
Definition cleaned (n : Node.t) : Node.t :=
  Node.set_server_id None (Node.set_ports [] (Node.set_fip_ids ∅ n)).

(** The requests of one [clean] of the node. *)
Definition clean_requests (n : Node.t) : list Call :=
  ((λ uuid, call_of (neutron_delete_floatingip uuid)) <$> elements (Node.fip_ids n)) ++
  ((λ port, call_of (neutron_delete_port (port_id port))) <$> Node.ports n) ++
  [call_of (nova_servers_delete (Node.server_id n))].

Definition two_nodes : State :=
  initial_state
    (Runner.set_nodes
       {[ "web" := Node_init "web_env1" web_info
                     (DeploymentRunner (Some "env1") None None 0) None None;
          "db" := Node_init "db_env1" web_info
                    (DeploymentRunner (Some "env1") None None 0) None None ]}
       (DeploymentRunner (Some "env1") None None 0)).

(** ** What a run writes to the cleanup file *)

Global Instance Kind_eq_dec : EqDecision Kind.
Proof. solve_decision. Defined.

(** The resource types [deploy] records. *)
Definition recorded_kinds : list Kind :=
  [ kind_keypair; kind_network; kind_subnet; kind_secgroup; kind_secgroup_rule;
    kind_port; kind_floatingip; kind_server ].

(** Every node of the runner holds the [record_resource] that [Node.__init__]
    gave it. *)
Definition nodes_silent (s : State) : Prop :=
  ∀ key n, Runner.nodes (dr s) !! key = Some n → Node.record_resource n = sink_noop.

(** From [s] to [s'] the [record_resource] attributes are as they were, and
    the cleanup file has grown by lines of the recorded kinds: by none at
    all when the runner records nothing. *)
Definition ledger_grows (s s' : State) : Prop :=
  Runner.record_resource (dr s') = Runner.record_resource (dr s) ∧
  nodes_silent s' ∧
  ∃ entries,
    Forall (λ entry, entry.1 ∈ recorded_kinds) entries ∧
    cleanup_file s' = cleanup_file s +:+ ledger_text entries ∧
    (Runner.record_resource (dr s) = sink_noop → entries = []).

Definition keeps_ledger {A} (m : M A) : Prop :=
  ∀ s, nodes_silent s → ledger_grows s (m s).1.

(** A runner that records to the cleanup file and has a key. *)
Definition recording_start : State :=
  initial_state
    (Runner.set_record_resource sink_cleanup_file
       (DeploymentRunner (Some "env1") None (Some "ssh-rsa AAAA") 0)).

(** ** Provisioning what is there already *)

(** The request [provision_step] starts with, when the runner has a key. *)
Definition keypair_request (r : Runner.t) : list Call :=
  if Str.truthy (Runner.key r)
  then [call_of (nova_keypairs_create (add_suffix r "pubkey") (default "" (Runner.key r)))]
  else [].

(** The node of the stack, or each of its replicas, is in the table. *)
Definition node_known (nodes : gmap string Node.t) (entry : string * NodeInfo) : Prop :=
  match info_number entry.2 with
  | Some count =>
      ∀ idx, idx ∈ seqZ 1 count → is_Some (nodes !! (entry.1 +:+ pretty idx))
  | None => is_Some (nodes !! entry.1)
  end.

(** Everything the stack describes is in the tables of the runner. *)
Definition provisioned (r : Runner.t) (stack : Stack) : Prop :=
  ∃ networks securitygroups nodes,
    stack_networks stack = Some networks ∧
    stack_securitygroups stack = Some securitygroups ∧
    stack_nodes stack = Some nodes ∧
    Forall (λ entry, is_Some (Runner.networks r !! entry.1)) networks ∧
    Forall (λ entry, is_Some (Runner.secgroups r !! entry.1)) securitygroups ∧
    Forall (node_known (Runner.nodes r)) nodes.

(** A stack of a network, a security group, a node and two replicas, and a
    runner that has them all. *)
Definition full_stack : Stack :=
  {| stack_networks := Some [("private", {| net_cidr := Some "10.0.0.0/24" |})];
     stack_securitygroups := Some [("web", None)];
     stack_nodes :=
       Some [ ("web", web_info);
              ("db", {| info_image := Some "trusty"; info_flavor := Some "m1.small";
                        info_disk := Some 10; info_networks := Some [];
                        info_number := Some 2; info_export := false |}) ] |}.

Definition adopted : Node.t :=
  Node_init "adopted" empty_info (DeploymentRunner (Some "env1") None None 0) None None.

Definition full_runner : State :=
  initial_state
    {| Runner.suffix := Some "env1"; Runner.mappings := no_mappings;
       Runner.key := None; Runner.retry_count := 0;
       Runner.record_resource := sink_cleanup_file;
       Runner.networks := {[ "private" := "net-1" ]};
       Runner.secgroups := {[ "web" := "sg-1" ]};
       Runner.nodes := {[ "web" := adopted; "db1" := adopted; "db2" := adopted ]} |}.

(** ** Reconciliation: a port without an address *)

(** A listing with a port that has no fixed IP; the port is on a network
    that does not carry the suffix of the run. *)
Definition with_bare_port : Listing :=
  {| ls_networks := [ {| net_id := "net-1"; net_name := "private_env1" |} ];
     ls_ports := [ port_on "port-1" "fa:16:3e:00:00:01" "10.0.0.3";
                   {| ap_id := "port-9"; ap_fixed_ips := [];
                      ap_mac_address := "fa:16:3e:00:00:09";
                      ap_network_id := "net-of-someone-else"; ap_device_id := "" |} ];
     ls_floatingips := [];
     ls_security_groups := [];
     ls_servers := [] |}.

(** ** What a build records, on any cloud that answers *)

(** The resource a request creates, for the four kinds of resource a node
    is made of. *)
Definition creation (c : Call) : option Kind :=
  match projT2 c with
  | neutron_create_port _ _ _ => Some kind_port
  | neutron_create_floatingip _ => Some kind_floatingip
  | cinder_volumes_create _ _ => Some kind_volume
  | nova_servers_create _ _ _ _ _ _ => Some kind_server
  | _ => None
  end.

Definition creations (h : list Call) : list Kind := omap creation h.

(** What the attachments of a node call for: a port each, and a floating
    IP after the port of each attachment that asks for one. *)
Definition nic_kinds (networks : list Attachment) : list Kind :=
  networks ≫= λ network,
    kind_port :: (if att_assign_floating_ip network then [kind_floatingip] else []).

(** The node being built keeps its name, its template and its own
    [record_resource]. *)
Definition kept (name : string) (info : NodeInfo) (n : Node.t) : Prop :=
  Node.name n = name ∧ Node.info n = info ∧ Node.record_resource n = sink_noop.

(** The node sits at [key]; [rest] is the runner without its nodes;
    since the cleanup file read [base], lines of the kinds [recorded] have
    been appended to it; the requests so far have created resources of the
    kinds [created]. *)
Definition Recorded (key name : string) (info : NodeInfo) (rest : Runner.t)
    (base : string) (recorded created : list Kind) (s : State) : Prop :=
  Runner.set_nodes ∅ (dr s) = rest ∧
  (∃ n, Runner.nodes (dr s) !! key = Some n ∧ kept name info n) ∧
  (∃ entries, entries.*1 = recorded ∧
              cleanup_file s = base +:+ ledger_text entries) ∧
  creations (calls s) = created.

(** ** The weak references of a stack *)

(** A node of the stack names the network in one of its attachments. *)
Definition names_network (nodes : list (string * NodeInfo)) (network : string) : Prop :=
  ∃ node attachments attachment,
    node ∈ nodes.*2 ∧ info_networks node = Some attachments ∧
    attachment ∈ attachments ∧ att_network attachment = network.

(** The node has the three keys [find_weak_refs] reads. *)
Definition complete (node : NodeInfo) : Prop :=
  is_Some (info_image node) ∧ is_Some (info_flavor node) ∧
  is_Some (info_networks node).

(** A stack of one node on two networks, one of which it defines; it has
    no [securitygroups] section. *)
Definition half_defined : Stack :=
  {| stack_networks := Some [("private", {| net_cidr := Some "10.0.0.0/24" |})];
     stack_securitygroups := None;
     stack_nodes := Some [("web", web_info)] |}.

(** ** The clients: the getters and how a call of one can go *)

(** The five getters of the runner. *)
Inductive Getter :=
| the_keystone_session | the_keystone_client
| the_nova_client | the_cinder_client | the_neutron_client.

Definition getter (environ : gmap string string) (raises : Client → option Exn)
    (g : Getter) : Conn Client :=
  match g with
  | the_keystone_session => get_keystone_session environ raises
  | the_keystone_client => get_keystone_client environ raises
  | the_nova_client => get_nova_client environ raises
  | the_cinder_client => get_cinder_client environ raises
  | the_neutron_client => get_neutron_client environ raises
  end.

Global Instance Getter_eq_dec : EqDecision Getter.
Proof. solve_decision. Defined.

(** The key under which a getter keeps its client. *)
Definition cache_key (g : Getter) : string :=
  match g with
  | the_keystone_session => "keystone_session"
  | the_keystone_client => "keystone"
  | the_nova_client => "nova"
  | the_cinder_client => "cinder"
  | the_neutron_client => "neutron"
  end.

(** A sequence of calls of getters, each of which may raise; what a call
    raises is caught by no one here, the sequence just goes on. *)
Definition call_getters (environ : gmap string string) (raises : Client → option Exn)
    (gs : list Getter) (st : Conns) : Conns :=
  foldl (λ st g, (getter environ raises g st).1) st gs.

(** The session a client was constructed on. *)
Definition session_of (client : Client) : option Client :=
  match client with
  | keystone_Client session | nova_Client _ session _
  | cinder_Client _ session _ | neutron_Client _ session _ => Some session
  | keystone_Password _ | keystone_Session _ => None
  end.

Definition is_session (client : Client) : bool :=
  match client with keystone_Session _ => true | _ => false end.

Definition openrc : gmap string string :=
  {[ "OS_USERNAME" := "admin"; "OS_PASSWORD" := "secret";
     "OS_AUTH_URL" := "http://keystone:5000/v2.0"; "OS_TENANT_NAME" := "demo" ]}.

Section ClientOutcomes.
Context (environ : gmap string string) (raises : Client → option Exn).

(** The ways a call of [get_keystone_session] can go. *)
Inductive SessionOutcome (st : Conns) : Conns * (Exn + Client) → Prop :=
| session_cached session :
    conncache st !! "keystone_session" = Some session →
    SessionOutcome st (st, inr session)
| session_no_creds e :
    conncache st !! "keystone_session" = None →
    get_creds_from_env environ = inl e →
    SessionOutcome st (st, inl e)
| session_no_auth creds e :
    conncache st !! "keystone_session" = None →
    get_creds_from_env environ = inr creds →
    raises (keystone_Password creds) = Some e →
    SessionOutcome st (st, inl e)
| session_no_session creds e :
    conncache st !! "keystone_session" = None →
    get_creds_from_env environ = inr creds →
    raises (keystone_Password creds) = None →
    raises (keystone_Session (keystone_Password creds)) = Some e →
    SessionOutcome st
      ({| conncache := <["keystone_auth" := keystone_Password creds]> (conncache st);
          constructed := constructed st ++ [keystone_Password creds] |}, inl e)
| session_built creds :
    conncache st !! "keystone_session" = None →
    get_creds_from_env environ = inr creds →
    raises (keystone_Password creds) = None →
    raises (keystone_Session (keystone_Password creds)) = None →
    SessionOutcome st
      ({| conncache :=
            <["keystone_session" := keystone_Session (keystone_Password creds)]>
              (<["keystone_auth" := keystone_Password creds]> (conncache st));
          constructed := constructed st ++ [keystone_Password creds;
                                            keystone_Session (keystone_Password creds)] |},
       inr (keystone_Session (keystone_Password creds))).

(** The ways a call of a getter of a client can go, [new] being the
    constructor of the client on a session. *)
Inductive ClientOutcome (key : string) (new : Client → Client) (st : Conns)
    : Conns * (Exn + Client) → Prop :=
| client_cached client :
    conncache st !! key = Some client → ClientOutcome key new st (st, inr client)
| client_no_session st1 e :
    conncache st !! key = None →
    SessionOutcome st (st1, inl e) →
    ClientOutcome key new st (st1, inl e)
| client_raises st1 session e :
    conncache st !! key = None →
    SessionOutcome st (st1, inr session) →
    raises (new session) = Some e →
    ClientOutcome key new st (st1, inl e)
| client_built st1 session :
    conncache st !! key = None →
    SessionOutcome st (st1, inr session) →
    raises (new session) = None →
    ClientOutcome key new st
      ({| conncache := <[key := new session]> (conncache st1);
          constructed := constructed st1 ++ [new session] |}, inr (new session)).

(** The constructor behind each getter of a client. *)
Definition constructor_of (g : Getter) : Client → Client :=
  match g with
  | the_keystone_session => λ session, session
  | the_keystone_client => keystone_Client
  | the_nova_client => λ session, nova_Client "2" session (environ !! "OS_REGION_NAME")
  | the_cinder_client => λ session, cinder_Client "1" session (environ !! "OS_REGION_NAME")
  | the_neutron_client =>
      λ session, neutron_Client "2.0" session (environ !! "OS_REGION_NAME")
  end.

End ClientOutcomes.

(** The one session of a runner: the only session ever constructed is the
    one in the cache, and every client in the cache was constructed on it. *)
Definition one_session (st : Conns) : Prop :=
  filter is_session (constructed st) = option_list (conncache st !! "keystone_session") ∧
  ∀ key client session,
    conncache st !! key = Some client → session_of client = Some session →
    conncache st !! "keystone_session" = Some session.

(** The variables [get_creds_from_env] reads, in the order it reads them. *)
Definition credentials : list string :=
  ["OS_USERNAME"; "OS_PASSWORD"; "OS_AUTH_URL"; "OS_TENANT_NAME"].

(** ** Creating a network *)

(** What the runner [r] writes to the cleanup file for the entries. *)
Definition written (r : Runner.t) (entries : list (Kind * string)) : string :=
  match Runner.record_resource r with
  | sink_cleanup_file => ledger_text entries
  | sink_noop => ""
  end.

(** The request that attaches a subnet to the router every network goes
    to, when the mappings name one. *)
Definition router_attachment (r : Runner.t) (subnet : string) : list Call :=
  match map_routers (Runner.mappings r) !! "*" with
  | Some router => [call_of (neutron_add_interface_router router subnet)]
  | None => []
  end.

(** A runner that records, with a router for every network. *)
Definition routed_start : State :=
  initial_state
    (Runner.set_record_resource sink_cleanup_file
       (DeploymentRunner (Some "env1")
          (Some {| map_flavors := ∅; map_networks := ∅; map_images := ∅;
                   map_routers := {[ "*" := "router-1" ]} |})
          None 0)).

(** * Properties *)

(** ** Running computations *)

Lemma bind_run {A B} (m : M A) (f : A → M B) (s : State) :
  (m ≫= f) s =
  match m s with
  | (s', Val a) => f a s'
  | (s', Exc e) => (s', Exc e)
  | (s', OutOfFuel) => (s', OutOfFuel)
  end.
Proof. reflexivity. Qed.

Lemma ret_run {A} (a : A) (s : State) : (mret a : M A) s = (s, Val a).
Proof. reflexivity. Qed.

Lemma gets_run {A} (f : State → A) (s : State) : gets f s = (s, Val (f s)).
Proof. reflexivity. Qed.

Lemma modify_run (f : State → State) (s : State) : modify f s = (f s, Val ()).
Proof. reflexivity. Qed.

Lemma for_each_cons {A} (x : A) (l : list A) (body : A → M unit) :
  for_each (x :: l) body = (body x ;; for_each l body).
Proof. reflexivity. Qed.

Lemma for_fold_cons {A B} (x : A) (l : list A) (acc : B) (body : A → B → M B) :
  for_fold (x :: l) acc body = (acc' ← body x acc; for_fold l acc' body).
Proof. reflexivity. Qed.

#[global] Arguments mbind : simpl never.
#[global] Arguments mret : simpl never.
#[global] Arguments M_bind : simpl never.
#[global] Arguments M_ret : simpl never.

Lemma request_run (cloud : Cloud) {A} (q : Req A) (s : State) :
  request cloud q s =
  (set_calls (calls s ++ [call_of q]) s,
   match cloud A (calls s) q with inl e => Exc e | inr a => Val a end).
Proof. unfold request. destruct (cloud A (calls s) q); reflexivity. Qed.

(** A request changes nothing but the history. *)
Lemma request_state (cloud : Cloud) {A} (q : Req A) (s : State) :
  (request cloud q s).1 = set_calls (calls s ++ [call_of q]) s.
Proof. rewrite request_run. reflexivity. Qed.

(** ** The [floating_ip] property *)

Lemma first_floating_ip_Some (ports : list Port) (address : string) :
  first_floating_ip ports = Some address ↔
  ∃ before port after,
    ports = before ++ port :: after ∧ Forall no_floating_ip before ∧
    port_floating_ip port = Some address.
Proof.
  induction ports as [|p ports IH]; simpl.
  - split; [discriminate|]. intros (before & port & after & H & _).
    destruct before; discriminate.
  - destruct (port_floating_ip p) as [a|] eqn:Hp.
    + split.
      * intros [= ->]. exists [], p, ports. repeat split; [constructor | exact Hp].
      * intros ([|q before] & port & after & H & Hb & Hport);
          injection H as -> ->.
        -- rewrite <- Hp. exact Hport.
        -- apply Forall_cons in Hb as [Hq _]. unfold no_floating_ip in Hq. congruence.
    + rewrite IH. split.
      * intros (before & port & after & -> & Hb & Hport).
        exists (p :: before), port, after. repeat split; [|exact Hport].
        constructor; [exact Hp | exact Hb].
      * intros ([|q before] & port & after & H & Hb & Hport);
          injection H as -> ->.
        -- congruence.
        -- apply Forall_cons in Hb as [_ Hb]. eauto 6.
Qed.

Lemma first_floating_ip_None (ports : list Port) :
  first_floating_ip ports = None ↔ Forall no_floating_ip ports.
Proof.
  induction ports as [|p ports IH]; simpl.
  - split; [constructor | reflexivity].
  - rewrite Forall_cons. unfold no_floating_ip at 1.
    destruct (port_floating_ip p); [split; [discriminate | intros [? _]; discriminate]|].
    rewrite IH. tauto.
Qed.

(** ** Frames: what a computation leaves alone *)

Lemma bind_inv_val {A B} (m : M A) (f : A → M B) (s s' : State) (b : B) :
  (m ≫= f) s = (s', Val b) →
  ∃ s1 a, m s = (s1, Val a) ∧ f a s1 = (s', Val b).
Proof.
  rewrite bind_run. destruct (m s) as [s1 [a| |]]; [eauto | discriminate..].
Qed.

Lemma get_node_inv (key : string) (s s' : State) (n : Node.t) :
  get_node key s = (s', Val n) → s' = s ∧ Runner.nodes (dr s) !! key = Some n.
Proof.
  unfold get_node, subscript, gets. rewrite bind_run.
  destruct (Runner.nodes (dr s) !! key); [|discriminate].
  intros [= -> ->]. done.
Qed.

Lemma get_node_run (key : string) (s : State) :
  get_node key s =
  (s, match Runner.nodes (dr s) !! key with
      | Some n => Val n
      | None => Exc (KeyError key)
      end).
Proof.
  unfold get_node, subscript, gets. rewrite bind_run.
  destruct (Runner.nodes (dr s) !! key); reflexivity.
Qed.

Lemma keeps_dr_request (cloud : Cloud) {A} (q : Req A) : keeps_dr (request cloud q).
Proof. intros s. rewrite request_state. reflexivity. Qed.

(** [clean], when it returns, leaves the node without ports. *)
Lemma Node_clean_ports (cloud : Cloud) (key : string) (s s' : State) :
  Node_clean cloud key s = (s', Val ()) →
  Node.ports <$> Runner.nodes (dr s') !! key = Some [].
Proof.
  unfold Node_clean. intros H.
  apply bind_inv_val in H as (s1 & n & Hn & H).
  apply bind_inv_val in H as (s2 & [] & _ & H).
  apply bind_inv_val in H as (s3 & [] & _ & H).
  apply bind_inv_val in H as (s4 & n4 & _ & H).
  apply bind_inv_val in H as (s5 & [] & _ & H).
  apply bind_inv_val in H as (s6 & [] & Hports & H).
  apply bind_inv_val in H as (s7 & n7 & Hn7 & H).
  apply bind_inv_val in H as (s8 & [] & Hdel & H).
  apply get_node_inv in Hn7 as [-> Hn7].
  injection Hports as <-. injection H as <-.
  assert (Hdr : dr s8 = dr (set_dr (Runner.set_nodes
            (alter (Node.set_ports []) key (Runner.nodes (dr s5))) (dr s5)) s5)).
  { pose proof (keeps_dr_request cloud (nova_servers_delete (Node.server_id n7))
                  (set_dr (Runner.set_nodes
                     (alter (Node.set_ports []) key (Runner.nodes (dr s5))) (dr s5)) s5)) as Hk.
    unfold delete_server in Hdel. rewrite Hdel in Hk. exact Hk. }
  simpl. rewrite Hdr. simpl.
  simpl in Hn7. rewrite lookup_alter_eq in Hn7 |- *.
  rewrite lookup_alter_eq.
  destruct (Runner.nodes (dr s5) !! key); [reflexivity | discriminate].
Qed.

(** C8.  The [floating_ip] property of a node returns the floating address
    of the first port of [ports] that carries one: every port before it
    carries none.  It returns [None] exactly when no port carries one; in
    particular on the empty list, which is what a new node has and what
    [clean()] leaves when it returns. *)
Theorem Node_floating_ip_first_port :
  (∀ (self : Node.t) (address : string),
     Node_floating_ip self = Some address ↔
     ∃ before port after,
       Node.ports self = before ++ port :: after ∧
       Forall no_floating_ip before ∧ port_floating_ip port = Some address) ∧
  (∀ self : Node.t,
     Node_floating_ip self = None ↔ Forall no_floating_ip (Node.ports self)) ∧
  (∀ name info runner keypair userdata,
     Node_floating_ip (Node_init name info runner keypair userdata) = None) ∧
  (∀ (cloud : Cloud) (key : string) (s s' : State),
     Node_clean cloud key s = (s', Val ()) →
     Node_floating_ip <$> Runner.nodes (dr s') !! key = Some None).
Proof.
  split; [|split; [|split]].
  - intros self address. apply first_floating_ip_Some.
  - intros self. apply first_floating_ip_None.
  - reflexivity.
  - intros cloud key s s' H. apply Node_clean_ports in H.
    unfold Node_floating_ip.
    destruct (Runner.nodes (dr s') !! key) as [n|]; [|discriminate].
    simpl in *. injection H as ->. reflexivity.
Qed.

Lemma Node_floating_ip_first_port_witness :
  Node_floating_ip node_with_three_ports = Some "172.24.4.3" ∧
  Node_floating_ip <$>
    Runner.nodes
      (dr (Node_clean (scripted_cloud (quiet "ERROR")) "web"
             runner_with_three_ports).1) !! "web"
  = Some None.
Proof.
  split.
  - apply (proj1 Node_floating_ip_first_port node_with_three_ports "172.24.4.3").
    exists (take 1 three_ports),
      {| port_id := "p1"; port_fixed_ip := "10.0.1.2"; port_mac := "m1";
         port_network_name := "public"; port_floating_ip := Some "172.24.4.3" |},
      (drop 2 three_ports).
    split; [reflexivity|]. split; [|reflexivity].
    repeat constructor.
  - apply (proj2 (proj2 (proj2 Node_floating_ip_first_port))
             (scripted_cloud (quiet "ERROR")) "web" runner_with_three_ports).
    vm_compute. reflexivity.
Defined.

(** ** Key pairs *)

(** C9.  When the cloud answers the creation of a key pair with a conflict,
    [create_keypair] returns normally; and whatever the cloud answers,
    [create_keypair] leaves the cleanup file as it was. *)
Theorem create_keypair_conflict_swallowed
    (cloud : Cloud) (name keydata : string) (s : State) :
  (∀ msg,
     cloud unit (calls s) (nova_keypairs_create name keydata) = inl (NovaConflict msg) →
     create_keypair cloud name keydata s =
     (set_calls (calls s ++ [call_of (nova_keypairs_create name keydata)]) s, Val ())) ∧
  cleanup_file (create_keypair cloud name keydata s).1 = cleanup_file s.
Proof.
  unfold create_keypair, try_except. rewrite request_run. split.
  - intros msg ->. reflexivity.
  - destruct (cloud unit (calls s) (nova_keypairs_create name keydata)) as [e|[]];
      [|reflexivity].
    destruct (is_NovaConflict e); reflexivity.
Qed.

Lemma create_keypair_conflict_swallowed_witness :
  (create_keypair (scripted_cloud keypair_exists) "pubkey_env1" "ssh-rsa AAAA"
     (initial_state (DeploymentRunner (Some "env1") None None 0))).2 = Val ().
Proof.
  erewrite (proj1 (create_keypair_conflict_swallowed (scripted_cloud keypair_exists)
                     "pubkey_env1" "ssh-rsa AAAA" _)); reflexivity.
Defined.

(** ** Security groups *)

Lemma runner_record_resource_run (type_ id : string) (s : State) :
  runner_record_resource type_ id s =
  (match Runner.record_resource (dr s) with
   | sink_noop => s
   | sink_cleanup_file =>
       set_cleanup_file (cleanup_file s +:+ ledger_line type_ id) s
   end, Val ()).
Proof.
  unfold runner_record_resource, gets. rewrite bind_run.
  destruct (Runner.record_resource (dr s)); reflexivity.
Qed.

Lemma runner_record_resource_dr (type_ id : string) (s : State) :
  dr (runner_record_resource type_ id s).1 = dr s.
Proof.
  rewrite runner_record_resource_run.
  destruct (Runner.record_resource (dr s)); reflexivity.
Qed.

Lemma runner_record_resource_calls (type_ id : string) (s : State) :
  calls (runner_record_resource type_ id s).1 = calls s.
Proof.
  rewrite runner_record_resource_run.
  destruct (Runner.record_resource (dr s)); reflexivity.
Qed.

(** The loop of [create_security_group] over rules that have their keys:
    one request per rule, built from the table as it stands. *)
Lemma create_security_group_rules (cloud : Cloud) (secgroup_id : string)
    (rules : list RuleSpec) (bodies : list SecgroupRule) (s : State) :
  (∀ h body, ∃ rule_id,
     cloud string h (neutron_create_security_group_rule body) = inr rule_id) →
  Forall2 (λ rule body,
             secgroup_rule (Runner.secgroups (dr s)) secgroup_id rule = inr body)
          rules bodies →
  ∃ s',
    for_each rules (λ rule,
      r ← gets dr;
      body ← lift (secgroup_rule (Runner.secgroups r) secgroup_id rule);
      rule_id ← request cloud (neutron_create_security_group_rule body);
      runner_record_resource "secgroup_rule" rule_id) s = (s', Val ()) ∧
    dr s' = dr s ∧
    calls s' =
      calls s ++ ((λ body, call_of (neutron_create_security_group_rule body)) <$> bodies).
Proof.
  intros Hcloud Hrules. revert s bodies Hrules.
  induction rules as [|rule rules IH]; intros s bodies Hrules.
  - apply Forall2_nil_inv_l in Hrules as ->. exists s. simpl.
    rewrite app_nil_r. done.
  - apply Forall2_cons_inv_l in Hrules as (body & bodies' & Hbody & Hrest & ->).
    rewrite for_each_cons, !bind_run, gets_run, bind_run, Hbody. simpl.
    rewrite bind_run, request_run.
    destruct (Hcloud (calls s) body) as [rule_id ->].
    set (s1 := set_calls _ s).
    pose proof (runner_record_resource_run "secgroup_rule" rule_id s1) as Hrec.
    pose proof (runner_record_resource_dr "secgroup_rule" rule_id s1) as Hdr.
    pose proof (runner_record_resource_calls "secgroup_rule" rule_id s1) as Hcalls.
    destruct (runner_record_resource "secgroup_rule" rule_id s1) as [s2 r2].
    injection Hrec as _ ->. simpl in Hdr, Hcalls.
    destruct (IH s2 bodies') as (s' & Hrun & Hdr' & Hcalls').
    { rewrite Hdr. exact Hrest. }
    exists s'. split; [exact Hrun|]. split; [congruence|].
    rewrite Hcalls', Hcalls. subst s1. simpl. rewrite <- app_assoc. reflexivity.
Qed.



(** ** Deleting a subnet *)

Lemma set_calls_id (s : State) : set_calls (calls s) s = s.
Proof. destruct s. reflexivity. Qed.

Section DeleteSubnet.
Context (cloud : Cloud) (uuid : string).
Hypothesis detach_succeeds :
  ∀ h router, cloud unit h (neutron_remove_interface_router router uuid) = inr ().

Lemma delete_subnet_fixed_ips_run (port : ApiPort) (fixed_ips : list ApiFixedIp)
    (router_found : bool) (s : State) :
  delete_subnet_fixed_ips cloud uuid port fixed_ips router_found s =
  if existsb (λ fixed_ip, String.eqb (subnet_id fixed_ip) uuid) fixed_ips
  then (set_calls (calls s ++ [detach_call uuid port]) s, Val true)
  else (s, Val router_found).
Proof.
  induction fixed_ips as [|fixed_ip rest IH]; simpl; [reflexivity|].
  destruct (String.eqb (subnet_id fixed_ip) uuid); simpl; [|exact IH].
  rewrite bind_run, request_run, detach_succeeds. reflexivity.
Qed.

Lemma delete_subnet_ports_run (ports : list ApiPort) (router_found : bool) (s : State) :
  for_fold ports router_found (λ port router_found,
    delete_subnet_fixed_ips cloud uuid port (ap_fixed_ips port) router_found) s =
  (set_calls (calls s ++ (detach_call uuid <$> filter (λ p, on_subnet uuid p) ports)) s,
   Val (router_found || existsb (on_subnet uuid) ports)).
Proof.
  revert router_found s. induction ports as [|port ports IH]; intros router_found s.
  - simpl. rewrite app_nil_r, set_calls_id, orb_false_r. reflexivity.
  - rewrite for_fold_cons, bind_run, delete_subnet_fixed_ips_run.
    rewrite filter_cons. fold (on_subnet uuid port). simpl existsb.
    destruct (on_subnet uuid port) eqn:Hon.
    + rewrite decide_True by done.
      rewrite IH. simpl. rewrite <- app_assoc, orb_true_r. reflexivity.
    + rewrite decide_False by (intros []).
      rewrite IH. reflexivity.
Qed.

End DeleteSubnet.

Lemma existsb_filter_nil {A} (f : A → bool) (l : list A) :
  existsb f l = negb (bool_decide (filter (λ x, f x) l = [])).
Proof.
  induction l as [|x l IH]; [reflexivity|].
  simpl. rewrite filter_cons. destruct (f x); simpl.
  - reflexivity.
  - exact IH.
Qed.

(** C5.  When the first [delete_subnet] request is answered with a
    conflict, the runner lists the router-interface ports and keeps those
    with a fixed IP on the subnet.  When there is none, the conflict it
    caught is raised again, unchanged, and nothing else is asked of the
    cloud.  When there is one, the router interface of each such port is
    detached and the deletion is asked once more, exactly once: its outcome
    is the outcome of [delete_subnet]. *)
Theorem delete_subnet_conflict (cloud : Cloud) (uuid : string) (s : State)
    (msg : string) (ports : list ApiPort) :
  let delete := neutron_delete_subnet uuid in
  let list_ports := neutron_list_ports (Some "network:router_interface") in
  let found := filter (λ p, on_subnet uuid p) ports in
  let searched := calls s ++ [call_of delete; call_of list_ports] in
  let detached := searched ++ (detach_call uuid <$> found) in
  cloud unit (calls s) delete = inl (NeutronConflict msg) →
  cloud (list ApiPort) (calls s ++ [call_of delete]) list_ports = inr ports →
  (∀ h router, cloud unit h (neutron_remove_interface_router router uuid) = inr ()) →
  delete_subnet cloud uuid s =
  if bool_decide (found = [])
  then (set_calls searched s, Exc (NeutronConflict msg))
  else (set_calls (detached ++ [call_of delete]) s,
        match cloud unit detached delete with
        | inl e => Exc e
        | inr _ => Val ()
        end).
Proof.
  intros delete list_ports found searched detached Hconflict Hlist Hdetach.
  unfold delete_subnet, try_except. rewrite request_run. fold delete.
  rewrite Hconflict. simpl is_NeutronConflict. cbv iota.
  rewrite bind_run, request_run. simpl calls. fold list_ports. rewrite Hlist.
  rewrite bind_run, (delete_subnet_ports_run cloud uuid Hdetach). simpl calls.
  rewrite orb_false_l, existsb_filter_nil. fold found.
  rewrite <- (app_assoc (calls s)). simpl app. fold searched. fold detached.
  destruct (bool_decide (found = [])) eqn:Hfound; cbn [negb].
  - apply bool_decide_eq_true in Hfound. subst detached. rewrite Hfound.
    simpl. rewrite app_nil_r. reflexivity.
  - rewrite request_run. simpl.
    destruct (cloud unit detached delete) as [e|[]]; reflexivity.
Qed.

Lemma delete_subnet_conflict_witness :
  let s := initial_state (DeploymentRunner None None None 0) in
  delete_subnet (scripted_cloud (subnet_in_use [router_port])) "subnet-1" s =
    (set_calls
       [ call_of (neutron_delete_subnet "subnet-1");
         call_of (neutron_list_ports (Some "network:router_interface"));
         call_of (neutron_remove_interface_router "router-1" "subnet-1");
         call_of (neutron_delete_subnet "subnet-1") ] s, Val ()) ∧
  delete_subnet (scripted_cloud (subnet_in_use [])) "subnet-1" s =
    (set_calls
       [ call_of (neutron_delete_subnet "subnet-1");
         call_of (neutron_list_ports (Some "network:router_interface")) ] s,
     Exc (NeutronConflict "Unable to complete operation on subnet")).
Proof.
  intros s. split.
  - rewrite (delete_subnet_conflict (scripted_cloud (subnet_in_use [router_port]))
               "subnet-1" s "Unable to complete operation on subnet" [router_port]);
      reflexivity.
  - rewrite (delete_subnet_conflict (scripted_cloud (subnet_in_use []))
               "subnet-1" s "Unable to complete operation on subnet" []);
      reflexivity.
Defined.

(** ** Reading the cleanup log back *)

Lemma chars_app (a b : string) :
  Str.chars (a +:+ b) = Str.chars a ++ Str.chars b.
Proof. induction a as [|c a IH]; simpl; [reflexivity | by rewrite IH]. Qed.

Lemma append_assoc (a b c : string) : (a +:+ b) +:+ c = a +:+ b +:+ c.
Proof.
  induction a as [|x a IH]; [reflexivity|].
  change (String x ((a +:+ b) +:+ c) = String x (a +:+ b +:+ c)).
  rewrite IH. reflexivity.
Qed.

Lemma of_chars_app (a b : list ascii) :
  Str.of_chars (a ++ b) = Str.of_chars a +:+ Str.of_chars b.
Proof. induction a as [|c a IH]; simpl; [reflexivity | by rewrite IH]. Qed.

Lemma readlines_go_line (line cur rest : list ascii) :
  forallb (λ c, negb (Ascii.eqb c Str.newline)) line = true →
  Str.readlines_go cur (line ++ Str.newline :: rest) =
  Str.of_chars (reverse cur ++ line ++ [Str.newline]) :: Str.readlines_go [] rest.
Proof.
  revert cur. induction line as [|c line IH]; intros cur Hline; simpl.
  - rewrite reverse_cons. reflexivity.
  - simpl in Hline. apply andb_prop in Hline as [Hc Hline].
    apply negb_true_iff in Hc. rewrite Hc, (IH _ Hline), reverse_cons.
    rewrite <- app_assoc. reflexivity.
Qed.

Lemma split_go_kind (kind cur rest : list ascii) :
  forallb (λ c, negb (Ascii.eqb c Str.newline) && negb (Ascii.eqb c ":"%char)) kind = true →
  Str.split_colon_space_go cur (kind ++ ":"%char :: " "%char :: rest) =
  Str.of_chars (reverse cur ++ kind) :: Str.split_colon_space_go [] rest.
Proof.
  revert cur. induction kind as [|c kind IH]; intros cur Hkind.
  - simpl. rewrite app_nil_r. reflexivity.
  - simpl in Hkind. apply andb_prop in Hkind as [Hc Hkind].
    apply andb_prop in Hc as [_ Hc]. apply negb_true_iff in Hc.
    change ((c :: kind) ++ ":"%char :: " "%char :: rest)
      with (c :: (kind ++ ":"%char :: " "%char :: rest)).
    cbn [Str.split_colon_space_go]. rewrite Hc.
    assert (Hstep : Str.split_colon_space_go (c :: cur)
                      (kind ++ ":"%char :: " "%char :: rest) =
                    Str.of_chars (reverse cur ++ c :: kind) ::
                      Str.split_colon_space_go [] rest).
    { rewrite (IH _ Hkind), reverse_cons, <- app_assoc. reflexivity. }
    destruct (kind ++ ":"%char :: " "%char :: rest) as [|d l] eqn:Hl; [exact Hstep|].
    destruct d as [[] [] [] [] [] [] [] []]; exact Hstep.
Qed.

Lemma split_go_plain (l cur : list ascii) :
  no_colon_space l = true →
  Str.split_colon_space_go cur l = [Str.of_chars (reverse cur ++ l)].
Proof.
  revert cur. induction l as [|c l IH]; intros cur Hl.
  - simpl. rewrite app_nil_r. reflexivity.
  - assert (Hstep : no_colon_space l = true →
                    Str.split_colon_space_go (c :: cur) l =
                    [Str.of_chars (reverse cur ++ c :: l)]).
    { intros H. rewrite (IH _ H), reverse_cons, <- app_assoc. reflexivity. }
    cbn [Str.split_colon_space_go]. cbn [no_colon_space] in Hl.
    destruct l as [|d l]; [exact (Hstep Hl)|].
    destruct (Ascii.eqb d " "%char) eqn:Hd.
    + apply Ascii.eqb_eq in Hd. subst d.
      apply andb_prop in Hl as [Hc Hl]. apply negb_true_iff in Hc.
      rewrite Hc. exact (Hstep Hl).
    + destruct d as [[] [] [] [] [] [] [] []]; try exact (Hstep Hl).
      discriminate Hd.
Qed.

Lemma lstrip_chars_ink (l : list ascii) :
  starts_in_ink l = true → Str.lstrip_chars l = l.
Proof.
  destruct l as [|c l]; [discriminate|]. simpl.
  intros H. apply negb_true_iff in H. rewrite H. reflexivity.
Qed.

Lemma starts_in_ink_app (l l' : list ascii) :
  starts_in_ink l = true → starts_in_ink (l ++ l') = true.
Proof. destruct l; [discriminate | done]. Qed.

(** [strip] takes the newline off a line that starts and ends in ink. *)
Lemma strip_line (l : list ascii) :
  starts_in_ink l = true → ends_in_ink l = true →
  reverse (Str.lstrip_chars (reverse (Str.lstrip_chars (l ++ [Str.newline])))) = l.
Proof.
  intros Hstart Hend.
  rewrite (lstrip_chars_ink (l ++ [Str.newline])) by (by apply starts_in_ink_app).
  rewrite reverse_app. simpl.
  rewrite (lstrip_chars_ink _ Hend). apply reverse_involutive.
Qed.

(** What [cleanup] makes of a line [record_resource] wrote. *)
Lemma parse_ledger_line (kind uuid : string) :
  plain_kind kind = true → plain_id uuid = true →
  Str.split_colon_space (Str.strip (ledger_line kind uuid)) = [kind; uuid].
Proof.
  unfold plain_kind, plain_id. intros Hkind Huuid.
  apply andb_prop in Hkind as [Hk1 Hk2].
  apply andb_prop in Huuid as [Hu Hu3]. apply andb_prop in Hu as [Hu1 Hu2].
  assert (Hstrip : Str.strip (ledger_line kind uuid) = kind +:+ ": " +:+ uuid).
  { unfold Str.strip, ledger_line, nl.
    rewrite <- (String.string_of_list_ascii_of_string (kind +:+ ": " +:+ uuid)).
    f_equal.
    replace (Str.chars (kind +:+ ": " +:+ uuid +:+ String Str.newline ""))
      with (Str.chars (kind +:+ ": " +:+ uuid) ++ [Str.newline])
      by (rewrite !chars_app, <- !app_assoc; reflexivity).
    apply strip_line.
    - rewrite chars_app. by apply starts_in_ink_app.
    - unfold ends_in_ink in *. rewrite !chars_app, !reverse_app, <- app_assoc.
      by apply starts_in_ink_app. }
  rewrite Hstrip. unfold Str.split_colon_space. rewrite !chars_app.
  change (Str.chars ": " ++ Str.chars uuid) with (":"%char :: " "%char :: Str.chars uuid).
  rewrite (split_go_kind _ _ _ Hk2), (split_go_plain _ _ Hu3). simpl.
  rewrite !String.string_of_list_ascii_of_string. reflexivity.
Qed.

Lemma kind_name_plain (kind : Kind) : plain_kind (kind_name kind) = true.
Proof. destruct kind; reflexivity. Qed.

Lemma getattr_delete_kind (cloud : Cloud) (kind : Kind) (s : State) :
  getattr_delete cloud (kind_name kind) s = (s, Val (delete_operation cloud kind)).
Proof. destruct kind; reflexivity. Qed.

Lemma ledger_line_chars (kind : Kind) (uuid : string) (rest : string) :
  Str.chars (ledger_line (kind_name kind) uuid +:+ rest) =
  Str.chars (kind_name kind +:+ ": " +:+ uuid) ++ Str.newline :: Str.chars rest.
Proof.
  unfold ledger_line, nl. rewrite !chars_app, <- !app_assoc. reflexivity.
Qed.

Lemma readlines_ledger_text (ledger : list (Kind * string)) :
  Forall plain_entry ledger →
  Str.readlines (ledger_text ledger) =
  (λ entry, ledger_line (kind_name entry.1) entry.2) <$> ledger.
Proof.
  unfold Str.readlines. induction 1 as [|[kind uuid] ledger Hentry _ IH];
    [reflexivity|].
  cbn [ledger_text foldr fst snd]. fold (ledger_text ledger).
  rewrite ledger_line_chars, readlines_go_line.
  - rewrite IH. cbn [fmap list_fmap fst snd reverse]. f_equal.
    unfold ledger_line, nl. simpl (reverse [] ++ _).
    rewrite of_chars_app, String.string_of_list_ascii_of_string.
    rewrite !append_assoc. reflexivity.
  - unfold plain_entry, plain_id in Hentry. simpl in Hentry.
    apply andb_prop in Hentry as [Hu _]. apply andb_prop in Hu as [_ Hu].
    pose proof (kind_name_plain kind) as Hk. unfold plain_kind in Hk.
    apply andb_prop in Hk as [_ Hk].
    rewrite !chars_app, !forallb_app. rewrite Hu. simpl.
    rewrite andb_true_r. apply forallb_forall. intros c Hc.
    apply (proj1 (forallb_forall _ _) Hk) in Hc.
    apply andb_prop in Hc as [Hc _]. exact Hc.
Qed.

Lemma never_out_of_fuel_request (cloud : Cloud) {A} (q : Req A) :
  never_out_of_fuel (request cloud q).
Proof. intros s. rewrite request_run. simpl. by destruct (cloud A (calls s) q). Qed.

Lemma never_out_of_fuel_bind {A B} (m : M A) (f : A → M B) :
  never_out_of_fuel m → (∀ a, never_out_of_fuel (f a)) → never_out_of_fuel (m ≫= f).
Proof.
  intros Hm Hf s. rewrite bind_run. specialize (Hm s).
  destruct (m s) as [s1 [a| |]]; simpl in *; [apply Hf | done | done].
Qed.

Lemma never_out_of_fuel_for_fold {A B} (l : list A) (acc : B) (body : A → B → M B) :
  (∀ x acc, never_out_of_fuel (body x acc)) → never_out_of_fuel (for_fold l acc body).
Proof.
  intros Hbody. revert acc. induction l as [|x l IH]; intros acc.
  - intros s. done.
  - rewrite for_fold_cons. apply never_out_of_fuel_bind; [apply Hbody | apply IH].
Qed.

Lemma never_out_of_fuel_delete_subnet (cloud : Cloud) (uuid : string) :
  never_out_of_fuel (delete_subnet cloud uuid).
Proof.
  intros s. unfold delete_subnet, try_except.
  pose proof (never_out_of_fuel_request cloud (neutron_delete_subnet uuid) s) as H.
  destruct (request cloud (neutron_delete_subnet uuid) s) as [s1 [[]|e|]];
    simpl in *; [done| |done].
  destruct (is_NeutronConflict e); [|done].
  apply never_out_of_fuel_bind; [apply never_out_of_fuel_request|].
  intros ports. apply never_out_of_fuel_bind.
  - apply never_out_of_fuel_for_fold. intros port acc. clear.
    induction (ap_fixed_ips port) as [|fixed_ip rest IH]; simpl; [by intros s|].
    destruct (String.eqb (subnet_id fixed_ip) uuid); [|exact IH].
    apply never_out_of_fuel_bind; [apply never_out_of_fuel_request | by intros ? s].
  - intros []; [apply never_out_of_fuel_request | by intros s'].
Qed.

Lemma never_out_of_fuel_delete (cloud : Cloud) (kind : Kind) (uuid : string) :
  never_out_of_fuel (delete_operation cloud kind uuid).
Proof.
  destruct kind; try apply never_out_of_fuel_request.
  apply never_out_of_fuel_delete_subnet.
Qed.

(** The body of the loop of [cleanup] on a line of the ledger. *)
Lemma cleanup_entry (cloud : Cloud) (entry : Kind * string) (s : State) :
  plain_entry entry →
  match Str.split_colon_space (Str.strip (ledger_line (kind_name entry.1) entry.2)) with
  | [resource_type; uuid] =>
      func ← getattr_delete cloud resource_type;
      try_except (func uuid) (λ _, true) (λ e, print (Exn_str e))
  | [] | [_] => raise (ValueError "need more than 1 value to unpack")
  | _ => raise (ValueError "too many values to unpack")
  end s = (attempt_delete cloud s entry, Val ()).
Proof.
  destruct entry as [kind uuid]. unfold plain_entry. intros Hentry.
  cbn [fst snd] in *.
  rewrite (parse_ledger_line _ _ (kind_name_plain kind) Hentry).
  rewrite bind_run, getattr_delete_kind. unfold try_except, attempt_delete. simpl.
  pose proof (never_out_of_fuel_delete cloud kind uuid s) as Hfuel.
  destruct (delete_operation cloud kind uuid s) as [s1 [[]|e|]]; simpl in *; done.
Qed.

(** C3.  For a log to which the entries of a ledger were appended, [cleanup]
    is the teardown of the specification: one delete operation per line,
    the one its resource type names, in the reverse of the order in which
    the lines were appended.  A deletion that raises has its exception
    printed, and the deletions that remain are still attempted: [cleanup]
    returns normally whatever the cloud answers. *)
Theorem cleanup_reverse_order (cloud : Cloud) (ledger : list (Kind * string))
    (s : State) :
  Forall plain_entry ledger →
  cleanup cloud (ledger_text ledger) s =
  (teardown_spec cloud ledger (set_dr (DeploymentRunner None None None 0) s), Val ()).
Proof.
  intros Hledger. unfold cleanup, teardown_spec.
  rewrite bind_run, modify_run.
  rewrite (readlines_ledger_text _ Hledger), <- list_fmap_compose, <- fmap_reverse.
  apply Forall_reverse in Hledger.
  generalize dependent (reverse ledger). intros entries.
  generalize (set_dr (DeploymentRunner None None None 0) s). clear s.
  induction entries as [|entry entries IH]; intros s Hentries; [reflexivity|].
  apply Forall_cons in Hentries as [Hentry Hentries].
  rewrite fmap_cons, for_each_cons, bind_run. unfold compose at 1.
  rewrite (cleanup_entry cloud entry s Hentry). simpl. apply IH, Hentries.
Qed.

(** The port and the floating IP are gone: both failures are printed and
    the network and the key pair are deleted all the same. *)
Lemma cleanup_reverse_order_witness :
  let s := initial_state (DeploymentRunner (Some "env1") None None 0) in
  let s' := (cleanup (scripted_cloud (already_deleted ["port-2"; "fip-4"]))
               (ledger_text small_ledger) s).1 in
  (cleanup (scripted_cloud (already_deleted ["port-2"; "fip-4"]))
     (ledger_text small_ledger) s).2 = Val () ∧
  calls s' =
    [ call_of (nova_servers_delete (Some "srv-9"));
      call_of (neutron_delete_floatingip "fip-4");
      call_of (neutron_delete_port "port-2");
      call_of (neutron_delete_network "net-1");
      call_of (nova_keypairs_delete "pubkey_env1") ] ∧
  stdout s' = ["fip-4 could not be found"; "port-2 could not be found"].
Proof.
  intros s s'. subst s'.
  rewrite (cleanup_reverse_order
             (scripted_cloud (already_deleted ["port-2"; "fip-4"])) small_ledger s).
  - vm_compute. done.
  - repeat constructor.
Defined.

(** ** Reconciliation *)

Lemma first_duplicate_None (suffix : string) (taken : gset string) (names : list string) :
  first_duplicate suffix taken names = None ↔
  NoDup (omap (base_name_of suffix) names) ∧
  ∀ base, base ∈ omap (base_name_of suffix) names → base ∉ taken.
Proof.
  revert taken. induction names as [|name names IH]; intros taken; simpl.
  - split; [|done]. intros _. split; [constructor | intros base Hb; inversion Hb].
  - destruct (base_name_of suffix name) as [base|]; [|apply IH].
    case_bool_decide as Hbase.
    + split; [discriminate|]. intros [_ H]. exfalso. apply (H base); [left | done].
    + rewrite IH, NoDup_cons. clear IH. split.
      * intros [Hnd H]. split; [split; [|done]|].
        -- intros Hin. apply (H base Hin), elem_of_union_l, elem_of_singleton. done.
        -- intros b Hb. apply elem_of_cons in Hb as [->|Hb]; [done|].
           intros Hin. apply (H b Hb), elem_of_union_r, Hin.
      * intros [[Hnotin Hnd] H]. split; [done|].
        intros b Hb Hin. apply elem_of_union in Hin as [Hin|Hin].
        -- apply elem_of_singleton in Hin as ->. done.
        -- apply (H b); [by apply list_elem_of_further | done].
Qed.

Lemma reconciled_taken {V} (suffix : string) (table : gmap string V)
    (items : list (string * V)) (key : string) :
  key ∉ omap (base_name_of suffix) items.*1 →
  reconciled suffix table items !! key = table !! key.
Proof.
  revert table. induction items as [|[name v] items IH]; intros table Hkey; [done|].
  unfold reconciled in *. simpl in *.
  destruct (base_name_of suffix name) as [base|] eqn:Hbase.
  - apply not_elem_of_cons in Hkey as [Hne Hkey].
    rewrite IH by done. apply lookup_insert_ne. done.
  - apply IH, Hkey.
Qed.

(** Without a duplicate, every listed resource that carries the suffix is
    in the table, under its base name. *)
Lemma reconciled_lookup {V} (suffix : string) (table : gmap string V)
    (items : list (string * V)) (name base : string) (v : V) :
  NoDup (omap (base_name_of suffix) items.*1) →
  (name, v) ∈ items → base_name_of suffix name = Some base →
  reconciled suffix table items !! base = Some v.
Proof.
  revert table. induction items as [|[name' v'] items IH]; intros table Hnd Hin Hbase.
  - inversion Hin.
  - unfold reconciled in *. simpl in *.
    apply elem_of_cons in Hin as [[= <- <-]|Hin].
    + rewrite Hbase in Hnd |- *. apply NoDup_cons in Hnd as [Hnotin _].
      fold (reconciled suffix (<[base:=v]> table) items).
      rewrite reconciled_taken by done. apply lookup_insert_eq.
    + apply IH; [|done..].
      destruct (base_name_of suffix name'); [by apply NoDup_cons in Hnd as [_ ?] | done].
Qed.

Lemma set_networks_id (s : State) :
  set_dr (Runner.set_networks (Runner.networks (dr s)) (dr s)) s = s.
Proof. destruct s as [[] ?]. reflexivity. Qed.

Lemma set_secgroups_id (s : State) :
  set_dr (Runner.set_secgroups (Runner.secgroups (dr s)) (dr s)) s = s.
Proof. destruct s as [[] ?]. reflexivity. Qed.

Lemma set_nodes_id (s : State) :
  set_dr (Runner.set_nodes (Runner.nodes (dr s)) (dr s)) s = s.
Proof. destruct s as [[] ?]. reflexivity. Qed.

Lemma bool_decide_is_Some_dom {V} (table : gmap string V) (key : string) :
  bool_decide (is_Some (table !! key)) = bool_decide (key ∈ dom table).
Proof. apply bool_decide_ext. symmetry. apply elem_of_dom. Qed.

(** The loop over the networks ends at the first duplicate; without one
    it leaves the reconciled table. *)
Lemma detect_networks_run (suffix : string) (nets : list ApiNetwork)
    (nbid : gmap string string) (s : State) :
  let duplicate :=
    first_duplicate suffix (dom (Runner.networks (dr s))) (net_name <$> nets) in
  ∃ table nbid',
    for_fold nets nbid (detect_network suffix) s =
      (set_dr (Runner.set_networks table (dr s)) s,
       match duplicate with
       | Some name => Exc (DuplicateResourceException "Network" name)
       | None => Val nbid'
       end) ∧
    (duplicate = None →
     table = reconciled suffix (Runner.networks (dr s))
               ((λ n, (net_name n, net_id n)) <$> nets)).
Proof.
  revert nbid s. induction nets as [|network nets IH]; intros nbid s.
  - exists (Runner.networks (dr s)), nbid. simpl. rewrite set_networks_id. done.
  - rewrite for_fold_cons, bind_run, !fmap_cons.
    unfold detect_network, reconciled. cbn [foldl fst snd first_duplicate].
    unfold base_name_of.
    destruct (Str.endswith (net_name network) suffix).
    + rewrite bind_run, gets_run. cbv beta iota.
      rewrite bool_decide_is_Some_dom.
      destruct (bool_decide (strip_suffix suffix (net_name network)
                               ∈ dom (Runner.networks (dr s)))).
      * exists (Runner.networks (dr s)), nbid. rewrite set_networks_id. done.
      * rewrite bind_run. unfold modify_dr. rewrite modify_run. cbv beta iota.
        rewrite ret_run.
        set (s1 := set_dr _ s).
        destruct (IH (<[net_id network := strip_suffix suffix (net_name network)]> nbid) s1)
          as (table & nbid' & Hrun & Htable).
        subst s1. simpl in Hrun, Htable. rewrite dom_insert_L in Hrun, Htable.
        exists table, nbid'. split; [exact Hrun | exact Htable].
    + rewrite ret_run. apply IH.
Qed.

(** The same for the security groups. *)
Lemma detect_secgroups_run (suffix : string) (secgroups : list ApiSecgroup) (s : State) :
  let duplicate :=
    first_duplicate suffix (dom (Runner.secgroups (dr s))) (sg_name <$> secgroups) in
  ∃ table,
    for_each secgroups (detect_secgroup suffix) s =
      (set_dr (Runner.set_secgroups table (dr s)) s,
       match duplicate with
       | Some name => Exc (DuplicateResourceException "Security Group" name)
       | None => Val ()
       end) ∧
    (duplicate = None →
     table = reconciled suffix (Runner.secgroups (dr s))
               ((λ g, (sg_name g, sg_id g)) <$> secgroups)).
Proof.
  revert s. induction secgroups as [|secgroup secgroups IH]; intros s.
  - exists (Runner.secgroups (dr s)). simpl. rewrite set_secgroups_id. done.
  - rewrite for_each_cons, bind_run, !fmap_cons.
    unfold detect_secgroup, reconciled. cbn [foldl fst snd first_duplicate].
    unfold base_name_of.
    destruct (Str.endswith (sg_name secgroup) suffix).
    + rewrite bind_run, gets_run. cbv beta iota.
      rewrite bool_decide_is_Some_dom.
      destruct (bool_decide (strip_suffix suffix (sg_name secgroup)
                               ∈ dom (Runner.secgroups (dr s)))).
      * exists (Runner.secgroups (dr s)). rewrite set_secgroups_id. done.
      * unfold modify_dr. rewrite modify_run. cbv beta iota.
        set (s1 := set_dr _ s).
        destruct (IH s1) as (table & Hrun & Htable).
        subst s1. simpl in Hrun, Htable. rewrite dom_insert_L in Hrun, Htable.
        exists table. split; [exact Hrun | exact Htable].
    + rewrite ret_run. apply IH.
Qed.

Lemma list_comp_cons {A B} (x : A) (l : list A) (f : A → M B) :
  list_comp (x :: l) f = (y ← f x; ys ← list_comp l f; mret (y :: ys)).
Proof. reflexivity. Qed.

Lemma detect_ports_run (nbid : gmap string string) (ports : list ApiPort) (s : State) :
  Forall (λ port, ap_fixed_ips port ≠ []) ports →
  ∃ raw_ports,
    list_comp ports (detect_port nbid) s = (s, Val raw_ports) ∧
    port_id <$> raw_ports = ap_id <$> ports ∧
    port_mac <$> raw_ports = ap_mac_address <$> ports.
Proof.
  induction 1 as [|port ports Hport _ (raw_ports & Hrun & Hids & Hmacs)].
  - exists []. done.
  - rewrite list_comp_cons, bind_run. unfold detect_port at 1.
    destruct (ap_fixed_ips port) as [|fixed_ip ?]; [done|].
    rewrite ret_run. cbv beta iota. rewrite bind_run, Hrun. cbv beta iota.
    rewrite ret_run. eexists. split; [reflexivity|].
    rewrite !fmap_cons, Hids, Hmacs. done.
Qed.

Lemma index_step_absent (f : Port → string) (l : list (nat * Port))
    (m : gmap string nat) (key : string) :
  key ∉ (λ ip, f ip.2) <$> l → foldl (index_step f) m l !! key = m !! key.
Proof.
  revert m. induction l as [|ip l IH]; intros m Hkey; [done|].
  rewrite fmap_cons in Hkey. apply not_elem_of_cons in Hkey as [Hne Hkey].
  simpl. rewrite IH by done. unfold index_step. by rewrite lookup_insert_ne.
Qed.

Lemma index_step_present (f : Port → string) (l : list (nat * Port))
    (m : gmap string nat) (key : string) :
  key ∈ (λ ip, f ip.2) <$> l →
  ∃ ip, ip ∈ l ∧ foldl (index_step f) m l !! key = Some ip.1.
Proof.
  revert m. induction l as [|ip l IH]; intros m Hkey; [by apply elem_of_nil in Hkey|].
  simpl. destruct (decide (key ∈ (λ ip, f ip.2) <$> l)) as [Hin|Hnotin].
  - destruct (IH (index_step f m ip) Hin) as (ip' & Hip' & Hlookup).
    exists ip'. split; [by apply list_elem_of_further | exact Hlookup].
  - rewrite fmap_cons in Hkey. apply elem_of_cons in Hkey as [->|Hkey]; [|done].
    exists ip. split; [left|].
    rewrite index_step_absent by done. unfold index_step. apply lookup_insert_eq.
Qed.

(** A key some port has is in the table, at the position of a port. *)
Lemma index_by_elem (f : Port → string) (raw_ports : list Port) (key : string) :
  key ∈ f <$> raw_ports →
  ∃ i, index_by f raw_ports !! key = Some i ∧ (i < length raw_ports)%nat.
Proof.
  intros Hkey. unfold index_by.
  destruct (index_step_present f (imap pair raw_ports) ∅ key) as ([i p] & Hin & Hlookup).
  - apply list_elem_of_fmap in Hkey as (p & -> & Hp).
    apply list_elem_of_lookup in Hp as [i Hp].
    apply list_elem_of_fmap. exists (i, p). split; [done|].
    apply list_elem_of_lookup. exists i. rewrite list_lookup_imap, Hp. done.
  - exists i. split; [exact Hlookup|].
    apply list_elem_of_lookup in Hin as [j Hj].
    rewrite list_lookup_imap in Hj.
    destruct (raw_ports !! j) eqn:Hrj; [|done]. injection Hj as <- <-.
    by apply lookup_lt_Some in Hrj.
Qed.

Lemma detect_floatingips_run (ports_by_id : gmap string nat)
    (floatingips : list ApiFloatingIp) (raw_ports : list Port) (s : State) :
  Forall (λ fip, Str.truthy (fip_port_id fip) = true →
                 is_Some (ports_by_id !! default "" (fip_port_id fip))) floatingips →
  ∃ raw_ports',
    for_fold floatingips raw_ports (detect_floatingip ports_by_id) s =
      (s, Val raw_ports') ∧
    length raw_ports' = length raw_ports.
Proof.
  intros Hfips. revert raw_ports.
  induction Hfips as [|fip floatingips Hfip _ IH]; intros raw_ports.
  - exists raw_ports. done.
  - rewrite for_fold_cons, bind_run. unfold detect_floatingip at 1.
    destruct (Str.truthy (fip_port_id fip)); cbn [negb].
    + destruct (Hfip eq_refl) as [i Hi].
      rewrite bind_run. unfold subscript. rewrite Hi, !ret_run. cbv beta iota.
      destruct (IH (alter (set_floating_ip (fip_floating_ip_address fip)) i raw_ports))
        as (raw_ports' & Hrun & Hlen).
      exists raw_ports'. split; [exact Hrun|]. by rewrite Hlen, length_alter.
    + rewrite ret_run. cbv beta iota. apply IH.
Qed.

Lemma modify_node_run (key : string) (f : Node.t → Node.t) (s : State) :
  modify_node key f s =
  (set_dr (Runner.set_nodes (alter f key (Runner.nodes (dr s))) (dr s)) s, Val ()).
Proof. reflexivity. Qed.

(** The loop over the addresses of a server changes the ports of its node
    and nothing else. *)
Lemma detect_addresses_run (ports_by_mac : gmap string nat) (raw_ports : list Port)
    (base_name : string) (addresses : list (list string)) (s : State) :
  Forall (address_ok ports_by_mac raw_ports) addresses →
  ∃ g : Node.t → Node.t,
    (∀ n, Node.name (g n) = Node.name n) ∧
    for_each addresses (detect_address ports_by_mac raw_ports base_name) s =
      (set_dr (Runner.set_nodes (alter g base_name (Runner.nodes (dr s))) (dr s)) s,
       Val ()).
Proof.
  intros Haddresses. revert s.
  induction Haddresses as [|address addresses Haddress _ IH]; intros s.
  - exists id. split; [done|]. simpl. rewrite alter_id by done.
    rewrite set_nodes_id. done.
  - destruct Haddress as (mac & i & Hhead & Hi & Hlt).
    destruct address as [|mac' rest]; [done|]. injection Hhead as ->.
    rewrite for_each_cons, bind_run. unfold detect_address at 1.
    rewrite bind_run. unfold subscript. rewrite Hi, ret_run. cbv beta iota.
    destruct (lookup_lt_is_Some_2 raw_ports i Hlt) as [port Hport].
    rewrite Hport, modify_node_run. cbv beta iota.
    set (s1 := set_dr _ s).
    destruct (IH s1) as (g & Hg & Hrun). rewrite Hrun. subst s1. simpl.
    exists (g ∘ (λ n, Node.set_ports (Node.ports n ++ [port]) n)).
    split; [intros n; simpl; by rewrite Hg|].
    rewrite alter_alter_eq. reflexivity.
Qed.

(** The loop over the servers, seen through the names of the nodes. *)
Lemma detect_servers_run (suffix : string) (ports_by_mac : gmap string nat)
    (raw_ports : list Port) (servers : list ApiServer) (s : State) :
  Forall (λ server, Forall (address_ok ports_by_mac raw_ports)
                           (srv_addresses server).*2) servers →
  let duplicate :=
    first_duplicate suffix (dom (Runner.nodes (dr s))) (srv_name <$> servers) in
  ∃ nodes,
    for_each servers (detect_server suffix ports_by_mac raw_ports) s =
      (set_dr (Runner.set_nodes nodes (dr s)) s,
       match duplicate with
       | Some name => Exc (DuplicateResourceException "Node" name)
       | None => Val ()
       end) ∧
    (duplicate = None →
     Node.name <$> nodes =
     reconciled suffix (Node.name <$> Runner.nodes (dr s))
       ((λ server, (srv_name server, srv_name server)) <$> servers)).
Proof.
  intros Hservers. revert s.
  induction Hservers as [|server servers Hserver _ IH]; intros s.
  - exists (Runner.nodes (dr s)). simpl. rewrite set_nodes_id. done.
  - rewrite for_each_cons, bind_run, !fmap_cons.
    unfold detect_server at 1, reconciled. cbn [foldl fst snd first_duplicate].
    unfold base_name_of.
    destruct (Str.endswith (srv_name server) suffix).
    + rewrite bind_run, gets_run. cbv beta iota.
      rewrite bool_decide_is_Some_dom.
      destruct (bool_decide (strip_suffix suffix (srv_name server)
                               ∈ dom (Runner.nodes (dr s)))).
      * exists (Runner.nodes (dr s)). rewrite set_nodes_id. done.
      * rewrite bind_run. unfold modify_dr. rewrite modify_run. cbv beta iota.
        set (s1 := set_dr _ s).
        destruct (detect_addresses_run ports_by_mac raw_ports
                    (strip_suffix suffix (srv_name server)) _ s1 Hserver)
          as (g & Hg & Hrun).
        rewrite Hrun. cbv beta iota.
        set (s2 := set_dr _ s1).
        destruct (IH s2) as (nodes & Hloop & Hnodes).
        assert (Hnames : Node.name <$> Runner.nodes (dr s2) =
                         <[strip_suffix suffix (srv_name server) := srv_name server]>
                           (Node.name <$> Runner.nodes (dr s))).
        { subst s2 s1. simpl. rewrite alter_insert_eq, fmap_insert, Hg. done. }
        assert (Hdom : dom (Runner.nodes (dr s2)) =
                       {[strip_suffix suffix (srv_name server)]} ∪ dom (Runner.nodes (dr s))).
        { rewrite <- (dom_fmap_L Node.name), Hnames, dom_insert_L, dom_fmap_L. done. }
        rewrite Hdom in Hloop, Hnodes. rewrite Hnames in Hnodes.
        exists nodes. split; [exact Hloop | exact Hnodes].
    + rewrite ret_run. apply IH.
Qed.

Lemma detect_existing_resources_run (cloud : Cloud) (L : Listing) (s : State) :
  lists cloud L → consistent L →
  let suffix := add_suffix (dr s) "" in
  ∃ s',
    detect_existing_resources cloud s = (s', detect_outcome suffix (dr s) L) ∧
    (detect_outcome suffix (dr s) L = Val () →
     Runner.networks (dr s') =
       reconciled suffix (Runner.networks (dr s))
         ((λ n, (net_name n, net_id n)) <$> ls_networks L) ∧
     Runner.secgroups (dr s') =
       reconciled suffix (Runner.secgroups (dr s))
         ((λ g, (sg_name g, sg_id g)) <$> ls_security_groups L) ∧
     Node.name <$> Runner.nodes (dr s') =
       reconciled suffix (Node.name <$> Runner.nodes (dr s))
         ((λ server, (srv_name server, srv_name server)) <$> ls_servers L)).
Proof.
  intros (Hnets & Hports & Hfips & Hsgs & Hservers) (Hfixed & Hfip_ports & Haddresses).
  intros suffix. unfold detect_existing_resources, detect_outcome.
  rewrite bind_run, gets_run. cbv beta iota. fold suffix.
  rewrite bind_run, request_run, Hnets.
  set (s1 := set_calls _ s).
  rewrite bind_run.
  destruct (detect_networks_run suffix (ls_networks L) ∅ s1)
    as (networks & nbid & Hrun1 & Hnetworks).
  rewrite Hrun1. clear Hrun1. change (dr s1) with (dr s) in *.
  destruct (first_duplicate suffix (dom (Runner.networks (dr s)))
              (net_name <$> ls_networks L)) as [name|];
    [eexists; split; [reflexivity | discriminate]|].
  specialize (Hnetworks eq_refl).
  set (s2 := set_dr _ s1).
  rewrite bind_run, request_run, Hports.
  set (s3 := set_calls _ s2).
  rewrite bind_run.
  destruct (detect_ports_run nbid (ls_ports L) s3 Hfixed)
    as (raw_ports & Hrun2 & Hids & Hmacs).
  rewrite Hrun2. clear Hrun2.
  rewrite bind_run, request_run, Hfips.
  set (s4 := set_calls _ s3).
  rewrite bind_run.
  destruct (detect_floatingips_run (index_by port_id raw_ports) (ls_floatingips L)
              raw_ports s4) as (raw_ports' & Hrun3 & Hlen).
  { eapply Forall_impl; [exact Hfip_ports|]. intros fip Hfip Htruthy.
    specialize (Hfip Htruthy). rewrite <- Hids in Hfip.
    destruct (index_by_elem port_id raw_ports _ Hfip) as (i & Hi & _). eauto. }
  rewrite Hrun3. clear Hrun3.
  rewrite bind_run, request_run, Hsgs.
  set (s5 := set_calls _ s4).
  rewrite bind_run.
  destruct (detect_secgroups_run suffix (ls_security_groups L) s5)
    as (secgroups & Hrun4 & Hsecgroups).
  rewrite Hrun4. clear Hrun4.
  change (Runner.secgroups (dr s5)) with (Runner.secgroups (dr s)) in *.
  destruct (first_duplicate suffix (dom (Runner.secgroups (dr s)))
              (sg_name <$> ls_security_groups L)) as [name|];
    [eexists; split; [reflexivity | discriminate]|].
  specialize (Hsecgroups eq_refl).
  set (s6 := set_dr _ s5).
  rewrite bind_run, request_run, Hservers.
  set (s7 := set_calls _ s6).
  destruct (detect_servers_run suffix (index_by port_mac raw_ports) raw_ports'
              (ls_servers L) s7) as (nodes & Hrun5 & Hnodes).
  { eapply Forall_impl; [exact Haddresses|]. intros server Hserver.
    eapply Forall_impl; [exact Hserver|]. intros address (mac & Hhead & Hmac).
    rewrite <- Hmacs in Hmac.
    destruct (index_by_elem port_mac raw_ports _ Hmac) as (i & Hi & Hlt).
    exists mac, i. rewrite Hlen. done. }
  rewrite Hrun5. clear Hrun5.
  change (Runner.nodes (dr s7)) with (Runner.nodes (dr s)) in *.
  eexists. split; [reflexivity|].
  destruct (first_duplicate suffix (dom (Runner.nodes (dr s)))
              (srv_name <$> ls_servers L)) as [name|]; [discriminate|].
  intros _. specialize (Hnodes eq_refl). simpl.
  split; [exact Hnetworks|]. split; [exact Hsecgroups | exact Hnodes].
Qed.

Lemma length_chars (s : string) : length (Str.chars s) = String.length s.
Proof. induction s as [|c s IH]; simpl; [reflexivity | by rewrite IH]. Qed.

Lemma append_empty_r (s : string) : s +:+ "" = s.
Proof.
  induction s as [|c s IH]; [reflexivity|].
  change (String c (s +:+ "") = String c s). by rewrite IH.
Qed.

Lemma chars_inj (a b : string) : Str.chars a = Str.chars b → a = b.
Proof.
  intros H. rewrite <- (String.string_of_list_ascii_of_string a),
    <- (String.string_of_list_ascii_of_string b). by rewrite H.
Qed.

(** A name reduces to [base] exactly when it is [base] followed by the
    suffix pattern: that pattern, and nothing else, is what is stripped. *)
Lemma base_name_of_spec (suffix name base : string) :
  base_name_of suffix name = Some base ↔ name = base +:+ suffix.
Proof.
  unfold base_name_of, Str.endswith, strip_suffix, Str.slice_to_neg.
  case_bool_decide as Hends.
  - destruct Hends as [k Hk].
    destruct (String.eqb_spec suffix "") as [->|Hne]; cbn [negb].
    + rewrite append_empty_r. split; congruence.
    + rewrite <- length_chars, Hk, <- (length_chars suffix), length_app.
      replace (length k + length (Str.chars suffix) - length (Str.chars suffix))%nat
        with (length k) by lia.
      rewrite take_app_length. split.
      * intros [= <-]. apply chars_inj.
        rewrite chars_app, String.list_ascii_of_string_of_list_ascii. exact Hk.
      * intros ->. rewrite chars_app in Hk. apply app_inv_tail in Hk.
        rewrite <- Hk, String.string_of_list_ascii_of_string. done.
  - split; [discriminate|]. intros ->. exfalso. apply Hends.
    exists (Str.chars base). apply chars_app.
Qed.

Lemma collide_not_NoDup (suffix : string) (names : list string) :
  collide suffix names → ¬ NoDup (omap (base_name_of suffix) names).
Proof.
  intros (i & j & a & b & base & Hij & Hi & Hj & Ha & Hb).
  revert i j Hij Hi Hj. induction names as [|name names IH]; intros i j Hij Hi Hj;
    [done|].
  assert (Hhead : ∀ k c, names !! k = Some c → base_name_of suffix c = Some base →
                         base_name_of suffix name = Some base →
                         ¬ NoDup (omap (base_name_of suffix) (name :: names))).
  { intros k c Hk Hc Hname Hnd. simpl in Hnd. rewrite Hname in Hnd.
    apply NoDup_cons in Hnd as [Hnotin _]. apply Hnotin.
    apply list_elem_of_omap. exists c. split; [|done].
    apply list_elem_of_lookup. eauto. }
  destruct i as [|i], j as [|j]; simpl in Hi, Hj.
  - done.
  - injection Hi as ->. eauto.
  - injection Hj as ->. eauto.
  - intros Hnd. apply (IH i j); [congruence|done..|].
    simpl in Hnd. destruct (base_name_of suffix name); [|done].
    by apply NoDup_cons in Hnd as [_ ?].
Qed.

Lemma collide_first_duplicate (suffix : string) (taken : gset string)
    (names : list string) :
  collide suffix names → is_Some (first_duplicate suffix taken names).
Proof.
  intros Hcollide.
  destruct (first_duplicate suffix taken names) eqn:Hfirst; [eauto|].
  apply first_duplicate_None in Hfirst as [Hnd _].
  by apply collide_not_NoDup in Hcollide.
Qed.

Lemma lists_listing_script (L : Listing) : lists (scripted_cloud (listing_script L)) L.
Proof. repeat split. Qed.

Lemma consistent_existing (servers : list ApiServer) :
  Forall (λ server, ∃ id name mac,
            server = server_on id name mac ∧
            mac ∈ ["fa:16:3e:00:00:01"; "fa:16:3e:00:00:02"]) servers →
  consistent (existing servers).
Proof.
  intros Hservers. split; [|split].
  - repeat constructor; done.
  - constructor; [|constructor]. intros _.
    apply list_elem_of_further, list_elem_of_here.
  - eapply Forall_impl; [exact Hservers|].
    intros server (id & name & mac & -> & Hmac).
    constructor; [|constructor].
    exists mac. split; [reflexivity | exact Hmac].
Qed.

(** C6.  Reconciliation gives a resource the base name [base] exactly when
    its name is [base] followed by the suffix pattern, which is what
    [add_suffix] appends: under suffix [env1] the servers [web_env1] and
    [web2_env1] become the nodes [web] and [web2], and reconciliation
    returns.  On a consistent listing in which two networks, two security
    groups or two servers reduce to one base name, reconciliation raises
    [DuplicateResourceException]. *)
Theorem detect_existing_resources_base_names :
  (∀ suffix name base,
     base_name_of suffix name = Some base ↔ name = base +:+ suffix) ∧
  (let run := detect_existing_resources
                (scripted_cloud (listing_script web_and_web2)) env1_start in
   run.2 = Val () ∧
   Node.name <$> Runner.nodes (dr run.1) =
     {[ "web" := "web_env1"; "web2" := "web2_env1" ]}) ∧
  (∀ (cloud : Cloud) (L : Listing) (s : State),
     lists cloud L → consistent L →
     let suffix := add_suffix (dr s) "" in
     collide suffix (net_name <$> ls_networks L) ∨
     collide suffix (sg_name <$> ls_security_groups L) ∨
     collide suffix (srv_name <$> ls_servers L) →
     ∃ s' kind name,
       detect_existing_resources cloud s =
       (s', Exc (DuplicateResourceException kind name))).
Proof.
  split; [|split].
  - apply base_name_of_spec.
  - vm_compute. done.
  - intros cloud L s Hlists Hconsistent suffix Hcollide.
    destruct (detect_existing_resources_run cloud L s Hlists Hconsistent)
      as (s' & Hrun & _).
    fold suffix in Hrun. rewrite Hrun. unfold detect_outcome.
    destruct (first_duplicate suffix (dom (Runner.networks (dr s)))
                (net_name <$> ls_networks L)) as [name|] eqn:Hnets; [eauto|].
    destruct (first_duplicate suffix (dom (Runner.secgroups (dr s)))
                (sg_name <$> ls_security_groups L)) as [name|] eqn:Hsgs; [eauto|].
    destruct (first_duplicate suffix (dom (Runner.nodes (dr s)))
                (srv_name <$> ls_servers L)) as [name|] eqn:Hservers; [eauto|].
    exfalso. destruct Hcollide as [H|[H|H]].
    + destruct (collide_first_duplicate suffix (dom (Runner.networks (dr s))) _ H)
        as [name Hname]. congruence.
    + destruct (collide_first_duplicate suffix (dom (Runner.secgroups (dr s))) _ H)
        as [name Hname]. congruence.
    + destruct (collide_first_duplicate suffix (dom (Runner.nodes (dr s))) _ H)
        as [name Hname]. congruence.
Qed.

Lemma detect_existing_resources_base_names_witness :
  ∃ s' kind name,
    detect_existing_resources (scripted_cloud (listing_script web_twice)) env1_start =
    (s', Exc (DuplicateResourceException kind name)).
Proof.
  apply (proj2 (proj2 detect_existing_resources_base_names)
           (scripted_cloud (listing_script web_twice)) web_twice env1_start).
  - apply lists_listing_script.
  - apply consistent_existing. repeat constructor.
    + exists "srv-1", "web_env1", "fa:16:3e:00:00:01".
      split; [reflexivity | apply list_elem_of_here].
    + exists "srv-2", "web_env1", "fa:16:3e:00:00:02".
      split; [reflexivity | apply list_elem_of_further, list_elem_of_here].
  - right. right. exists 0%nat, 1%nat, "web_env1", "web_env1", "web".
    repeat split; [lia | vm_compute; reflexivity..].
Defined.

Lemma add_suffix_no_suffix (r : Runner.t) (s : string) :
  Str.truthy (Runner.suffix r) = false → add_suffix r s = s.
Proof. unfold add_suffix. by intros ->. Qed.

Lemma base_name_of_empty (name : string) : base_name_of "" name = Some name.
Proof. apply base_name_of_spec. by rewrite append_empty_r. Qed.

Lemma omap_base_name_of_empty (names : list string) :
  omap (base_name_of "") names = names.
Proof.
  induction names as [|name names IH]; [reflexivity|].
  cbn [omap list_omap]. rewrite base_name_of_empty. f_equal. exact IH.
Qed.

Lemma first_duplicate_empty (names : list string) :
  NoDup names → first_duplicate "" ∅ names = None.
Proof.
  intros Hnd. apply first_duplicate_None. rewrite omap_base_name_of_empty.
  split; [exact Hnd|]. intros base _. apply not_elem_of_empty.
Qed.

(** C10.  With no run suffix the pattern looked for is the empty string:
    every name carries it and nothing is stripped.  On a consistent
    listing without two resources of one kind under the same name,
    reconciliation by a new runner returns with every listed network and
    every listed security group in its table under its full name, and with
    a node under the full name of every listed server. *)
Theorem detect_existing_resources_no_suffix (cloud : Cloud) (L : Listing) (s : State) :
  Str.truthy (Runner.suffix (dr s)) = false →
  Runner.networks (dr s) = ∅ → Runner.secgroups (dr s) = ∅ →
  Runner.nodes (dr s) = ∅ →
  lists cloud L → consistent L →
  NoDup (net_name <$> ls_networks L) →
  NoDup (sg_name <$> ls_security_groups L) →
  NoDup (srv_name <$> ls_servers L) →
  add_suffix (dr s) "" = "" ∧
  (∀ name, Str.endswith name "" = true ∧ strip_suffix "" name = name) ∧
  ∃ s',
    detect_existing_resources cloud s = (s', Val ()) ∧
    (∀ network, network ∈ ls_networks L →
       Runner.networks (dr s') !! net_name network = Some (net_id network)) ∧
    (∀ secgroup, secgroup ∈ ls_security_groups L →
       Runner.secgroups (dr s') !! sg_name secgroup = Some (sg_id secgroup)) ∧
    (∀ server, server ∈ ls_servers L →
       ∃ node, Runner.nodes (dr s') !! srv_name server = Some node ∧
               Node.name node = srv_name server).
Proof.
  intros Hsuffix Hnetworks Hsecgroups Hnodes Hlists Hconsistent Hnd1 Hnd2 Hnd3.
  pose proof (add_suffix_no_suffix (dr s) "" Hsuffix) as Hpattern.
  split; [exact Hpattern|]. split.
  { intros name. pose proof (base_name_of_empty name) as H.
    unfold base_name_of in H. destruct (Str.endswith name ""); [|discriminate].
    split; reflexivity. }
  destruct (detect_existing_resources_run cloud L s Hlists Hconsistent)
    as (s' & Hrun & Htables).
  rewrite Hpattern in Hrun, Htables.
  assert (Houtcome : detect_outcome "" (dr s) L = Val ()).
  { unfold detect_outcome. rewrite Hnetworks, Hsecgroups, Hnodes, !dom_empty_L.
    by rewrite !first_duplicate_empty. }
  rewrite Houtcome in Hrun. destruct (Htables Houtcome) as (Hn & Hg & Hs).
  exists s'. split; [exact Hrun|]. split; [|split].
  - intros network Hin. rewrite Hn.
    apply (reconciled_lookup _ _ _ (net_name network)).
    + rewrite <- list_fmap_compose. unfold compose. simpl.
      by rewrite omap_base_name_of_empty.
    + by apply (list_elem_of_fmap_2 (λ n, (net_name n, net_id n))).
    + apply base_name_of_empty.
  - intros secgroup Hin. rewrite Hg.
    apply (reconciled_lookup _ _ _ (sg_name secgroup)).
    + rewrite <- list_fmap_compose. unfold compose. simpl.
      by rewrite omap_base_name_of_empty.
    + by apply (list_elem_of_fmap_2 (λ g, (sg_name g, sg_id g))).
    + apply base_name_of_empty.
  - intros server Hin.
    assert (Hname : (Node.name <$> Runner.nodes (dr s')) !! srv_name server =
                    Some (srv_name server)).
    { rewrite Hs. apply (reconciled_lookup _ _ _ (srv_name server)).
      + rewrite <- list_fmap_compose. unfold compose. simpl.
        by rewrite omap_base_name_of_empty.
      + by apply (list_elem_of_fmap_2 (λ v, (srv_name v, srv_name v))).
      + apply base_name_of_empty. }
    rewrite lookup_fmap in Hname.
    destruct (Runner.nodes (dr s') !! srv_name server) as [node|]; [|discriminate].
    exists node. split; [reflexivity|]. by injection Hname.
Qed.

Lemma detect_existing_resources_no_suffix_witness :
  ∃ s',
    detect_existing_resources (scripted_cloud (listing_script web_and_web2))
      (initial_state (DeploymentRunner None None None 0)) = (s', Val ()) ∧
    Runner.networks (dr s') !! "private_env1" = Some "net-1" ∧
    Runner.secgroups (dr s') !! "web_env1" = Some "sg-1" ∧
    (∃ node, Runner.nodes (dr s') !! "web2_env1" = Some node ∧
             Node.name node = "web2_env1").
Proof.
  destruct (detect_existing_resources_no_suffix
              (scripted_cloud (listing_script web_and_web2)) web_and_web2
              (initial_state (DeploymentRunner None None None 0)))
    as (_ & _ & s' & Hrun & Hnetworks & Hsecgroups & Hnodes).
  - reflexivity.
  - reflexivity.
  - reflexivity.
  - reflexivity.
  - apply lists_listing_script.
  - apply consistent_existing. repeat constructor.
    + exists "srv-1", "web_env1", "fa:16:3e:00:00:01".
      split; [reflexivity | apply list_elem_of_here].
    + exists "srv-2", "web2_env1", "fa:16:3e:00:00:02".
      split; [reflexivity | apply list_elem_of_further, list_elem_of_here].
  - apply (bool_decide_unpack _). vm_compute. exact I.
  - apply (bool_decide_unpack _). vm_compute. exact I.
  - apply (bool_decide_unpack _). vm_compute. exact I.
  - exists s'. split; [exact Hrun|]. split; [|split].
    + apply (Hnetworks {| net_id := "net-1"; net_name := "private_env1" |}).
      apply list_elem_of_here.
    + apply (Hsecgroups {| sg_id := "sg-1"; sg_name := "web_env1" |}).
      apply list_elem_of_here.
    + apply (Hnodes (server_on "srv-2" "web2_env1" "fa:16:3e:00:00:02")).
      apply list_elem_of_further, list_elem_of_here.
Defined.

(** ** Shell steps: which outcomes are retried *)

Section ShellRetry.
Context (parse_time : string → Z) (pipes_quote : string → string).
Context (environ : gmap string string) (proc : nat → string → Proc).

(** [run_cmd_once] reports a timeout only once the clock is past a
    deadline that was set. *)
Lemma run_cmd_once_loop_timed_out (fuel : nat) (p : Proc) (polls : nat)
    (deadline : option Z) (s s' : State) (stdin : string) :
  run_cmd_once_loop fuel p polls deadline s = (s', Exc (CommandTimedOutException stdin)) →
  ∃ d, deadline = Some d ∧ (d < clock s')%Z.
Proof.
  revert polls s. induction fuel as [|fuel IH]; intros polls s; simpl; [discriminate|].
  rewrite bind_run, modify_run. cbv beta iota.
  destruct (has_exited p polls).
  - destruct (returncode p =? 0)%Z; discriminate.
  - rewrite bind_run. unfold time_time. rewrite gets_run. cbv beta iota.
    destruct (truthyZ deadline && (clock (set_clock (clock s + 1) s) >? default 0 deadline)%Z)
      eqn:Hpast.
    + intros [= <- _]. apply andb_prop in Hpast as [Htruthy Hpast].
      destruct deadline as [d|]; [|discriminate]. exists d. split; [done|].
      simpl in *. lia.
    + apply IH.
Qed.

Lemma run_cmd_once_timed_out (fuel : nat) (shell_cmd real_cmd : string)
    (deadline : option Z) (s s' : State) (stdin : string) :
  run_cmd_once proc fuel shell_cmd real_cmd deadline s =
    (s', Exc (CommandTimedOutException stdin)) →
  ∃ d, deadline = Some d ∧ (d < clock s')%Z.
Proof.
  unfold run_cmd_once. rewrite bind_run, gets_run. cbv beta iota.
  rewrite bind_run, modify_run. cbv beta iota.
  apply run_cmd_once_loop_timed_out.
Qed.

(** A failed command is retried exactly when [retry-if-fails] is set. *)
Lemma shell_step_attempt_failed (fuel : nat) (details : ShellDetails)
    (cmd real_cmd : string) (overall_deadline individual_exec_limit : option Z)
    (retry_delay : Z) (s s1 : State) (stdin : string) :
  sd_cmd details = Some real_cmd →
  run_cmd_once proc fuel cmd real_cmd
    (attempt_deadline (clock s) individual_exec_limit overall_deadline) s =
    (s1, Exc (CommandFailedException stdin)) →
  shell_step_attempt proc fuel details cmd overall_deadline individual_exec_limit
    retry_delay s =
  if sd_retry_if_fails details
  then (time_sleep retry_delay;; mret loop_continue) s1
  else (s1, Exc (CommandFailedException stdin)).
Proof.
  intros Hcmd Hrun. unfold shell_step_attempt.
  rewrite bind_run. unfold time_time. rewrite gets_run. cbv beta iota.
  unfold try_except. rewrite bind_run, Hcmd. simpl field. rewrite ret_run.
  cbv beta iota. rewrite bind_run, Hrun. cbv beta iota. simpl is_command_exception.
  cbv iota. destruct (sd_retry_if_fails details); reflexivity.
Qed.

(** A command that timed out is not run again, whatever the settings: the
    pause is compared with the deadline that has just passed. *)
Lemma shell_step_attempt_timed_out (fuel : nat) (details : ShellDetails)
    (cmd real_cmd : string) (overall_deadline individual_exec_limit : option Z)
    (retry_delay : Z) (s s1 : State) (stdin : string) :
  sd_cmd details = Some real_cmd →
  run_cmd_once proc fuel cmd real_cmd
    (attempt_deadline (clock s) individual_exec_limit overall_deadline) s =
    (s1, Exc (CommandTimedOutException stdin)) →
  ∃ e,
    shell_step_attempt proc fuel details cmd overall_deadline individual_exec_limit
      retry_delay s = (s1, Exc e) ∧
    ((0 ≤ retry_delay)%Z ∨ sd_retry_if_fails details = false →
     e = CommandTimedOutException stdin).
Proof.
  intros Hcmd Hrun. unfold shell_step_attempt.
  rewrite bind_run. unfold time_time. rewrite gets_run. cbv beta iota.
  unfold try_except. rewrite bind_run, Hcmd. simpl field. rewrite ret_run.
  cbv beta iota. rewrite bind_run, Hrun. cbv beta iota. simpl is_command_exception.
  cbv iota.
  destruct (run_cmd_once_timed_out _ _ _ _ _ _ _ Hrun) as (d & -> & Hpast).
  destruct (sd_retry_if_fails details); [|eexists; split; [reflexivity | done]].
  rewrite bind_run, gets_run. cbv beta iota. unfold lt_py2.
  destruct (clock s1 + retry_delay <? d)%Z eqn:Hslack.
  - assert (retry_delay < 0)%Z by lia.
    rewrite bind_run. unfold time_sleep.
    destruct (retry_delay <? 0)%Z eqn:Hneg; [|lia].
    eexists. split; [reflexivity|]. intros [?|?]; [lia | discriminate].
  - eexists. split; [reflexivity | done].
Qed.

Lemma run_cmd_once_loop_spawned (fuel : nat) (p : Proc) (polls : nat)
    (deadline : option Z) (s : State) :
  spawned (run_cmd_once_loop fuel p polls deadline s).1 = spawned s.
Proof.
  revert polls s. induction fuel as [|fuel IH]; intros polls s; simpl; [reflexivity|].
  rewrite bind_run, modify_run. cbv beta iota.
  destruct (has_exited p polls).
  - destruct (returncode p =? 0)%Z; reflexivity.
  - rewrite bind_run. unfold time_time. rewrite gets_run. cbv beta iota.
    destruct (truthyZ deadline && _); [reflexivity|]. rewrite IH. reflexivity.
Qed.

(** One run of the command starts one process. *)
Lemma run_cmd_once_spawned (fuel : nat) (shell_cmd real_cmd : string)
    (deadline : option Z) (s : State) :
  spawned (run_cmd_once proc fuel shell_cmd real_cmd deadline s).1 = S (spawned s).
Proof.
  unfold run_cmd_once. rewrite bind_run, gets_run. cbv beta iota.
  rewrite bind_run, modify_run. cbv beta iota.
  rewrite run_cmd_once_loop_spawned. reflexivity.
Qed.

(** Without [retry-if-fails] an attempt never asks for another one, and
    the loop of [shell_step] ends with the first attempt, which has started
    one process. *)
Lemma shell_step_loop_no_retry (attempts fuel : nat) (details : ShellDetails)
    (cmd real_cmd : string) (overall_deadline individual_exec_limit : option Z)
    (retry_delay : Z) (s : State) :
  sd_retry_if_fails details = false →
  sd_cmd details = Some real_cmd →
  let run := run_cmd_once proc fuel cmd real_cmd
               (attempt_deadline (clock s) individual_exec_limit overall_deadline) s in
  shell_step_loop proc (S attempts) fuel details cmd overall_deadline
    individual_exec_limit retry_delay s =
    (run.1, match run.2 with
            | Val _ => Val ()
            | Exc e => Exc e
            | OutOfFuel => OutOfFuel
            end) ∧
  spawned run.1 = S (spawned s).
Proof.
  intros Hrif Hcmd run. split; [|apply run_cmd_once_spawned].
  cbn [shell_step_loop]. rewrite bind_run. unfold shell_step_attempt.
  rewrite bind_run. unfold time_time. rewrite gets_run. cbv beta iota.
  unfold try_except. rewrite bind_run, Hcmd. simpl field. rewrite ret_run.
  cbv beta iota. rewrite bind_run. fold run.
  destruct run as [s1 [b|e|]]; cbn [fst snd]; [reflexivity| |reflexivity].
  rewrite Hrif. destruct e; reflexivity.
Qed.

End ShellRetry.

(** C4, where the code departs from it.  The step sets [retry-if-fails];
    its command is still running at the ten-second deadline of the first
    attempt.  One second of pause fits before the deadline the next attempt
    would get, and the hundred seconds of [total-timeout] are far from
    over; yet [shell_step] raises the timeout after this single attempt. *)
Theorem shell_step_timeout_not_retried :
  let run := shell_step parse_seconds (λ s, s) ∅ (λ _ _, hangs) 50
               (patient_step true)
               (initial_state (DeploymentRunner None None None 0)) in
  let now := clock run.1 in
  run.2 = Exc (CommandTimedOutException "") ∧
  spawned run.1 = 1%nat ∧
  now = 11 ∧
  lt_py2 (now + 1) (attempt_deadline (now + 1) (Some 10) (Some 100)) = true.
Proof. vm_compute. done. Qed.

(** ** What a build records *)

(** A node holds the sink [Node.__init__] gave it: the one that records
    nothing.  What [build] records through it leaves no trace. *)
Lemma node_record_resource_noop (key type_ id : string) (n : Node.t) (s : State) :
  Runner.nodes (dr s) !! key = Some n →
  Node.record_resource n = sink_noop →
  node_record_resource key type_ id s = (s, Val ()).
Proof.
  intros Hn Hsink. unfold node_record_resource.
  rewrite bind_run, get_node_run, Hn. cbv beta iota. rewrite Hsink. reflexivity.
Qed.

Lemma Node_init_record_resource (name : string) (info : NodeInfo) (r : Runner.t)
    (keypair userdata : option string) :
  Node.record_resource (Node_init name info r keypair userdata) = sink_noop.
Proof. reflexivity. Qed.

(** C1, where the code departs from it.  A stack of one node is deployed
    with [--cleanup] on a cloud where nothing goes wrong.  The run returns;
    the ledger holds the key pair, one port per attachment, the floating IP
    and the server; the volume [vol-7] that [build] created is in no line
    of it, so the teardown that replays the ledger never deletes it. *)
Theorem build_volume_not_recorded :
  let cloud := scripted_cloud (quiet "ACTIVE") in
  let run := main_deploy parse_seconds (λ s, s) ∅ (λ _ _, hangs) cloud 5
               (deploy_web 0) (initial_state (DeploymentRunner None None None 0)) in
  run.2 = Val () ∧
  cleanup_file run.1 =
    ledger_text [ (kind_keypair, "pubkey_env1"); (kind_port, "port-2");
                  (kind_floatingip, "fip-4"); (kind_port, "port-6");
                  (kind_server, "srv-9") ] ∧
  calls run.1 !! 7%nat = Some (call_of (cinder_volumes_create 10 "trusty")) ∧
  scripted_reply (quiet "ACTIVE") (take 7 (calls run.1))
    (cinder_volumes_create 10 "trusty") =
    {| vol_id := "vol-7"; vol_status := "creating" |} ∧
  existsb is_volume_delete (calls (cleanup cloud (cleanup_file run.1) run.1).1) = false.
Proof. vm_compute. done. Qed.

(** ** A logic of computations that return *)

Lemma returns_bind {A B} (P : State → Prop) (Q : A → State → Prop)
    (R : B → State → Prop) (m : M A) (f : A → M B) :
  returns P m Q → (∀ a, returns (Q a) (f a) R) → returns P (m ≫= f) R.
Proof.
  intros Hm Hf s HP. destruct (Hm s HP) as (s1 & a & Hrun & HQ).
  rewrite bind_run, Hrun. apply (Hf a s1 HQ).
Qed.

Lemma returns_ret {A} (P : State → Prop) (Q : A → State → Prop) (a : A) :
  (∀ s, P s → Q a s) → returns P (mret a) Q.
Proof. intros H s HP. exists s, a. split; [reflexivity | by apply H]. Qed.

Lemma returns_weaken {A} (P P' : State → Prop) (Q Q' : A → State → Prop) (m : M A) :
  returns P m Q → (∀ s, P' s → P s) → (∀ a s, Q a s → Q' a s) → returns P' m Q'.
Proof.
  intros Hm HP HQ s HP'. destruct (Hm s (HP s HP')) as (s1 & a & Hrun & H).
  exists s1, a. split; [exact Hrun | by apply HQ].
Qed.

Lemma returns_gets {A} (P : State → Prop) (Q : A → State → Prop) (f : State → A) :
  (∀ s, P s → Q (f s) s) → returns P (gets f) Q.
Proof. intros H s HP. exists s, (f s). split; [reflexivity | by apply H]. Qed.

Lemma returns_modify (P : State → Prop) (Q : unit → State → Prop) (f : State → State) :
  (∀ s, P s → Q () (f s)) → returns P (modify f) Q.
Proof. intros H s HP. exists (f s), (). split; [reflexivity | by apply H]. Qed.

Lemma returns_field {V} (P : State → Prop) (Q : V → State → Prop) (k : string)
    (o : option V) (v : V) :
  o = Some v → (∀ s, P s → Q v s) → returns P (field k o) Q.
Proof. intros Ho H. rewrite Ho. by apply returns_ret. Qed.

Lemma returns_for_each {A} (I : State → Prop) (l : list A) (body : A → M unit) :
  (∀ x, x ∈ l → returns I (body x) (λ _, I)) → returns I (for_each l body) (λ _, I).
Proof.
  induction l as [|x l IH]; intros Hbody.
  - by apply returns_ret.
  - rewrite for_each_cons. eapply returns_bind.
    + apply Hbody. left.
    + intros []. apply IH. intros y Hy. apply Hbody. by right.
Qed.

Lemma returns_list_comp {A B} (I : State → Prop) (l : list A) (f : A → M B) :
  (∀ x, x ∈ l → returns I (f x) (λ _, I)) → returns I (list_comp l f) (λ _, I).
Proof.
  induction l as [|x l IH]; intros Hf.
  - by apply returns_ret.
  - rewrite list_comp_cons. eapply returns_bind; [apply Hf; left|].
    intros y. eapply returns_bind.
    + apply IH. intros z Hz. apply Hf. by right.
    + intros ys. by apply returns_ret.
Qed.

(** ** The retry budget *)

Lemma events_app (name : string) (h h' : list Call) :
  events name (h ++ h') = events name h ++ events name h'.
Proof. apply omap_app. Qed.

Section Retry.
Context (cloud : Cloud) (fuel : nat).
Hypothesis cloud_reliable : reliable cloud.
Hypothesis cloud_settles : volumes_settle cloud fuel.
Hypothesis cloud_in_error : always_in_error cloud.

(** The node under watch sits at [key] in [runner.nodes]; its name and its
    template are [name] and [info]; [rest] is the runner without its
    nodes. *)
Context (key name : string) (info : NodeInfo) (rest : Runner.t).
Hypothesis info_buildable : buildable (Runner.secgroups rest) info.

Lemma returns_request {A} (k : Z) (e : list Event) (q : Req A) :
  returns (Inv key name info rest k e) (request cloud q)
    (λ a s, (∃ h, cloud A h q = inr a) ∧
            Inv key name info rest k (e ++ option_list (event_of name (call_of q))) s).
Proof.
  intros s (Hrest & Hnode & Hevents).
  destruct (never_raises cloud cloud_reliable A (calls s) q) as [a Ha].
  rewrite request_run, Ha. eexists _, a. split; [reflexivity|].
  split; [eauto|]. split; [exact Hrest|]. split; [exact Hnode|].
  simpl. rewrite events_app, Hevents. unfold events. simpl.
  destruct (event_of name (call_of q)); reflexivity.
Qed.

(** A request that is neither the creation of the server of the node nor
    the deletion of a server. *)
Lemma returns_request_quiet {A} (k : Z) (e : list Event) (q : Req A) :
  event_of name (call_of q) = None →
  returns (Inv key name info rest k e) (request cloud q) (λ _, Inv key name info rest k e).
Proof.
  intros Hquiet. eapply returns_weaken; [apply returns_request | done |].
  intros a s [_ H]. rewrite Hquiet in H. simpl in H. by rewrite app_nil_r in H.
Qed.

Lemma returns_modify_node (k k' : Z) (e : list Event) (f : Node.t → Node.t) :
  (∀ n, tracked name info k n → tracked name info k' (f n)) →
  returns (Inv key name info rest k e) (modify_node key f) (λ _, Inv key name info rest k' e).
Proof.
  intros Hf. apply returns_modify. intros s (Hrest & (n & Hn & Htracked) & Hevents).
  split; [exact Hrest|]. split; [|exact Hevents].
  exists (f n). simpl. rewrite lookup_alter_eq, Hn. split; [reflexivity | by apply Hf].
Qed.

Lemma returns_get_node (k : Z) (e : list Event) :
  returns (Inv key name info rest k e) (get_node key) (λ n s, tracked name info k n ∧ Inv key name info rest k e s).
Proof.
  intros s HInv. pose proof HInv as (_ & (n & Hn & Htracked) & _).
  exists s, n. rewrite get_node_run, Hn. done.
Qed.

Lemma returns_gets_dr (k : Z) (e : list Event) :
  returns (Inv key name info rest k e) (gets dr) (λ r s, Runner.set_nodes ∅ r = rest ∧ Inv key name info rest k e s).
Proof. apply returns_gets. intros s HInv. split; [apply HInv | exact HInv]. Qed.

Lemma returns_runner_record_resource (k : Z) (e : list Event) (type_ id : string) :
  returns (Inv key name info rest k e) (runner_record_resource type_ id) (λ _, Inv key name info rest k e).
Proof.
  intros s HInv. rewrite runner_record_resource_run. eexists _, (). split; [reflexivity|].
  destruct (Runner.record_resource (dr s)); exact HInv.
Qed.

Lemma returns_node_record_resource (k : Z) (e : list Event) (type_ id : string) :
  returns (Inv key name info rest k e) (node_record_resource key type_ id) (λ _, Inv key name info rest k e).
Proof.
  unfold node_record_resource. eapply returns_bind; [apply returns_get_node|].
  intros n s [_ HInv]. unfold call_record_resource.
  destruct (Node.record_resource n); eexists _, (); (split; [reflexivity | exact HInv]).
Qed.

Lemma returns_time_sleep (k : Z) (e : list Event) (d : Z) :
  (0 ≤ d)%Z → returns (Inv key name info rest k e) (time_sleep d) (λ _, Inv key name info rest k e).
Proof.
  intros Hd. unfold time_sleep. destruct (d <? 0)%Z eqn:Hneg; [lia|].
  apply returns_modify. intros s HInv. exact HInv.
Qed.

Lemma returns_create_port (k : Z) (e : list Event) (port_name network : string)
    (secgroups : list string) :
  returns (Inv key name info rest k e) (create_port cloud port_name network secgroups) (λ _, Inv key name info rest k e).
Proof.
  unfold create_port. eapply returns_bind.
  { unfold _map_network. eapply returns_bind; [apply returns_gets_dr|].
    intros r. instantiate (1 := λ _, Inv key name info rest k e).
    destruct (map_networks (Runner.mappings r) !! network);
      [|destruct (Runner.networks r !! network)];
      apply returns_ret; intros ? [_ H]; exact H. }
  intros network_id. eapply returns_bind; [apply returns_request|].
  intros port s [[h Hport] HInv].
  apply (ports_have_fixed_ip cloud cloud_reliable) in Hport.
  destruct (ap_fixed_ips port) as [|fixed_ip ?]; [done|].
  simpl in HInv. rewrite app_nil_r in HInv.
  eexists _, _. split; [reflexivity | exact HInv].
Qed.

Lemma returns_create_floating_ip (k : Z) (e : list Event) :
  returns (Inv key name info rest k e) (create_floating_ip cloud) (λ _, Inv key name info rest k e).
Proof.
  unfold create_floating_ip. eapply returns_bind.
  { unfold find_floating_network. eapply returns_bind; [apply returns_request|].
    intros networks s [[h Hnetworks] HInv].
    apply (has_floating_network cloud cloud_reliable) in Hnetworks.
    destruct networks as [|network ?]; [done|].
    simpl in HInv. rewrite app_nil_r in HInv.
    instantiate (1 := λ _, Inv key name info rest k e).
    eexists _, _. split; [reflexivity | exact HInv]. }
  intros floating_network. eapply returns_bind; [by apply returns_request_quiet|].
  intros floatingip. eapply returns_bind; [apply returns_runner_record_resource|].
  intros []. by apply returns_ret.
Qed.

Lemma rest_secgroups (r : Runner.t) :
  Runner.set_nodes ∅ r = rest → Runner.secgroups r = Runner.secgroups rest.
Proof. by intros <-. Qed.

Lemma rest_retry_count (r : Runner.t) :
  Runner.set_nodes ∅ r = rest → Runner.retry_count r = Runner.retry_count rest.
Proof. by intros <-. Qed.

Lemma tracked_set_ports (k : Z) (ports : list Port) (n : Node.t) :
  tracked name info k n → tracked name info k (Node.set_ports ports n).
Proof. by intros (? & ? & ? & ?). Qed.

Lemma tracked_set_fip_ids (k : Z) (fip_ids : gset string) (n : Node.t) :
  tracked name info k n → tracked name info k (Node.set_fip_ids fip_ids n).
Proof. by intros (? & ? & ? & ?). Qed.

Lemma tracked_set_server_id (k : Z) (server_id : option string) (n : Node.t) :
  tracked name info k n → tracked name info k (Node.set_server_id server_id n).
Proof. by intros (? & ? & ? & ?). Qed.

Lemma tracked_set_flavor (k : Z) (flavor : option ApiFlavor) (n : Node.t) :
  tracked name info k n → tracked name info k (Node.set_flavor flavor n).
Proof. by intros (? & ? & ? & ?). Qed.

(** Sequencing through a condition that does not look at the value. *)
Lemma returns_seq {A B} (P Q : State → Prop) (R : B → State → Prop)
    (m : M A) (f : A → M B) :
  returns P m (λ _, Q) → (∀ a, returns Q (f a) R) → returns P (m ≫= f) R.
Proof. apply returns_bind. Qed.

Lemma returns_create_nics (k : Z) (e : list Event) (networks : list Attachment)
    (eth_idx : nat) (nics : list string) :
  Forall (λ network, Forall (λ secgroup, is_Some (Runner.secgroups rest !! secgroup))
                            (default [] (att_securitygroups network))) networks →
  returns (Inv key name info rest k e) (Node_create_nics_from cloud key eth_idx networks nics)
    (λ _, Inv key name info rest k e).
Proof.
  intros Hnetworks. revert eth_idx nics.
  induction Hnetworks as [|network networks Hnetwork _ IH]; intros eth_idx nics.
  - by apply returns_ret.
  - cbn [Node_create_nics_from].
    apply (returns_seq _ (Inv key name info rest k e)).
    { eapply returns_weaken; [apply returns_get_node | done | by intros ? ? [_ ?]]. }
    intros n.
    apply (returns_bind _ (λ r s, Runner.set_nodes ∅ r = rest ∧ Inv key name info rest k e s));
      [apply returns_gets_dr|].
    intros r. cbv beta.
    apply (returns_seq _ (Inv key name info rest k e)).
    { intros s [Hrest HInv]. apply rest_secgroups in Hrest. rewrite Hrest.
      revert s HInv. apply returns_list_comp. intros secgroup Hin.
      rewrite Forall_forall in Hnetwork. destruct (Hnetwork secgroup Hin) as [id Hid].
      unfold subscript. rewrite Hid. by apply returns_ret. }
    intros secgroups.
    apply (returns_seq _ (Inv key name info rest k e)); [apply returns_create_port|]. intros port_info.
    apply (returns_seq _ (Inv key name info rest k e)); [apply returns_runner_record_resource|]. intros [].
    apply (returns_seq _ (Inv key name info rest k e)).
    { apply returns_modify_node. intros n'. apply tracked_set_ports. }
    intros [].
    apply (returns_seq _ (Inv key name info rest k e)); [|intros []; apply IH].
    destruct (att_assign_floating_ip network); [|by apply returns_ret].
    apply (returns_seq _ (Inv key name info rest k e)); [apply returns_create_floating_ip|].
    intros [fip_id fip_address].
    apply (returns_seq _ (Inv key name info rest k e)); [by apply returns_request_quiet|]. intros [].
    apply (returns_seq _ (Inv key name info rest k e)).
    { apply returns_modify_node. intros n'. apply tracked_set_ports. }
    intros []. apply returns_modify_node. intros n'. apply tracked_set_fip_ids.
Qed.

(** Waiting for the volume leaves the node as it is; on this cloud it
    ends. *)
Lemma wait_volume_Inv (k : Z) (e : list Event) (fuel' : nat) (volume : ApiVolume)
    (s : State) :
  Inv key name info rest k e s →
  match wait_volume cloud fuel' volume s with
  | (s', Val _) => Inv key name info rest k e s'
  | (_, Exc _) => False
  | (_, OutOfFuel) => True
  end.
Proof.
  revert volume s. induction fuel' as [|fuel' IH]; intros volume s HInv; simpl.
  - destruct (String.eqb (vol_status volume) "available"); [exact HInv | exact I].
  - destruct (String.eqb (vol_status volume) "available"); [exact HInv|].
    destruct (returns_time_sleep k e 3 ltac:(lia) s HInv) as (s1 & [] & Hsleep & HInv1).
    rewrite bind_run, Hsleep.
    destruct (returns_request_quiet k e (cinder_volumes_get (vol_id volume)) eq_refl
                s1 HInv1) as (s2 & volume' & Hget & HInv2).
    rewrite bind_run, Hget. apply IH, HInv2.
Qed.

Lemma returns_wait_volume (k : Z) (e : list Event) (volume : ApiVolume) :
  returns (Inv key name info rest k e) (wait_volume cloud fuel volume) (λ _, Inv key name info rest k e).
Proof.
  intros s HInv. pose proof (wait_volume_Inv k e fuel volume s HInv) as H.
  pose proof (cloud_settles volume s) as Hsettles.
  destruct (wait_volume cloud fuel volume s) as [s' [volume'| |]]; [eauto | done | done].
Qed.

(** A build takes one attempt and creates the server once. *)
Lemma returns_Node_build (k : Z) (e : list Event) :
  returns (Inv key name info rest k e) (Node_build cloud fuel key) (λ _, Inv key name info rest (k - 1) (e ++ [ev_build])).
Proof.
  destruct info_buildable as ([flavor_name Hflavor] & [disk Hdisk] & [image Himage] &
                              networks & Hnetworks & Hsecgroups).
  unfold Node_build.
  apply (returns_bind _ (λ n s, tracked name info k n ∧ Inv key name info rest k e s)); [apply returns_get_node|].
  intros n s [Htracked HInv]. revert s HInv.
  pose proof Htracked as (Hname & Hinfo & _). rewrite Hinfo.
  apply (returns_seq _ (Inv key name info rest k e)).
  { destruct (Node.flavor n); [by apply returns_ret|].
    apply (returns_seq _ (Inv key name info rest k e)); [by eapply returns_field|]. intros flavor_name'.
    apply (returns_seq _ (Inv key name info rest k e)); [by apply returns_request_quiet|]. intros flavor.
    apply returns_modify_node. intros n'. apply tracked_set_flavor. }
  intros [].
  apply (returns_bind _ (λ networks' s, networks' = networks ∧ Inv key name info rest k e s)).
  { by eapply returns_field. }
  intros networks' s [-> HInv]. revert s HInv.
  apply (returns_seq _ (Inv key name info rest k e)); [by apply returns_create_nics|]. intros nics.
  apply (returns_seq _ (Inv key name info rest k e)); [by eapply returns_field|]. intros disk'.
  apply (returns_seq _ (Inv key name info rest k e)); [by eapply returns_field|]. intros image'.
  apply (returns_seq _ (Inv key name info rest k e)); [by apply returns_request_quiet|]. intros volume.
  apply (returns_seq _ (Inv key name info rest k e)); [apply returns_node_record_resource|]. intros [].
  apply (returns_seq _ (Inv key name info rest k e)); [apply returns_wait_volume|]. intros volume'.
  apply (returns_bind _ (λ n s, tracked name info k n ∧ Inv key name info rest k e s)); [apply returns_get_node|].
  intros n' s [(Hname' & _) HInv]. revert s HInv.
  apply (returns_seq _ (Inv key name info rest k (e ++ [ev_build]))).
  { eapply returns_weaken; [apply returns_request | done |].
    intros server s [_ HInv]. unfold event_of in HInv. simpl in HInv.
    rewrite Hname', String.eqb_refl in HInv. exact HInv. }
  intros server.
  apply (returns_seq _ (Inv key name info rest k (e ++ [ev_build])));
    [apply returns_runner_record_resource|]. intros [].
  apply (returns_seq _ (Inv key name info rest k (e ++ [ev_build]))).
  { apply returns_modify_node. intros n''. apply tracked_set_server_id. }
  intros []. apply returns_modify_node. intros n'' (? & ? & <- & ?). done.
Qed.

(** [clean] deletes the server once and leaves the attempts alone. *)
Lemma returns_Node_clean (k : Z) (e : list Event) :
  returns (Inv key name info rest k e) (Node_clean cloud key) (λ _, Inv key name info rest k (e ++ [ev_clean])).
Proof.
  unfold Node_clean.
  apply (returns_seq _ (Inv key name info rest k e)).
  { eapply returns_weaken; [apply returns_get_node | done | by intros ? ? [_ ?]]. }
  intros n.
  apply (returns_seq _ (Inv key name info rest k e)).
  { apply returns_for_each. intros fip_id _. by apply returns_request_quiet. }
  intros [].
  apply (returns_seq _ (Inv key name info rest k e)).
  { apply returns_modify_node. intros n'. apply tracked_set_fip_ids. }
  intros [].
  apply (returns_seq _ (Inv key name info rest k e)).
  { eapply returns_weaken; [apply returns_get_node | done | by intros ? ? [_ ?]]. }
  intros n1.
  apply (returns_seq _ (Inv key name info rest k e)).
  { apply returns_for_each. intros port _. by apply returns_request_quiet. }
  intros [].
  apply (returns_seq _ (Inv key name info rest k e)).
  { apply returns_modify_node. intros n'. apply tracked_set_ports. }
  intros [].
  apply (returns_seq _ (Inv key name info rest k e)).
  { eapply returns_weaken; [apply returns_get_node | done | by intros ? ? [_ ?]]. }
  intros n2.
  apply (returns_seq _ (Inv key name info rest k (e ++ [ev_clean]))).
  { eapply returns_weaken; [apply returns_request | done |]. by intros ? ? [_ ?]. }
  intros []. apply returns_modify_node. intros n'. apply tracked_set_server_id.
Qed.

(** A poll of the node asks the cloud and finds the server in error. *)
Lemma returns_Node_poll (k : Z) (e : list Event) :
  returns (Inv key name info rest k e) (Node_poll cloud key "ACTIVE")
    (λ status s, status = Some "ERROR" ∧ Inv key name info rest k e s).
Proof.
  intros s (Hrest & (n & Hn & Htracked) & Hevents).
  pose proof Htracked as (Hname & Hinfo & Hk & Hstatus).
  unfold Node_poll. rewrite bind_run, get_node_run, Hn. cbv beta iota.
  rewrite bool_decide_eq_true_2 by exact Hstatus.
  rewrite !bind_run, request_run.
  destruct (never_raises cloud cloud_reliable _ (calls s)
              (nova_servers_get (Node.server_id n))) as [server Hserver].
  rewrite Hserver. cbv beta iota.
  rewrite (cloud_in_error _ _ _ Hserver), modify_node_run. cbv beta iota.
  rewrite bind_run, get_node_run. simpl. rewrite lookup_alter_eq, Hn. simpl.
  rewrite ret_run.
  eexists _, _. split; [reflexivity|]. split; [reflexivity|].
  split; [exact Hrest|]. split.
  - eexists. simpl. rewrite lookup_alter_eq, Hn. split; [reflexivity|]. done.
  - simpl. rewrite events_app, Hevents. simpl. by rewrite app_nil_r.
Qed.

Lemma elements_singleton_key : elements ({[key]} : gset string) = [key].
Proof. apply elements_singleton. Qed.

(** A round of the loop, with retries allowed and attempts left: the node
    is cleaned and built again, and stays pending. *)
Lemma round_rebuilds (k : Z) (e : list Event) (s : State) :
  Runner.retry_count rest ≠ 0 → k ≠ 0 → Inv key name info rest k e s →
  ∃ s',
    _poll_pending_nodes cloud fuel {[key]} s = (s', Val {[key]}) ∧
    Inv key name info rest (k - 1) (e ++ [ev_clean; ev_build]) s'.
Proof.
  intros Hretry Hk HInv. unfold _poll_pending_nodes.
  rewrite elements_singleton_key, bind_run, for_fold_cons, bind_run, bind_run.
  destruct (returns_Node_poll k e s HInv) as (s1 & status & Hpoll & -> & HInv1).
  rewrite Hpoll. cbv beta iota.
  rewrite bool_decide_eq_false_2 by discriminate.
  rewrite bool_decide_eq_true_2 by reflexivity.
  rewrite bind_run, gets_run. cbv beta iota.
  rewrite (rest_retry_count _ (proj1 HInv1)).
  rewrite bool_decide_eq_true_2 by exact Hretry.
  destruct (returns_Node_clean k e s1 HInv1) as (s2 & [] & Hclean & HInv2).
  rewrite bind_run, Hclean. cbv beta iota.
  destruct (returns_get_node _ _ s2 HInv2) as (s2' & n & Hget & Htracked & _).
  pose proof Hget as Hget'. rewrite get_node_run in Hget'. injection Hget' as <- _.
  rewrite bind_run, Hget. cbv beta iota.
  destruct Htracked as (_ & _ & -> & _).
  rewrite bool_decide_eq_true_2 by exact Hk.
  destruct (returns_Node_build _ _ s2 HInv2) as (s3 & [] & Hbuild & HInv3).
  rewrite bind_run, Hbuild. cbv beta iota. rewrite ret_run. cbv beta iota.
  simpl for_fold. rewrite ret_run. cbv beta iota. rewrite ret_run.
  exists s3. split; [by rewrite difference_empty_L|].
  rewrite <- app_assoc in HInv3. exact HInv3.
Qed.

(** A round with retries allowed and no attempt left: the node is cleaned
    and the run fails. *)
Lemma round_gives_up (e : list Event) (s : State) :
  Runner.retry_count rest ≠ 0 → Inv key name info rest 0 e s →
  ∃ s',
    _poll_pending_nodes cloud fuel {[key]} s = (s', Exc ProvisionFailedException) ∧
    Inv key name info rest 0 (e ++ [ev_clean]) s'.
Proof.
  intros Hretry HInv. unfold _poll_pending_nodes.
  rewrite elements_singleton_key, bind_run, for_fold_cons, bind_run, bind_run.
  destruct (returns_Node_poll 0 e s HInv) as (s1 & status & Hpoll & -> & HInv1).
  rewrite Hpoll. cbv beta iota.
  rewrite bool_decide_eq_false_2 by discriminate.
  rewrite bool_decide_eq_true_2 by reflexivity.
  rewrite bind_run, gets_run. cbv beta iota.
  rewrite (rest_retry_count _ (proj1 HInv1)).
  rewrite bool_decide_eq_true_2 by exact Hretry.
  destruct (returns_Node_clean 0 e s1 HInv1) as (s2 & [] & Hclean & HInv2).
  rewrite bind_run, Hclean. cbv beta iota.
  destruct (returns_get_node _ _ s2 HInv2) as (s2' & n & Hget & Htracked & _).
  pose proof Hget as Hget'. rewrite get_node_run in Hget'. injection Hget' as <- _.
  rewrite bind_run, Hget. cbv beta iota.
  destruct Htracked as (_ & _ & -> & _).
  rewrite bool_decide_eq_false_2 by (intros H; by apply H).
  exists s2. split; [reflexivity | exact HInv2].
Qed.

(** A round without retries: the run fails at the first poll. *)
Lemma round_no_retry (k : Z) (e : list Event) (s : State) :
  Runner.retry_count rest = 0 → Inv key name info rest k e s →
  ∃ s',
    _poll_pending_nodes cloud fuel {[key]} s = (s', Exc ProvisionFailedException) ∧
    Inv key name info rest k e s'.
Proof.
  intros Hretry HInv. unfold _poll_pending_nodes.
  rewrite elements_singleton_key, bind_run, for_fold_cons, bind_run, bind_run.
  destruct (returns_Node_poll k e s HInv) as (s1 & status & Hpoll & -> & HInv1).
  rewrite Hpoll. cbv beta iota.
  rewrite bool_decide_eq_false_2 by discriminate.
  rewrite bool_decide_eq_true_2 by reflexivity.
  rewrite bind_run, gets_run. cbv beta iota.
  rewrite (rest_retry_count _ (proj1 HInv1)), Hretry.
  rewrite bool_decide_eq_false_2 by (intros H; by apply H).
  exists s1. split; [reflexivity | exact HInv1].
Qed.

(** The loop over a node with [j] attempts left, retries allowed: [j]
    rebuilds, each after a clean, then a last clean and the failure. *)
Lemma wait_pending_nodes_exhausts (j rounds : nat) (e : list Event) (s : State) :
  Runner.retry_count rest ≠ 0 → (j < rounds)%nat → Inv key name info rest (Z.of_nat j) e s →
  ∃ s',
    wait_pending_nodes cloud rounds fuel {[key]} s = (s', Exc ProvisionFailedException) ∧
    Inv key name info rest 0 (e ++ rebuilds j ++ [ev_clean]) s'.
Proof.
  intros Hretry. revert rounds e s.
  induction j as [|j IH]; intros rounds e s Hrounds HInv;
    (destruct rounds as [|rounds]; [lia|]); cbn [wait_pending_nodes].
  - destruct (round_gives_up e s Hretry HInv) as (s' & Hround & HInv').
    rewrite bind_run, Hround. exists s'. done.
  - destruct (round_rebuilds (Z.of_nat (S j)) e s Hretry ltac:(lia) HInv)
      as (s1 & Hround & HInv1).
    rewrite bind_run, Hround. cbv beta iota.
    rewrite bool_decide_eq_false_2 by apply non_empty_singleton_L.
    destruct (returns_time_sleep _ _ 5 ltac:(lia) s1 HInv1) as (s2 & [] & Hsleep & HInv2).
    rewrite bind_run, Hsleep.
    replace (Z.of_nat (S j) - 1) with (Z.of_nat j) in HInv2 by lia.
    destruct (IH rounds _ s2 ltac:(lia) HInv2) as (s' & Hloop & HInv').
    exists s'. split; [exact Hloop|].
    unfold rebuilds in *. cbn [replicate concat].
    rewrite <- !app_assoc in HInv'. rewrite <- !app_assoc. exact HInv'.
Qed.

End Retry.

Lemma builds_rebuilds (j : nat) :
  length (filter (λ ev, ev = ev_build) (rebuilds j)) = j.
Proof.
  induction j as [|j IH]; [reflexivity|].
  unfold rebuilds in *. cbn [replicate concat].
  rewrite filter_app, length_app, IH. reflexivity.
Qed.

Lemma buildable_Node_init (secgroups : gmap string string) (name : string)
    (info : NodeInfo) (r : Runner.t) (keypair userdata : option string) :
  buildable secgroups info →
  buildable secgroups (Node.info (Node_init name info r keypair userdata)).
Proof.
  intros ([flavor Hflavor] & Hdisk & [image Himage] & Hnetworks).
  unfold buildable. simpl. rewrite Hflavor, Himage. eauto.
Qed.

(** C2.  A node is created by [_create_node] and is then the pending set of
    the loop of [provision_step], on a cloud that answers every request and
    reports the server in error at every poll, with retry budget
    [retry_count = R], [R] not negative.  The first build succeeds; the
    loop ends by raising [ProvisionFailedException]; and by then the server
    has been created [R + 1] times: the first build, then [R] rebuilds each
    right after a [clean()] (and, when [R] is not zero, a last [clean()]
    before giving up). *)
Theorem error_node_built_retry_count_plus_one (cloud : Cloud) (fuel : nat) (R : Z)
    (base_name : string) (node_info : NodeInfo)
    (keypair_name userdata : option string) (s0 : State) :
  reliable cloud → volumes_settle cloud fuel → always_in_error cloud →
  (0 ≤ R)%Z → Runner.retry_count (dr s0) = R →
  Runner.nodes (dr s0) !! base_name = None →
  buildable (Runner.secgroups (dr s0)) node_info →
  let name := add_suffix (dr s0) base_name in
  ∃ s1 s2,
    _create_node cloud fuel base_name node_info keypair_name userdata s0 =
      (s1, Val (Some base_name)) ∧
    wait_pending_nodes cloud (S (Z.to_nat R)) fuel {[base_name]} s1 =
      (s2, Exc ProvisionFailedException) ∧
    events name (calls s2) =
      events name (calls s0) ++ ev_build :: rebuilds (Z.to_nat R) ++
      (if bool_decide (R = 0) then [] else [ev_clean]) ∧
    builds name (calls s2) = (builds name (calls s0) + (Z.to_nat R + 1))%nat.
Proof.
  intros Hreliable Hsettles Herror HR Hretry Hfresh Hbuildable name.
  set (rest := Runner.set_nodes ∅ (dr s0)).
  set (node := Node_init name node_info (dr s0) keypair_name userdata).
  assert (Hinfo : buildable (Runner.secgroups rest) (Node.info node))
    by (by apply buildable_Node_init).
  set (s0' := set_dr (Runner.set_nodes (<[base_name := node]> (Runner.nodes (dr s0)))
                        (dr s0)) s0).
  assert (HInv0 : Inv base_name name (Node.info node) rest (R + 1)
                    (events name (calls s0)) s0').
  { split; [reflexivity|]. split; [|reflexivity].
    exists node. subst s0'. simpl. rewrite lookup_insert_eq.
    split; [reflexivity|]. repeat split; [simpl; lia | discriminate]. }
  destruct (returns_Node_build cloud fuel Hreliable Hsettles base_name name
              (Node.info node) rest Hinfo _ _ s0' HInv0) as (s1 & [] & Hbuild & HInv1).
  replace (R + 1 - 1) with R in HInv1 by lia.
  assert (Hcreate : _create_node cloud fuel base_name node_info keypair_name userdata s0 =
                    (s1, Val (Some base_name))).
  { unfold _create_node. rewrite bind_run, gets_run. cbv beta iota.
    rewrite Hfresh. rewrite bool_decide_eq_false_2 by (intros [? ?]; discriminate).
    rewrite bind_run. unfold modify_dr. rewrite modify_run. cbv beta iota.
    fold name node s0'. rewrite bind_run, Hbuild. reflexivity. }
  assert (Hrest : Runner.retry_count rest = R) by exact Hretry.
  destruct (decide (R = 0)) as [->|HR0].
  - destruct (round_no_retry cloud fuel Hreliable Herror base_name name
                (Node.info node) rest Hinfo 0 _ s1 Hrest HInv1)
      as (s2 & Hround & HInv2).
    exists s1, s2. split; [exact Hcreate|]. split; [|split].
    + simpl. rewrite bind_run, Hround. reflexivity.
    + destruct HInv2 as (_ & _ & ->). simpl. reflexivity.
    + destruct HInv2 as (_ & _ & Hevents). unfold builds. rewrite Hevents.
      rewrite filter_app, length_app. reflexivity.
  - destruct (wait_pending_nodes_exhausts cloud fuel Hreliable Hsettles Herror
                base_name name (Node.info node) rest Hinfo (Z.to_nat R)
                (S (Z.to_nat R)) (events name (calls s0) ++ [ev_build]) s1)
      as (s2 & Hloop & HInv2).
    + rewrite Hrest. exact HR0.
    + lia.
    + rewrite Z2Nat.id by lia. exact HInv1.
    + exists s1, s2. split; [exact Hcreate|]. split; [exact Hloop|].
      destruct HInv2 as (_ & _ & Hevents).
      rewrite bool_decide_eq_false_2 by exact HR0.
      rewrite <- app_assoc in Hevents. split; [exact Hevents|].
      unfold builds. rewrite Hevents, !filter_app, !length_app, builds_rebuilds.
      simpl. lia.
Qed.

Lemma reliable_quiet (status : string) : reliable (scripted_cloud (quiet status)).
Proof.
  split.
  - intros A h q. eexists. reflexivity.
  - intros h name network_id secgroups port [= <-]. discriminate.
  - intros h networks [= <-]. discriminate.
Qed.

Lemma volumes_settle_quiet (status : string) (fuel : nat) :
  volumes_settle (scripted_cloud (quiet status)) (S fuel).
Proof.
  intros volume s. cbn [wait_volume].
  destruct (String.eqb (vol_status volume) "available"); [discriminate|].
  rewrite bind_run. unfold time_sleep.
  change (3 <? 0)%Z with false. cbv iota.
  rewrite modify_run. cbv beta iota. rewrite bind_run, request_run. simpl.
  destruct fuel; simpl; discriminate.
Qed.

Lemma always_in_error_quiet : always_in_error (scripted_cloud (quiet "ERROR")).
Proof. intros h uuid server [= <-]. reflexivity. Qed.

Lemma buildable_web_info : buildable ∅ web_info.
Proof.
  repeat split; try (eexists; reflexivity).
  eexists. split; [reflexivity|]. repeat constructor.
Qed.

(** With a budget of two retries the server [web_env1] is created three
    times before the run fails. *)
Lemma error_node_built_retry_count_plus_one_witness :
  ∃ s1 s2,
    _create_node (scripted_cloud (quiet "ERROR")) 5 "web" web_info None None
      (initial_state (DeploymentRunner (Some "env1") None None 2)) =
      (s1, Val (Some "web")) ∧
    wait_pending_nodes (scripted_cloud (quiet "ERROR")) 3 5 {["web"]} s1 =
      (s2, Exc ProvisionFailedException) ∧
    builds "web_env1" (calls s2) = 3%nat.
Proof.
  destruct (error_node_built_retry_count_plus_one (scripted_cloud (quiet "ERROR"))
              5 2 "web" web_info None None
              (initial_state (DeploymentRunner (Some "env1") None None 2)))
    as (s1 & s2 & Hcreate & Hloop & _ & Hbuilds).
  - apply reliable_quiet.
  - apply volumes_settle_quiet.
  - apply always_in_error_quiet.
  - lia.
  - reflexivity.
  - reflexivity.
  - apply buildable_web_info.
  - exists s1, s2. split; [exact Hcreate|]. split; [exact Hloop | exact Hbuilds].
Defined.

(** * Further properties *)

(** ** The command line of [deploy] *)

(** X1.  [deploy] in [main] cannot do without [--mappings] and [--key]:
    when either is missing it raises before the runner exists, so nothing
    is asked of the cloud and nothing is written.  Without [--mappings] it
    is the [TypeError] of [open(None)]; otherwise the local [key] is read
    unbound. *)
Theorem main_deploy_needs_mappings_and_key
    (parse_time : string → Z) (pipes_quote : string → string)
    (environ : gmap string string) (proc : nat → string → Proc)
    (cloud : Cloud) (fuel : nat) (args : DeployArgs) (s : State) :
  args_mappings args = None ∨ args_key args = None →
  main_deploy parse_time pipes_quote environ proc cloud fuel args s =
  (s, Exc (match args_mappings args with
           | None => TypeError "coercing to Unicode: need string or buffer"
           | Some _ => UnboundLocalError "key"
           end)).
Proof.
  intros H. unfold main_deploy. rewrite bind_run.
  destruct (args_mappings args) as [mappings|]; [|reflexivity].
  rewrite ret_run. cbv beta iota. rewrite bind_run.
  destruct H as [H|H]; [discriminate|]. rewrite H. reflexivity.
Qed.

Lemma main_deploy_needs_mappings_and_key_witness :
  let args := {| args_steps := args_steps (deploy_web 0);
                 args_suffix := Some "env1"; args_mappings := Some no_mappings;
                 args_key := None; args_retry_count := 0;
                 args_cont := true; args_cleanup := true |} in
  let s := initial_state (DeploymentRunner None None None 0) in
  main_deploy parse_seconds (λ s, s) ∅ (λ _ _, hangs) (scripted_cloud (quiet "ACTIVE"))
    5 args s = (s, Exc (UnboundLocalError "key")).
Proof.
  intros args s.
  apply (main_deploy_needs_mappings_and_key parse_seconds (λ s, s) ∅ (λ _ _, hangs)
           (scripted_cloud (quiet "ACTIVE")) 5 args s).
  right. reflexivity.
Defined.

(** ** Names *)

Lemma add_suffix_pattern (r : Runner.t) (base : string) :
  add_suffix r base = base +:+ add_suffix r "".
Proof.
  unfold add_suffix. destruct (Str.truthy (Runner.suffix r)); [reflexivity|].
  by rewrite append_empty_r.
Qed.

(** X2.  Names round-trip between provisioning and reconciliation: the name
    [add_suffix] gives to a base name ends with the pattern
    [detect_existing_resources] looks for, and stripping the pattern gives
    the base name back, whatever the suffix of the run (none included). *)
Theorem add_suffix_strip_suffix (r : Runner.t) (base : string) :
  let suffix := add_suffix r "" in
  Str.endswith (add_suffix r base) suffix = true ∧
  strip_suffix suffix (add_suffix r base) = base.
Proof.
  intros suffix.
  assert (H : base_name_of suffix (add_suffix r base) = Some base).
  { apply base_name_of_spec. apply add_suffix_pattern. }
  unfold base_name_of in H.
  destruct (Str.endswith (add_suffix r base) suffix); [|discriminate].
  split; [reflexivity | congruence].
Qed.

(** ** Waiting for a volume *)

(** X3.  [build] has no way out of its wait for the volume: as long as the
    cloud reports a status other than [available] (a volume in [error]
    stays there), every pass sleeps three seconds and asks again.  After
    any number of passes the loop is still running. *)
Theorem wait_volume_never_gives_up (cloud : Cloud) (fuel : nat) (volume : ApiVolume)
    (s : State) :
  volume_never_available cloud → vol_status volume ≠ "available" →
  ∃ s',
    wait_volume cloud fuel volume s = (s', OutOfFuel) ∧
    clock s' = clock s + 3 * Z.of_nat fuel ∧
    length (calls s') = (length (calls s) + fuel)%nat.
Proof.
  intros Hcloud. revert volume s.
  induction fuel as [|fuel IH]; intros volume s Hstatus; cbn [wait_volume];
    apply String.eqb_neq in Hstatus as Hne; rewrite Hne.
  - exists s. split; [reflexivity|]. split; lia.
  - rewrite bind_run. unfold time_sleep. change (3 <? 0)%Z with false. cbv iota.
    rewrite modify_run. cbv beta iota. rewrite bind_run, request_run.
    destruct (Hcloud (calls (set_clock (clock s + 3) s)) (vol_id volume))
      as (volume' & Hget & Hstatus').
    rewrite Hget. cbv beta iota.
    destruct (IH volume' (set_calls (calls (set_clock (clock s + 3) s) ++
                                      [call_of (cinder_volumes_get (vol_id volume))])
                            (set_clock (clock s + 3) s)) Hstatus')
      as (s' & Hrun & Hclock & Hcalls).
    exists s'. split; [exact Hrun|]. simpl in Hclock, Hcalls.
    rewrite length_app in Hcalls. simpl in Hcalls. split; lia.
Qed.

Lemma volume_never_available_volumes_fail :
  volume_never_available (scripted_cloud volumes_fail).
Proof. intros h uuid. eexists. split; [reflexivity | discriminate]. Qed.

Lemma wait_volume_never_gives_up_witness :
  ∃ s',
    wait_volume (scripted_cloud volumes_fail) 1000
      {| vol_id := "vol-7"; vol_status := "creating" |}
      (initial_state (DeploymentRunner None None None 0)) = (s', OutOfFuel) ∧
    clock s' = 3000.
Proof.
  destruct (wait_volume_never_gives_up (scripted_cloud volumes_fail) 1000
              {| vol_id := "vol-7"; vol_status := "creating" |}
              (initial_state (DeploymentRunner None None None 0)))
    as (s' & Hrun & Hclock & _).
  - apply volume_never_available_volumes_fail.
  - discriminate.
  - exists s'. split; [exact Hrun | exact Hclock].
Defined.

(** ** Shell steps: the command line *)

(** X4.  A remote step aimed at a node none of whose ports has a floating
    IP does not fail: the [floating_ip] property gives [None] and the
    format puts the text [None] where the address goes, so the command
    connects to a host called [None]. *)
Theorem shell_step_cmd_remote_without_floating_ip (details : ShellDetails)
    (env_prefix key : string) (n : Node.t) (s : State) :
  sd_type details = Some "remote" → sd_node details = Some key →
  Runner.nodes (dr s) !! key = Some n →
  Forall no_floating_ip (Node.ports n) →
  shell_step_cmd details env_prefix s =
  (s, Val ("ssh -o StrictHostKeyChecking=no ubuntu@None " +:+
           dquote +:+ env_prefix +:+ " bash" +:+ dquote)).
Proof.
  intros Htype Hnode Hn Hports. unfold shell_step_cmd.
  rewrite Htype, bool_decide_eq_true_2 by reflexivity.
  rewrite Hnode. simpl field. rewrite bind_run, ret_run. cbv beta iota.
  rewrite bind_run, get_node_run, Hn. cbv beta iota.
  unfold Node_floating_ip.
  rewrite (proj2 (first_floating_ip_None _) Hports). reflexivity.
Qed.

Lemma shell_step_cmd_remote_without_floating_ip_witness :
  let s := initial_state
             (Runner.set_nodes
                {[ "web" := Node_init "web_env1" empty_info
                              (DeploymentRunner (Some "env1") None None 0) None None ]}
                (DeploymentRunner (Some "env1") None None 0)) in
  shell_step_cmd (remote_step "web") "ALL_NODES=web_env1 " s =
  (s, Val ("ssh -o StrictHostKeyChecking=no ubuntu@None " +:+
           dquote +:+ "ALL_NODES=web_env1 " +:+ " bash" +:+ dquote)).
Proof.
  intros s.
  apply (shell_step_cmd_remote_without_floating_ip (remote_step "web")
           "ALL_NODES=web_env1 " "web"
           (Node_init "web_env1" empty_info
              (DeploymentRunner (Some "env1") None None 0) None None) s).
  - reflexivity.
  - reflexivity.
  - reflexivity.
  - constructor.
Defined.

Lemma build_env_prefix_environment (pipes_quote : string → string)
    (environ : gmap string string) (environment : list (string * string))
    (env_prefix : string) (s : State) :
  ∃ r,
    for_fold environment env_prefix
      (λ '(key, value) env_prefix,
         value ← match value with
                 | String "$"%char name =>
                     match environ !! name with
                     | Some v => mret v
                     | None => raise (TypeError "'NoneType' object is not iterable")
                     end
                 | _ => mret value
                 end;
         mret (env_prefix +:+ add_environment pipes_quote key value)) s = (s, r) ∧
    (Forall (resolvable environ) environment → ∃ prefix, r = Val prefix) ∧
    (∀ before key name after,
       environment = before ++ (key, String "$"%char name) :: after →
       Forall (resolvable environ) before → environ !! name = None →
       r = Exc (TypeError "'NoneType' object is not iterable")).
Proof.
  revert env_prefix. induction environment as [|[key value] environment IH];
    intros env_prefix.
  - exists (Val env_prefix). split; [reflexivity|]. split; [eauto|].
    intros [|] ? ? ? ?; discriminate.
  - rewrite for_fold_cons, bind_run, bind_run.
    assert (Hplain : ∀ v, (mret v : M string) s = (s, Val v)) by done.
    destruct value as [|c name].
    + rewrite Hplain. cbv beta iota. rewrite ret_run. cbv beta iota.
      destruct (IH (env_prefix +:+ add_environment pipes_quote key ""))
        as (r & Hrun & Hok & Hbad).
      exists r. split; [exact Hrun|]. split.
      * intros H. apply Forall_cons in H as [_ H]. by apply Hok.
      * intros [|? before] key' name' after Heq Hbefore Hname;
          injection Heq as ? ?; [discriminate|]. subst.
        apply Forall_cons in Hbefore as [_ Hbefore]. by eapply Hbad.
    + destruct (Ascii.eqb_spec c "$"%char) as [->|Hc].
      * destruct (environ !! name) as [v|] eqn:Hv.
        -- rewrite Hplain. cbv beta iota. rewrite ret_run. cbv beta iota.
           destruct (IH (env_prefix +:+ add_environment pipes_quote key v))
             as (r & Hrun & Hok & Hbad).
           exists r. split; [exact Hrun|]. split.
           ++ intros H. apply Forall_cons in H as [_ H]. by apply Hok.
           ++ intros [|? before] key' name' after Heq Hbefore Hname;
                injection Heq as ? ?; subst; [congruence|].
              apply Forall_cons in Hbefore as [_ Hbefore]. by eapply Hbad.
        -- exists (Exc (TypeError "'NoneType' object is not iterable")).
           split; [reflexivity|]. split.
           ++ intros H. apply Forall_cons in H as [H _].
              unfold resolvable in H. simpl in H. rewrite Hv in H. by destruct H.
           ++ intros [|? before] key' name' after Heq Hbefore Hname;
                injection Heq as ? ?; subst; [reflexivity|].
              apply Forall_cons in Hbefore as [H _].
              unfold resolvable in H. simpl in H. rewrite Hv in H. by destruct H.
      * assert (Hval : match String c name with
                       | String "$"%char name =>
                           match environ !! name with
                           | Some v => mret v
                           | None => raise (TypeError "'NoneType' object is not iterable")
                           end
                       | _ => mret (String c name)
                       end s = (s, Val (String c name))).
        { destruct c as [[] [] [] [] [] [] [] []]; try reflexivity. by destruct Hc. }
        rewrite Hval. cbv beta iota. rewrite ret_run. cbv beta iota.
        destruct (IH (env_prefix +:+ add_environment pipes_quote key (String c name)))
          as (r & Hrun & Hok & Hbad).
        exists r. split; [exact Hrun|]. split.
        -- intros H. apply Forall_cons in H as [_ H]. by apply Hok.
        -- intros [|? before] key' name' after Heq Hbefore Hname;
             injection Heq as ? ?; subst; [by destruct Hc|].
           apply Forall_cons in Hbefore as [_ Hbefore]. by eapply Hbad.
Qed.

(** X5.  An [environment] value that starts with a dollar sign is looked up
    in the environment of the process.  When every such variable is set,
    [build_env_prefix] returns a prefix; at the first one that is not set
    it raises the [TypeError] of quoting [None], instead of passing an
    empty value.  In both cases it changes nothing. *)
Theorem build_env_prefix_unset_variable (pipes_quote : string → string)
    (environ : gmap string string) (details : ShellDetails)
    (environment : list (string * string)) (s : State) :
  sd_environment details = Some environment →
  (Forall (resolvable environ) environment →
   ∃ prefix, build_env_prefix pipes_quote environ details s = (s, Val prefix)) ∧
  (∀ before key name after,
     environment = before ++ (key, String "$"%char name) :: after →
     Forall (resolvable environ) before → environ !! name = None →
     build_env_prefix pipes_quote environ details s =
     (s, Exc (TypeError "'NoneType' object is not iterable"))).
Proof.
  intros Henv. unfold build_env_prefix. rewrite bind_run, gets_run. cbv beta iota.
  rewrite Henv. cbn [default from_option]. unfold id.
  match goal with
  | |- context [for_fold environment ?p _ s] =>
      destruct (build_env_prefix_environment pipes_quote environ environment p s)
        as (r & Hrun & Hok & Hbad)
  end.
  rewrite Hrun. split.
  - intros H. destruct (Hok H) as [prefix ->]. eauto.
  - intros before key name after Heq Hbefore Hname.
    by rewrite (Hbad before key name after Heq Hbefore Hname).
Qed.

Lemma build_env_prefix_unset_variable_witness :
  let s := initial_state (DeploymentRunner (Some "env1") None None 0) in
  build_env_prefix (λ s, s) {[ "HOME" := "/root" ]}
    (step_with_environment [("home", "$HOME"); ("token", "$TOKEN"); ("n", "3")]) s =
  (s, Exc (TypeError "'NoneType' object is not iterable")).
Proof.
  intros s.
  apply (proj2 (build_env_prefix_unset_variable (λ s, s) {[ "HOME" := "/root" ]}
                  (step_with_environment
                     [("home", "$HOME"); ("token", "$TOKEN"); ("n", "3")])
                  [("home", "$HOME"); ("token", "$TOKEN"); ("n", "3")] s eq_refl)
           [("home", "$HOME")] "token" "TOKEN" [("n", "3")]).
  - reflexivity.
  - constructor; [|constructor]. unfold resolvable. simpl. eauto.
  - reflexivity.
Defined.

(** ** Shell steps: how many attempts *)

Section ShellAttempts.
Context (parse_time : string → Z) (pipes_quote : string → string).
Context (environ : gmap string string) (proc : nat → string → Proc).

(** Building the command line reads the runner and changes nothing. *)
Lemma build_env_prefix_state (details : ShellDetails) (s : State) :
  (build_env_prefix pipes_quote environ details s).1 = s.
Proof.
  unfold build_env_prefix. rewrite bind_run, gets_run. cbv beta iota.
  match goal with
  | |- context [for_fold ?l ?p _ s] =>
      destruct (build_env_prefix_environment pipes_quote environ l p s) as (r & Hrun & _)
  end.
  by rewrite Hrun.
Qed.

Lemma shell_step_cmd_state (details : ShellDetails) (env_prefix : string) (s : State) :
  (shell_step_cmd details env_prefix s).1 = s.
Proof.
  unfold shell_step_cmd. case_bool_decide; [|reflexivity].
  rewrite bind_run. destruct (sd_node details) as [key|]; [|reflexivity].
  simpl field. rewrite ret_run. cbv beta iota.
  rewrite bind_run, get_node_run.
  destruct (Runner.nodes (dr s) !! key); reflexivity.
Qed.

(** The start of [shell_step], up to the loop. *)
Lemma shell_step_run (fuel : nat) (details : ShellDetails) (cmd : string) (s : State) :
  (env_prefix ← build_env_prefix pipes_quote environ details;
   shell_step_cmd details env_prefix) s = (s, Val cmd) →
  shell_step parse_time pipes_quote environ proc fuel details s =
  shell_step_loop proc fuel fuel details cmd
    (if Str.truthy (sd_total_timeout details)
     then Some (clock s + parse_time (default "" (sd_total_timeout details)))
     else None)
    (if Str.truthy (sd_timeout details)
     then Some (parse_time (default "" (sd_timeout details)))
     else None)
    (if Str.truthy (sd_retry_delay details)
     then parse_time (default "" (sd_retry_delay details))
     else 0) s.
Proof.
  intros Hcmd. unfold shell_step. rewrite bind_run in Hcmd. rewrite bind_run.
  pose proof (build_env_prefix_state details s) as Hstate.
  destruct (build_env_prefix pipes_quote environ details s) as [s1 [env_prefix| |]];
    simpl in Hstate; subst s1; [|discriminate..].
  rewrite bind_run, Hcmd. cbv beta iota.
  rewrite bind_run. unfold time_time. rewrite gets_run. reflexivity.
Qed.

End ShellAttempts.

(** X6.  Without [retry-if-fails] a shell step is one run of its command:
    one process is started, and what that run gives (success, failure or
    timeout) is what the step gives. *)
Theorem shell_step_one_attempt_without_retry
    (parse_time : string → Z) (pipes_quote : string → string)
    (environ : gmap string string) (proc : nat → string → Proc)
    (fuel : nat) (details : ShellDetails) (cmd real_cmd : string) (s : State) :
  sd_retry_if_fails details = false →
  sd_cmd details = Some real_cmd →
  (env_prefix ← build_env_prefix pipes_quote environ details;
   shell_step_cmd details env_prefix) s = (s, Val cmd) →
  ∃ deadline,
    let once := run_cmd_once proc (S fuel) cmd real_cmd deadline s in
    shell_step parse_time pipes_quote environ proc (S fuel) details s =
      (once.1, match once.2 with
               | Val _ => Val ()
               | Exc e => Exc e
               | OutOfFuel => OutOfFuel
               end) ∧
    spawned once.1 = S (spawned s).
Proof.
  intros Hrif Hreal Hcmd.
  rewrite (shell_step_run parse_time pipes_quote environ proc _ _ _ _ Hcmd).
  eexists. apply (shell_step_loop_no_retry proc fuel (S fuel) details cmd real_cmd);
    assumption.
Qed.

Lemma shell_step_one_attempt_without_retry_witness :
  ∃ deadline,
    let s := initial_state (DeploymentRunner None None None 0) in
    let once := run_cmd_once (λ _ _, hangs) 50 "ALL_NODES=  bash" "make install"
                  deadline s in
    shell_step parse_seconds (λ s, s) ∅ (λ _ _, hangs) 50 (patient_step false) s =
      (once.1, match once.2 with
               | Val _ => Val ()
               | Exc e => Exc e
               | OutOfFuel => OutOfFuel
               end) ∧
    spawned once.1 = 1%nat.
Proof.
  apply (shell_step_one_attempt_without_retry parse_seconds (λ s, s) ∅ (λ _ _, hangs) 49
           (patient_step false) "ALL_NODES=  bash" "make install"
           (initial_state (DeploymentRunner None None None 0))).
  - reflexivity.
  - reflexivity.
  - vm_compute. reflexivity.
Defined.

Section ShellFailures.
Context (proc : nat → string → Proc).
Hypothesis proc_fails : fails_at_once proc.

(** A run of a command that cannot be started: one pass of the loop, one
    process, the failure. *)
Lemma run_cmd_once_fails_at_once (fuel : nat) (shell_cmd real_cmd : string)
    (deadline : option Z) (s : State) :
  ∃ stdin,
    run_cmd_once proc (S fuel) shell_cmd real_cmd deadline s =
    (set_clock (clock s + 1) (set_spawned (S (spawned s)) s),
     Exc (CommandFailedException stdin)).
Proof.
  unfold run_cmd_once. rewrite bind_run, gets_run. cbv beta iota.
  rewrite bind_run, modify_run. cbv beta iota. cbn [run_cmd_once_loop].
  rewrite bind_run, modify_run. cbv beta iota.
  destruct (proc_fails (spawned s) shell_cmd) as [Hexit Hcode].
  unfold has_exited. rewrite Hexit. simpl.
  apply Z.eqb_neq in Hcode. rewrite Hcode. eexists. reflexivity.
Qed.

Lemma shell_step_loop_retries (attempts fuel : nat) (details : ShellDetails)
    (cmd real_cmd : string) (overall_deadline individual_exec_limit : option Z)
    (retry_delay : Z) (s : State) :
  sd_retry_if_fails details = true → sd_cmd details = Some real_cmd →
  (0 ≤ retry_delay)%Z →
  ∃ s',
    shell_step_loop proc attempts (S fuel) details cmd overall_deadline
      individual_exec_limit retry_delay s = (s', OutOfFuel) ∧
    spawned s' = (spawned s + attempts)%nat ∧
    clock s' = clock s + Z.of_nat attempts * (1 + retry_delay).
Proof.
  intros Hrif Hreal Hdelay. revert s.
  induction attempts as [|attempts IH]; intros s; cbn [shell_step_loop].
  - exists s. split; [reflexivity|]. split; lia.
  - rewrite bind_run.
    destruct (run_cmd_once_fails_at_once fuel cmd real_cmd
                (attempt_deadline (clock s) individual_exec_limit overall_deadline) s)
      as [stdin Hrun].
    rewrite (shell_step_attempt_failed proc _ _ _ _ _ _ _ _ _ _ Hreal Hrun), Hrif.
    rewrite bind_run. unfold time_sleep.
    destruct (retry_delay <? 0)%Z eqn:Hneg; [lia|].
    rewrite modify_run. cbv beta iota. rewrite ret_run. cbv beta iota.
    match goal with
    | |- context [shell_step_loop _ _ _ _ _ _ _ _ ?s1] =>
        destruct (IH s1) as (s' & Hloop & Hspawned & Hclock)
    end.
    exists s'. split; [exact Hloop|]. simpl in Hspawned, Hclock. split; lia.
Qed.

End ShellFailures.



(** ** Reading the cleanup log back: lines that stop the teardown *)

Lemma for_each_app {A} (l l' : list A) (body : A → M unit) (s : State) :
  for_each (l ++ l') body s =
  match for_each l body s with
  | (s', Val _) => for_each l' body s'
  | r => r
  end.
Proof.
  revert s. induction l as [|x l IH]; intros s; [reflexivity|].
  simpl app. rewrite !for_each_cons, !bind_run.
  destruct (body x s) as [s1 [[]| |]]; [apply IH | reflexivity..].
Qed.

(** The lines of a text that starts with the lines of a ledger. *)
Lemma readlines_go_ledger_text (ledger : list (Kind * string)) (rest : string) :
  Forall plain_entry ledger →
  Str.readlines_go [] (Str.chars (ledger_text ledger +:+ rest)) =
  ((λ entry, ledger_line (kind_name entry.1) entry.2) <$> ledger) ++
  Str.readlines_go [] (Str.chars rest).
Proof.
  induction 1 as [|[kind uuid] ledger Hentry _ IH]; [reflexivity|].
  cbn [ledger_text foldr fst snd]. fold (ledger_text ledger).
  rewrite append_assoc, ledger_line_chars, readlines_go_line.
  - rewrite IH. cbn [fmap list_fmap fst snd reverse]. simpl app. f_equal.
    unfold ledger_line, nl. simpl (reverse [] ++ _).
    rewrite of_chars_app, String.string_of_list_ascii_of_string.
    rewrite !append_assoc. reflexivity.
  - unfold plain_entry, plain_id in Hentry. simpl in Hentry.
    apply andb_prop in Hentry as [Hu _]. apply andb_prop in Hu as [_ Hu].
    pose proof (kind_name_plain kind) as Hk. unfold plain_kind in Hk.
    apply andb_prop in Hk as [_ Hk].
    rewrite !chars_app, !forallb_app. rewrite Hu. simpl.
    rewrite andb_true_r. apply forallb_forall. intros c Hc.
    apply (proj1 (forallb_forall _ _) Hk) in Hc.
    apply andb_prop in Hc as [Hc _]. exact Hc.
Qed.

(** The loop of [cleanup] over lines of a ledger. *)
Lemma cleanup_entries (cloud : Cloud) (entries : list (Kind * string)) (s : State) :
  Forall plain_entry entries →
  for_each ((λ entry, Str.strip (ledger_line (kind_name entry.1) entry.2)) <$> entries)
    (λ l,
       match Str.split_colon_space l with
       | [resource_type; uuid] =>
           func ← getattr_delete cloud resource_type;
           try_except (func uuid) (λ _, true) (λ e, print (Exn_str e))
       | [] | [_] => raise (ValueError "need more than 1 value to unpack")
       | _ => raise (ValueError "too many values to unpack")
       end) s =
  (foldl (attempt_delete cloud) s entries, Val ()).
Proof.
  revert s. induction entries as [|entry entries IH]; intros s Hentries; [reflexivity|].
  apply Forall_cons in Hentries as [Hentry Hentries].
  rewrite fmap_cons, for_each_cons, bind_run.
  rewrite (cleanup_entry cloud entry s Hentry). simpl. apply IH, Hentries.
Qed.

Lemma getattr_delete_unknown (cloud : Cloud) (resource_type : string) (s : State) :
  resource_type ∉ kind_name <$> all_kinds →
  getattr_delete cloud resource_type s =
  (s, Exc (AttributeError ("delete_" +:+ resource_type))).
Proof.
  intros Hnot. unfold getattr_delete.
  repeat match goal with
  | |- context [String.eqb resource_type ?name] =>
      destruct (String.eqb_spec resource_type name) as [->|_];
        [exfalso; apply Hnot; apply (bool_decide_unpack _); vm_compute; exact I|]
  end.
  reflexivity.
Qed.

(** The body of the loop of [cleanup] on a line that stops it. *)
Lemma cleanup_line_failure (cloud : Cloud) (line : string) (e : Exn) (s : State) :
  line_failure line = Some e →
  match Str.split_colon_space (Str.strip line) with
  | [resource_type; uuid] =>
      func ← getattr_delete cloud resource_type;
      try_except (func uuid) (λ _, true) (λ e, print (Exn_str e))
  | [] | [_] => raise (ValueError "need more than 1 value to unpack")
  | _ => raise (ValueError "too many values to unpack")
  end s = (s, Exc e).
Proof.
  unfold line_failure.
  destruct (Str.split_colon_space (Str.strip line)) as [|a [|b [|c l]]];
    try (by intros [= <-]).
  case_bool_decide as Hin; [discriminate|]. intros [= <-].
  rewrite bind_run, (getattr_delete_unknown cloud a s Hin). reflexivity.
Qed.

(** X8.  [cleanup] splits a line and looks up its delete method outside
    the [try]: a line that does not split in two at colon-space (a blank
    line, for one) or whose resource type has no [delete_] method raises
    and ends the teardown there.  The entries written after that line have
    been deleted by then; the entries written before it are left in the
    cloud. *)
Theorem cleanup_stops_at_unreadable_line (cloud : Cloud)
    (before after : list (Kind * string)) (line : string) (e : Exn) (s : State) :
  Forall plain_entry before → Forall plain_entry after →
  one_line line = true → line_failure (line +:+ nl) = Some e →
  cleanup cloud (ledger_text before +:+ line +:+ nl +:+ ledger_text after) s =
  (teardown_spec cloud after (set_dr (DeploymentRunner None None None 0) s), Exc e).
Proof.
  intros Hbefore Hafter Hline Hfail. unfold cleanup, teardown_spec.
  rewrite bind_run, modify_run. unfold Str.readlines.
  rewrite (readlines_go_ledger_text _ _ Hbefore).
  replace (Str.chars (line +:+ nl +:+ ledger_text after))
    with (Str.chars line ++ Str.newline :: Str.chars (ledger_text after))
    by (unfold nl; rewrite !chars_app; reflexivity).
  rewrite (readlines_go_line _ _ _ Hline).
  pose proof (readlines_ledger_text _ Hafter) as Hlines.
  unfold Str.readlines in Hlines. rewrite Hlines.
  simpl (reverse [] ++ _).
  replace (Str.of_chars (Str.chars line ++ [Str.newline])) with (line +:+ nl)
    by (unfold nl; rewrite of_chars_app, String.string_of_list_ascii_of_string;
        reflexivity).
  rewrite fmap_app, fmap_cons, reverse_app, reverse_cons, <- !fmap_reverse.
  rewrite <- !list_fmap_compose, <- app_assoc. unfold compose.
  rewrite for_each_app.
  rewrite (cleanup_entries cloud (reverse after) _ (proj2 (Forall_reverse _ _) Hafter)).
  simpl app. rewrite for_each_cons, bind_run.
  rewrite (cleanup_line_failure cloud _ e _ Hfail). reflexivity.
Qed.

(** A blank line in the middle of the log: the server is deleted, the key
    pair and the network are not. *)
Lemma cleanup_stops_at_unreadable_line_witness :
  let s := initial_state (DeploymentRunner None None None 0) in
  let run := cleanup (scripted_cloud (quiet "ACTIVE"))
               (ledger_text [(kind_keypair, "pubkey_env1"); (kind_network, "net-1")] +:+
                "" +:+ nl +:+ ledger_text [(kind_server, "srv-9")]) s in
  run.2 = Exc (ValueError "need more than 1 value to unpack") ∧
  calls run.1 = [call_of (nova_servers_delete (Some "srv-9"))].
Proof.
  intros s run. subst run.
  rewrite (cleanup_stops_at_unreadable_line (scripted_cloud (quiet "ACTIVE"))
             [(kind_keypair, "pubkey_env1"); (kind_network, "net-1")]
             [(kind_server, "srv-9")] ""
             (ValueError "need more than 1 value to unpack") s).
  - split; reflexivity.
  - repeat constructor.
  - repeat constructor.
  - reflexivity.
  - reflexivity.
Defined.

(** ** What [clean] asks of the cloud *)

(** A loop of requests without a reply, on a cloud that answers. *)
Lemma for_each_request (cloud : Cloud) {A} (q : A → Req unit) (l : list A) (s : State) :
  obliging cloud →
  for_each l (λ x, request cloud (q x)) s =
  (set_calls (calls s ++ ((λ x, call_of (q x)) <$> l)) s, Val ()).
Proof.
  intros Hcloud. revert s. induction l as [|x l IH]; intros s.
  - simpl. rewrite app_nil_r, set_calls_id. reflexivity.
  - rewrite for_each_cons, bind_run, request_run.
    destruct (Hcloud unit (calls s) (q x)) as [[] Hx]. rewrite Hx. cbv beta iota.
    rewrite IH. simpl. rewrite <- app_assoc. reflexivity.
Qed.



(** ** Polling the pending nodes *)

(** A poll of a node that has not shown the desired status asks the cloud
    once and keeps the status it is given. *)
Lemma Node_poll_asks (cloud : Cloud) (key desired_status : string) (n : Node.t)
    (server : ApiServer) (s : State) :
  Runner.nodes (dr s) !! key = Some n →
  Node.server_status n ≠ Some desired_status →
  cloud _ (calls s) (nova_servers_get (Node.server_id n)) = inr server →
  Node_poll cloud key desired_status s =
  (set_dr (Runner.set_nodes
             (<[key := Node.set_server_status (Some (srv_status server)) n]>
                (Runner.nodes (dr s))) (dr s))
     (set_calls (calls s ++ [call_of (nova_servers_get (Node.server_id n))]) s),
   Val (Some (srv_status server))).
Proof.
  intros Hn Hstatus Hserver. unfold Node_poll.
  rewrite bind_run, get_node_run, Hn. cbv beta iota.
  rewrite bool_decide_eq_true_2 by exact Hstatus.
  rewrite !bind_run, request_run, Hserver. cbv beta iota.
  rewrite modify_node_run. cbv beta iota.
  rewrite bind_run, get_node_run. simpl Runner.nodes.
  rewrite lookup_alter_eq, Hn. simpl. rewrite ret_run. f_equal.
  unfold set_dr. simpl. f_equal. unfold Runner.set_nodes. simpl. f_equal.
  apply map_eq. intros i. destruct (decide (i = key)) as [->|Hi].
  - by rewrite lookup_alter_eq, lookup_insert_eq, Hn.
  - by rewrite lookup_alter_ne, lookup_insert_ne.
Qed.

(** A poll of a node that has shown the desired status asks nothing. *)
Lemma Node_poll_cached (cloud : Cloud) (key desired_status : string) (n : Node.t)
    (s : State) :
  Runner.nodes (dr s) !! key = Some n →
  Node.server_status n = Some desired_status →
  Node_poll cloud key desired_status s = (s, Val (Some desired_status)).
Proof.
  intros Hn Hstatus. unfold Node_poll.
  rewrite bind_run, get_node_run, Hn. cbv beta iota.
  rewrite bool_decide_eq_false_2 by (intros H; by apply H).
  rewrite bind_run, ret_run. cbv beta iota.
  rewrite bind_run, get_node_run, Hn. cbv beta iota. by rewrite Hstatus.
Qed.

Section Building.
Context (cloud : Cloud) (fuel : nat) (pending : gset string).
Hypothesis cloud_building : servers_stay_building cloud.

(** The loop of [_poll_pending_nodes] over nodes that are still building:
    nothing is done with any of them. *)
Lemma poll_fold_building (l : list string) (done : gset string) (s : State) :
  (∀ name, name ∈ l → name ∈ pending) → pending_in pending s →
  ∃ s',
    for_fold l done (λ name done,
      state ← Node_poll cloud name "ACTIVE";
      if bool_decide (state = Some "ACTIVE") then mret ({[name]} ∪ done)
      else if bool_decide (state = Some "ERROR") then
        r ← gets dr;
        if bool_decide (Runner.retry_count r ≠ 0) then
          Node_clean cloud name;;
          n ← get_node name;
          if bool_decide (Node.attempts_left n ≠ 0)
          then Node_build cloud fuel name;; mret done
          else raise ProvisionFailedException
        else raise ProvisionFailedException
      else mret done) s = (s', Val done) ∧
    pending_in pending s' ∧ clock s' = clock s.
Proof.
  revert s. induction l as [|name l IH]; intros s Hl Hpending.
  - exists s. done.
  - rewrite for_fold_cons, bind_run, bind_run.
    destruct (Hpending name (Hl name (list_elem_of_here _ _))) as (n & Hn & Hstatus).
    destruct (cloud_building (calls s) (Node.server_id n))
      as (server & Hserver & Hactive & Herror).
    rewrite (Node_poll_asks cloud name "ACTIVE" n server s Hn Hstatus Hserver).
    cbv beta iota.
    rewrite bool_decide_eq_false_2 by congruence.
    rewrite bool_decide_eq_false_2 by congruence.
    rewrite ret_run. cbv beta iota.
    match goal with
    | |- context [for_fold l done _ ?s1] => destruct (IH s1) as (s' & Hrun & Hp & Hclock)
    end.
    + intros name' Hin. apply Hl. by apply list_elem_of_further.
    + intros name' Hin. simpl. destruct (decide (name' = name)) as [->|Hne].
      * rewrite lookup_insert_eq. eexists. split; [reflexivity|]. simpl. congruence.
      * rewrite lookup_insert_ne by done. by apply Hpending.
    + exists s'. split; [exact Hrun|]. split; [exact Hp | exact Hclock].
Qed.

Lemma poll_round_building (s : State) :
  pending_in pending s →
  ∃ s',
    _poll_pending_nodes cloud fuel pending s = (s', Val pending) ∧
    pending_in pending s' ∧ clock s' = clock s.
Proof.
  intros Hpending. unfold _poll_pending_nodes. rewrite bind_run.
  destruct (poll_fold_building (elements pending) ∅ s) as (s' & Hrun & Hp & Hclock);
    [by intros name ?%elem_of_elements | exact Hpending |].
  rewrite Hrun. cbv beta iota. rewrite ret_run, difference_empty_L. eauto.
Qed.

End Building.

(** X10.  The loop that ends [provision_step] has no way out for a server
    that stays in a state other than [ACTIVE] and [ERROR]: each round polls
    every pending node, finds none done, sleeps five seconds and goes
    round again.  After any number of rounds the loop is still running. *)
Theorem wait_pending_nodes_never_gives_up (cloud : Cloud) (rounds fuel : nat)
    (pending : gset string) (s : State) :
  servers_stay_building cloud → pending ≠ ∅ → pending_in pending s →
  ∃ s',
    wait_pending_nodes cloud rounds fuel pending s = (s', OutOfFuel) ∧
    clock s' = clock s + 5 * Z.of_nat rounds.
Proof.
  intros Hcloud Hne. revert s.
  induction rounds as [|rounds IH]; intros s Hpending; cbn [wait_pending_nodes].
  - exists s. split; [reflexivity | lia].
  - destruct (poll_round_building cloud fuel pending Hcloud s Hpending)
      as (s1 & Hround & Hpending1 & Hclock1).
    rewrite bind_run, Hround. cbv beta iota.
    rewrite bool_decide_eq_false_2 by exact Hne.
    rewrite bind_run. unfold time_sleep. change (5 <? 0)%Z with false. cbv iota.
    rewrite modify_run. cbv beta iota.
    destruct (IH (set_clock (clock s1 + 5) s1) Hpending1) as (s' & Hloop & Hclock).
    exists s'. split; [exact Hloop|]. simpl in Hclock. lia.
Qed.

Lemma wait_pending_nodes_never_gives_up_witness :
  ∃ s',
    wait_pending_nodes (scripted_cloud (quiet "BUILD")) 720 5 {[ "web"; "db" ]}
      two_nodes = (s', OutOfFuel) ∧
    clock s' = 3600.
Proof.
  destruct (wait_pending_nodes_never_gives_up (scripted_cloud (quiet "BUILD")) 720 5
              {[ "web"; "db" ]} two_nodes) as (s' & Hrun & Hclock).
  - intros h uuid. eexists. split; [reflexivity|]. split; discriminate.
  - apply (bool_decide_unpack _). vm_compute. exact I.
  - intros name Hin. apply elem_of_union in Hin as [Hin|Hin];
      apply elem_of_singleton in Hin as ->; eexists; (split; [reflexivity | discriminate]).
  - exists s'. split; [exact Hrun | exact Hclock].
Defined.

Section Active.
Context (cloud : Cloud) (fuel : nat) (pending : gset string).
Hypothesis cloud_active : servers_active cloud.

(** The loop of [_poll_pending_nodes] over nodes whose servers are active:
    every one of them is done. *)
Lemma poll_fold_active (l : list string) (done : gset string) (s : State) :
  (∀ name, name ∈ l → is_Some (Runner.nodes (dr s) !! name)) →
  ∃ s',
    for_fold l done (λ name done,
      state ← Node_poll cloud name "ACTIVE";
      if bool_decide (state = Some "ACTIVE") then mret ({[name]} ∪ done)
      else if bool_decide (state = Some "ERROR") then
        r ← gets dr;
        if bool_decide (Runner.retry_count r ≠ 0) then
          Node_clean cloud name;;
          n ← get_node name;
          if bool_decide (Node.attempts_left n ≠ 0)
          then Node_build cloud fuel name;; mret done
          else raise ProvisionFailedException
        else raise ProvisionFailedException
      else mret done) s = (s', Val (list_to_set l ∪ done)) ∧
    clock s' = clock s ∧ cleanup_file s' = cleanup_file s ∧
    dom (Runner.nodes (dr s')) = dom (Runner.nodes (dr s)) ∧
    (∀ name n, Runner.nodes (dr s) !! name = Some n →
       Node.server_status n = Some "ACTIVE" →
       Runner.nodes (dr s') !! name = Some n) ∧
    (∀ name, name ∈ l →
       ∃ n, Runner.nodes (dr s') !! name = Some n ∧
            Node.server_status n = Some "ACTIVE").
Proof.
  revert done s. induction l as [|name l IH]; intros done s Hl.
  - exists s. simpl. rewrite union_empty_l_L.
    repeat split; [done|]. intros name Hin. by apply elem_of_nil in Hin.
  - rewrite for_fold_cons, bind_run, bind_run.
    destruct (Hl name (list_elem_of_here _ _)) as [n Hn].
    assert (Hpoll : ∃ s1,
      Node_poll cloud name "ACTIVE" s = (s1, Val (Some "ACTIVE")) ∧
      clock s1 = clock s ∧ cleanup_file s1 = cleanup_file s ∧
      dom (Runner.nodes (dr s1)) = dom (Runner.nodes (dr s)) ∧
      (∀ name' n', Runner.nodes (dr s) !! name' = Some n' →
         Node.server_status n' = Some "ACTIVE" →
         Runner.nodes (dr s1) !! name' = Some n') ∧
      ∃ n1, Runner.nodes (dr s1) !! name = Some n1 ∧
            Node.server_status n1 = Some "ACTIVE").
    { destruct (decide (Node.server_status n = Some "ACTIVE")) as [Hactive|Hnot].
      - exists s. rewrite (Node_poll_cached cloud name "ACTIVE" n s Hn Hactive). eauto 10.
      - destruct (cloud_active (calls s) (Node.server_id n)) as (server & Hserver & Hst).
        rewrite (Node_poll_asks cloud name "ACTIVE" n server s Hn Hnot Hserver), Hst.
        eexists. split; [reflexivity|]. simpl.
        split; [reflexivity|]. split; [reflexivity|]. split; [|split].
        + rewrite dom_insert_L. apply subseteq_union_1_L, singleton_subseteq_l.
          by apply elem_of_dom_2 in Hn.
        + intros name' n' Hn' Hactive. destruct (decide (name' = name)) as [->|Hne].
          * congruence.
          * by rewrite lookup_insert_ne.
        + rewrite lookup_insert_eq. eauto. }
    destruct Hpoll as (s1 & -> & Hclock1 & Hfile1 & Hdom1 & Hkeep1 & n1 & Hn1 & Hactive1).
    cbv beta iota. rewrite bool_decide_eq_true_2 by reflexivity.
    rewrite ret_run. cbv beta iota.
    destruct (IH ({[name]} ∪ done) s1)
      as (s' & Hrun & Hclock & Hfile & Hdom & Hkeep & Hall).
    { intros name' Hin. apply elem_of_dom. rewrite Hdom1. apply elem_of_dom.
      apply Hl. by apply list_elem_of_further. }
    exists s'. split; [|split; [|split; [|split; [|split]]]].
    + rewrite Hrun. f_equal. f_equal. simpl.
      by rewrite (assoc_L (∪)), (comm_L (∪) (list_to_set l)).
    + lia.
    + congruence.
    + congruence.
    + intros name' n' Hn' Hactive. apply Hkeep; [|exact Hactive]. by apply Hkeep1.
    + intros name' Hin. apply elem_of_cons in Hin as [->|Hin]; [|by apply Hall].
      exists n1. split; [|exact Hactive1]. by apply Hkeep.
Qed.

End Active.

(** X11.  When every server polled is active, the loop that ends
    [provision_step] returns after a single round: every pending node is
    found done, the node keeps the status, and the loop does not sleep.
    A second wait for the same nodes does not ask the cloud about
    them again. *)
Theorem wait_pending_nodes_all_active (cloud : Cloud) (rounds fuel : nat)
    (pending : gset string) (s : State) :
  servers_active cloud →
  (∀ name, name ∈ pending → is_Some (Runner.nodes (dr s) !! name)) →
  ∃ s',
    wait_pending_nodes cloud (S rounds) fuel pending s = (s', Val ()) ∧
    clock s' = clock s ∧
    (∀ name, name ∈ pending →
       ∃ n, Runner.nodes (dr s') !! name = Some n ∧
            Node.server_status n = Some "ACTIVE") ∧
    wait_pending_nodes cloud (S rounds) fuel pending s' = (s', Val ()).
Proof.
  intros Hcloud Hnodes. cbn [wait_pending_nodes]. unfold _poll_pending_nodes.
  destruct (poll_fold_active cloud fuel Hcloud (elements pending) ∅ s)
    as (s' & Hrun & Hclock & _ & Hdom & _ & Hall).
  { intros name Hin. apply Hnodes. by apply elem_of_elements. }
  assert (Hdone : pending ∖ (list_to_set (elements pending) ∪ ∅) = (∅ : gset string)).
  { rewrite union_empty_r_L, list_to_set_elements_L. apply difference_diag_L. }
  rewrite !bind_run, Hrun. cbv beta iota. rewrite ret_run. cbv beta iota.
  rewrite Hdone, bool_decide_eq_true_2 by reflexivity.
  exists s'. split; [reflexivity|]. split; [exact Hclock|]. split.
  { intros name Hin. apply Hall. by apply elem_of_elements. }
  assert (Hagain : ∀ (l : list string) (done : gset string),
    (∀ name, name ∈ l → name ∈ pending) →
    for_fold l done (λ name done,
      state ← Node_poll cloud name "ACTIVE";
      if bool_decide (state = Some "ACTIVE") then mret ({[name]} ∪ done)
      else if bool_decide (state = Some "ERROR") then
        r ← gets dr;
        if bool_decide (Runner.retry_count r ≠ 0) then
          Node_clean cloud name;;
          n ← get_node name;
          if bool_decide (Node.attempts_left n ≠ 0)
          then Node_build cloud fuel name;; mret done
          else raise ProvisionFailedException
        else raise ProvisionFailedException
      else mret done) s' = (s', Val (list_to_set l ∪ done))).
  { clear Hrun. induction l as [|name l IH]; intros done Hl.
    - simpl. by rewrite union_empty_l_L.
    - rewrite for_fold_cons, bind_run, bind_run.
      destruct (Hall name) as (n & Hn & Hactive).
      { apply elem_of_elements, Hl, list_elem_of_here. }
      rewrite (Node_poll_cached cloud name "ACTIVE" n s' Hn Hactive). cbv beta iota.
      rewrite bool_decide_eq_true_2 by reflexivity. rewrite ret_run. cbv beta iota.
      rewrite IH by (intros name' Hin; apply Hl; by apply list_elem_of_further).
      f_equal. f_equal. simpl.
      by rewrite (assoc_L (∪)), (comm_L (∪) (list_to_set l)). }
  rewrite !bind_run, (Hagain (elements pending) ∅)
    by (by intros name ?%elem_of_elements).
  cbv beta iota. rewrite ret_run. cbv beta iota.
  by rewrite Hdone, bool_decide_eq_true_2.
Qed.

Lemma wait_pending_nodes_all_active_witness :
  ∃ s',
    wait_pending_nodes (scripted_cloud (quiet "ACTIVE")) 1 5 {[ "web"; "db" ]}
      two_nodes = (s', Val ()) ∧
    clock s' = 0.
Proof.
  destruct (wait_pending_nodes_all_active (scripted_cloud (quiet "ACTIVE")) 0 5
              {[ "web"; "db" ]} two_nodes) as (s' & Hrun & Hclock & _).
  - intros h uuid. eexists. split; reflexivity.
  - intros name Hin. apply elem_of_union in Hin as [Hin|Hin];
      apply elem_of_singleton in Hin as ->; eexists; reflexivity.
  - exists s'. split; [exact Hrun | exact Hclock].
Defined.

(** ** The retry budget, when it is negative *)

(** With attempts below zero the count never meets zero: every round cleans
    the node and builds it again. *)
Lemma wait_pending_nodes_rebuilds_forever (cloud : Cloud) (fuel : nat)
    (key name : string) (info : NodeInfo) (rest : Runner.t) (rounds : nat)
    (k : Z) (e : list Event) (s : State) :
  reliable cloud → volumes_settle cloud fuel → always_in_error cloud →
  buildable (Runner.secgroups rest) info →
  Runner.retry_count rest ≠ 0 → (k < 0)%Z → Inv key name info rest k e s →
  ∃ s',
    wait_pending_nodes cloud rounds fuel {[key]} s = (s', OutOfFuel) ∧
    Inv key name info rest (k - Z.of_nat rounds) (e ++ rebuilds rounds) s'.
Proof.
  intros Hreliable Hsettles Herror Hinfo Hretry. revert k e s.
  induction rounds as [|rounds IH]; intros k e s Hk HInv; cbn [wait_pending_nodes].
  - exists s. split; [reflexivity|]. unfold rebuilds. simpl. rewrite app_nil_r.
    replace (k - Z.of_nat 0) with k by lia. exact HInv.
  - destruct (round_rebuilds cloud fuel Hreliable Hsettles Herror key name info rest
                Hinfo k e s Hretry ltac:(lia) HInv) as (s1 & Hround & HInv1).
    rewrite bind_run, Hround. cbv beta iota.
    rewrite bool_decide_eq_false_2 by apply non_empty_singleton_L.
    destruct (returns_time_sleep key name info rest _ _ 5 ltac:(lia) s1 HInv1)
      as (s2 & [] & Hsleep & HInv2).
    rewrite bind_run, Hsleep.
    destruct (IH (k - 1) _ s2 ltac:(lia) HInv2) as (s' & Hloop & HInv').
    exists s'. split; [exact Hloop|].
    replace (k - Z.of_nat (S rounds)) with (k - 1 - Z.of_nat rounds) by lia.
    unfold rebuilds in *. cbn [replicate concat].
    rewrite <- !app_assoc in HInv'. exact HInv'.
Qed.

(** X12.  A negative [--retry-count] is a budget that never runs out.  The
    retry test is the truth of [retry_count] and the give-up test is
    [attempts_left] being zero; from [R + 1] with [R] negative the count
    only moves away from zero.  On a cloud that answers and reports the
    server in error at every poll, every round of the loop cleans the node
    and creates the server again: after any number of rounds the loop is
    still running, one more server asked for per round. *)
Theorem negative_retry_count_never_gives_up (cloud : Cloud) (rounds fuel : nat) (R : Z)
    (base_name : string) (node_info : NodeInfo)
    (keypair_name userdata : option string) (s0 : State) :
  reliable cloud → volumes_settle cloud fuel → always_in_error cloud →
  (R < 0)%Z → Runner.retry_count (dr s0) = R →
  Runner.nodes (dr s0) !! base_name = None →
  buildable (Runner.secgroups (dr s0)) node_info →
  let name := add_suffix (dr s0) base_name in
  ∃ s1 s2,
    _create_node cloud fuel base_name node_info keypair_name userdata s0 =
      (s1, Val (Some base_name)) ∧
    wait_pending_nodes cloud rounds fuel {[base_name]} s1 = (s2, OutOfFuel) ∧
    builds name (calls s2) = (builds name (calls s0) + (rounds + 1))%nat.
Proof.
  intros Hreliable Hsettles Herror HR Hretry Hfresh Hbuildable name.
  set (rest := Runner.set_nodes ∅ (dr s0)).
  set (node := Node_init name node_info (dr s0) keypair_name userdata).
  assert (Hinfo : buildable (Runner.secgroups rest) (Node.info node))
    by (by apply buildable_Node_init).
  set (s0' := set_dr (Runner.set_nodes (<[base_name := node]> (Runner.nodes (dr s0)))
                        (dr s0)) s0).
  assert (HInv0 : Inv base_name name (Node.info node) rest (R + 1)
                    (events name (calls s0)) s0').
  { split; [reflexivity|]. split; [|reflexivity].
    exists node. subst s0'. simpl. rewrite lookup_insert_eq.
    split; [reflexivity|]. repeat split; [simpl; lia | discriminate]. }
  destruct (returns_Node_build cloud fuel Hreliable Hsettles base_name name
              (Node.info node) rest Hinfo _ _ s0' HInv0) as (s1 & [] & Hbuild & HInv1).
  replace (R + 1 - 1) with R in HInv1 by lia.
  assert (Hcreate : _create_node cloud fuel base_name node_info keypair_name userdata s0 =
                    (s1, Val (Some base_name))).
  { unfold _create_node. rewrite bind_run, gets_run. cbv beta iota.
    rewrite Hfresh. rewrite bool_decide_eq_false_2 by (intros [? ?]; discriminate).
    rewrite bind_run. unfold modify_dr. rewrite modify_run. cbv beta iota.
    fold name node s0'. rewrite bind_run, Hbuild. reflexivity. }
  destruct (wait_pending_nodes_rebuilds_forever cloud fuel base_name name
              (Node.info node) rest rounds R (events name (calls s0) ++ [ev_build]) s1
              Hreliable Hsettles Herror Hinfo)
    as (s2 & Hloop & HInv2); [|exact HR | exact HInv1 |].
  { change (Runner.retry_count rest) with (Runner.retry_count (dr s0)). lia. }
  exists s1, s2. split; [exact Hcreate|]. split; [exact Hloop|].
  destruct HInv2 as (_ & _ & Hevents). unfold builds.
  rewrite Hevents, !filter_app, !length_app, builds_rebuilds. simpl. lia.
Qed.

(** With [--retry-count -1], a hundred rounds ask for the server a hundred
    and one times. *)
Lemma negative_retry_count_never_gives_up_witness :
  ∃ s1 s2,
    _create_node (scripted_cloud (quiet "ERROR")) 5 "web" web_info None None
      (initial_state (DeploymentRunner (Some "env1") None None (-1))) =
      (s1, Val (Some "web")) ∧
    wait_pending_nodes (scripted_cloud (quiet "ERROR")) 100 5 {["web"]} s1 =
      (s2, OutOfFuel) ∧
    builds "web_env1" (calls s2) = 101%nat.
Proof.
  destruct (negative_retry_count_never_gives_up (scripted_cloud (quiet "ERROR"))
              100 5 (-1) "web" web_info None None
              (initial_state (DeploymentRunner (Some "env1") None None (-1))))
    as (s1 & s2 & Hcreate & Hloop & Hbuilds).
  - apply reliable_quiet.
  - apply volumes_settle_quiet.
  - apply always_in_error_quiet.
  - lia.
  - reflexivity.
  - reflexivity.
  - apply buildable_web_info.
  - exists s1, s2. split; [exact Hcreate|]. split; [exact Hloop | exact Hbuilds].
Defined.

(** ** What a run writes to the cleanup file *)

Lemma ledger_text_app (a b : list (Kind * string)) :
  ledger_text (a ++ b) = ledger_text a +:+ ledger_text b.
Proof.
  induction a as [|entry a IH]; [reflexivity|].
  cbn [app ledger_text foldr]. fold (ledger_text (a ++ b)) (ledger_text a).
  by rewrite IH, append_assoc.
Qed.

Lemma ledger_grows_refl (s : State) : nodes_silent s → ledger_grows s s.
Proof.
  intros Hs. split; [reflexivity|]. split; [exact Hs|].
  exists []. split; [constructor|]. split; [by rewrite append_empty_r | done].
Qed.

Lemma ledger_grows_trans (s1 s2 s3 : State) :
  ledger_grows s1 s2 → ledger_grows s2 s3 → ledger_grows s1 s3.
Proof.
  intros (Hr1 & _ & e1 & Hk1 & Hf1 & Hn1) (Hr2 & Hs3 & e2 & Hk2 & Hf2 & Hn2).
  split; [congruence|]. split; [exact Hs3|].
  exists (e1 ++ e2). split; [by apply Forall_app|]. split.
  - by rewrite Hf2, Hf1, ledger_text_app, append_assoc.
  - intros Hnoop. rewrite Hn1 by exact Hnoop. rewrite Hn2 by congruence. reflexivity.
Qed.

(** A step that leaves the sinks and the file alone. *)
Lemma ledger_grows_same (s s' : State) :
  nodes_silent s' → Runner.record_resource (dr s') = Runner.record_resource (dr s) →
  cleanup_file s' = cleanup_file s → ledger_grows s s'.
Proof.
  intros Hs Hr Hf. split; [exact Hr|]. split; [exact Hs|].
  exists []. split; [constructor|]. split; [by rewrite append_empty_r | done].
Qed.

Lemma keeps_ledger_ret {A} (a : A) : keeps_ledger (mret a).
Proof. intros s Hs. by apply ledger_grows_refl. Qed.

Lemma keeps_ledger_raise {A} (e : Exn) : keeps_ledger (raise e : M A).
Proof. intros s Hs. by apply ledger_grows_refl. Qed.

Lemma keeps_ledger_out_of_fuel {A} : keeps_ledger (out_of_fuel : M A).
Proof. intros s Hs. by apply ledger_grows_refl. Qed.

Lemma keeps_ledger_gets {A} (f : State → A) : keeps_ledger (gets f).
Proof. intros s Hs. by apply ledger_grows_refl. Qed.

Lemma keeps_ledger_lift {A} (r : Exn + A) : keeps_ledger (lift r).
Proof. destruct r; [apply keeps_ledger_raise | apply keeps_ledger_ret]. Qed.

Lemma keeps_ledger_field {V} (k : string) (o : option V) : keeps_ledger (field k o).
Proof. destruct o; [apply keeps_ledger_ret | apply keeps_ledger_raise]. Qed.

Lemma keeps_ledger_subscript {V} (d : gmap string V) (k : string) :
  keeps_ledger (subscript d k).
Proof.
  unfold subscript. destruct (d !! k); [apply keeps_ledger_ret | apply keeps_ledger_raise].
Qed.

Lemma keeps_ledger_bind {A B} (m : M A) (f : A → M B) :
  keeps_ledger m → (∀ a, keeps_ledger (f a)) → keeps_ledger (m ≫= f).
Proof.
  intros Hm Hf s Hs. rewrite bind_run. specialize (Hm s Hs).
  destruct (m s) as [s1 [a| |]]; simpl in *; [|exact Hm..].
  eapply ledger_grows_trans; [exact Hm|]. apply Hf. apply Hm.
Qed.

Lemma keeps_ledger_try_except {A} (m : M A) (catches : Exn → bool) (h : Exn → M A) :
  keeps_ledger m → (∀ e, keeps_ledger (h e)) → keeps_ledger (try_except m catches h).
Proof.
  intros Hm Hh s Hs. unfold try_except. specialize (Hm s Hs).
  destruct (m s) as [s1 [a|e|]]; simpl in *; [exact Hm| |exact Hm].
  destruct (catches e); [|exact Hm].
  eapply ledger_grows_trans; [exact Hm|]. apply Hh. apply Hm.
Qed.

Lemma keeps_ledger_for_each {A} (l : list A) (body : A → M unit) :
  (∀ x, keeps_ledger (body x)) → keeps_ledger (for_each l body).
Proof.
  intros Hbody. induction l as [|x l IH]; [apply keeps_ledger_ret|].
  rewrite for_each_cons. apply keeps_ledger_bind; [apply Hbody | intros _; exact IH].
Qed.

Lemma keeps_ledger_for_fold {A B} (l : list A) (acc : B) (body : A → B → M B) :
  (∀ x acc, keeps_ledger (body x acc)) → keeps_ledger (for_fold l acc body).
Proof.
  intros Hbody. revert acc. induction l as [|x l IH]; intros acc;
    [apply keeps_ledger_ret|].
  rewrite for_fold_cons. apply keeps_ledger_bind; [apply Hbody | intros acc'; apply IH].
Qed.

Lemma keeps_ledger_list_comp {A B} (l : list A) (f : A → M B) :
  (∀ x, keeps_ledger (f x)) → keeps_ledger (list_comp l f).
Proof.
  intros Hf. induction l as [|x l IH]; [apply keeps_ledger_ret|].
  rewrite list_comp_cons. apply keeps_ledger_bind; [apply Hf|].
  intros y. apply keeps_ledger_bind; [exact IH | intros ys; apply keeps_ledger_ret].
Qed.

Lemma keeps_ledger_modify (f : State → State) :
  (∀ s, nodes_silent s →
     nodes_silent (f s) ∧
     Runner.record_resource (dr (f s)) = Runner.record_resource (dr s) ∧
     cleanup_file (f s) = cleanup_file s) →
  keeps_ledger (modify f).
Proof.
  intros Hf s Hs. destruct (Hf s Hs) as (? & ? & ?). by apply ledger_grows_same.
Qed.

Lemma keeps_ledger_request (cloud : Cloud) {A} (q : Req A) :
  keeps_ledger (request cloud q).
Proof. intros s Hs. rewrite request_state. by apply ledger_grows_same. Qed.

Lemma keeps_ledger_modify_node (key : string) (f : Node.t → Node.t) :
  (∀ n, Node.record_resource (f n) = Node.record_resource n) →
  keeps_ledger (modify_node key f).
Proof.
  intros Hf. apply keeps_ledger_modify. intros s Hs. split; [|done].
  intros key' n'. simpl. destruct (decide (key' = key)) as [->|Hne].
  - rewrite lookup_alter_eq. destruct (Runner.nodes (dr s) !! key) as [n|] eqn:Hn;
      [|discriminate].
    intros [= <-]. rewrite Hf. by eapply Hs.
  - rewrite lookup_alter_ne by done. apply Hs.
Qed.

Lemma keeps_ledger_set_networks (f : Runner.t → gmap string string) :
  keeps_ledger (modify_dr (λ r, Runner.set_networks (f r) r)).
Proof. apply keeps_ledger_modify. done. Qed.

Lemma keeps_ledger_set_secgroups (f : Runner.t → gmap string string) :
  keeps_ledger (modify_dr (λ r, Runner.set_secgroups (f r) r)).
Proof. apply keeps_ledger_modify. done. Qed.

(** A node enters the table as [Node.__init__] makes it. *)
Lemma keeps_ledger_new_node (key : string) (node : Runner.t → Node.t) :
  (∀ r, Node.record_resource (node r) = sink_noop) →
  keeps_ledger (modify_dr (λ r, Runner.set_nodes (<[key := node r]> (Runner.nodes r)) r)).
Proof.
  intros Hnode. apply keeps_ledger_modify. intros s Hs. split; [|done].
  intros key' n'. simpl. destruct (decide (key' = key)) as [->|Hne].
  - rewrite lookup_insert_eq. intros [= <-]. apply Hnode.
  - rewrite lookup_insert_ne by done. apply Hs.
Qed.

Lemma keeps_ledger_time_sleep (d : Z) : keeps_ledger (time_sleep d).
Proof.
  unfold time_sleep. destruct (d <? 0)%Z; [apply keeps_ledger_raise|].
  by apply keeps_ledger_modify.
Qed.

Lemma keeps_ledger_print (line : string) : keeps_ledger (print line).
Proof. by apply keeps_ledger_modify. Qed.

(** The runner records a line of a recorded kind, or nothing. *)
Lemma keeps_ledger_runner_record_resource (kind : Kind) (id : string) :
  kind ∈ recorded_kinds →
  keeps_ledger (runner_record_resource (kind_name kind) id).
Proof.
  intros Hkind s Hs. rewrite runner_record_resource_run. simpl.
  destruct (Runner.record_resource (dr s)) eqn:Hsink; [by apply ledger_grows_refl|].
  split; [done|]. split; [exact Hs|].
  exists [(kind, id)]. split; [constructor; [exact Hkind | constructor]|]. split.
  - simpl. by rewrite append_empty_r.
  - rewrite Hsink. discriminate.
Qed.

(** A node records nothing. *)
Lemma keeps_ledger_node_record_resource (key type_ id : string) :
  keeps_ledger (node_record_resource key type_ id).
Proof.
  intros s Hs. unfold node_record_resource. rewrite bind_run, get_node_run.
  destruct (Runner.nodes (dr s) !! key) as [n|] eqn:Hn; [|by apply ledger_grows_refl].
  cbv beta iota. rewrite (Hs key n Hn). by apply ledger_grows_refl.
Qed.

Lemma keeps_ledger_get_node (key : string) : keeps_ledger (get_node key).
Proof. intros s Hs. rewrite get_node_run. by apply ledger_grows_refl. Qed.

Create HintDb ledger discriminated.
#[local] Hint Resolve keeps_ledger_ret keeps_ledger_raise keeps_ledger_out_of_fuel
  keeps_ledger_gets keeps_ledger_lift keeps_ledger_field keeps_ledger_subscript
  keeps_ledger_request keeps_ledger_set_networks keeps_ledger_set_secgroups
  keeps_ledger_time_sleep keeps_ledger_print keeps_ledger_node_record_resource
  keeps_ledger_get_node : ledger.

(** One step through a computation: a sequence, a loop, a choice, or a
    computation that is known. *)
Ltac ledger_step :=
  match goal with
  | |- keeps_ledger (mbind _ _) => apply keeps_ledger_bind; [|intros ?]
  | |- keeps_ledger (for_each _ _) => apply keeps_ledger_for_each; intros ?
  | |- keeps_ledger (for_fold _ _ _) => apply keeps_ledger_for_fold; intros ? ?
  | |- keeps_ledger (list_comp _ _) => apply keeps_ledger_list_comp; intros ?
  | |- keeps_ledger (try_except _ _ _) => apply keeps_ledger_try_except; [|intros ?]
  | |- keeps_ledger (modify_node _ _) =>
      apply keeps_ledger_modify_node; intros ?; reflexivity
  | |- keeps_ledger (runner_record_resource _ _) =>
      first [ apply (keeps_ledger_runner_record_resource kind_keypair)
            | apply (keeps_ledger_runner_record_resource kind_network)
            | apply (keeps_ledger_runner_record_resource kind_subnet)
            | apply (keeps_ledger_runner_record_resource kind_secgroup)
            | apply (keeps_ledger_runner_record_resource kind_secgroup_rule)
            | apply (keeps_ledger_runner_record_resource kind_port)
            | apply (keeps_ledger_runner_record_resource kind_floatingip)
            | apply (keeps_ledger_runner_record_resource kind_server) ];
      apply (bool_decide_unpack _); vm_compute; exact I
  | |- keeps_ledger (if ?b then _ else _) => destruct b
  | |- keeps_ledger (match ?x with _ => _ end) => destruct x
  | |- keeps_ledger ((match ?x with _ => _ end) _) => destruct x; cbv beta
  | |- keeps_ledger _ => solve [auto with ledger]
  end.

Ltac ledger := repeat ledger_step.

Lemma keeps_ledger_map_network (network : string) : keeps_ledger (_map_network network).
Proof. unfold _map_network. ledger. Qed.

Lemma keeps_ledger_delete_subnet_fixed_ips (cloud : Cloud) (uuid : string) (port : ApiPort)
    (fixed_ips : list ApiFixedIp) (router_found : bool) :
  keeps_ledger (delete_subnet_fixed_ips cloud uuid port fixed_ips router_found).
Proof. induction fixed_ips as [|fixed_ip rest IH]; simpl; ledger. Qed.

#[local] Hint Resolve keeps_ledger_map_network keeps_ledger_delete_subnet_fixed_ips
  : ledger.

Lemma keeps_ledger_delete_subnet (cloud : Cloud) (uuid : string) :
  keeps_ledger (delete_subnet cloud uuid).
Proof. unfold delete_subnet. ledger. Qed.

Lemma keeps_ledger_create_port (cloud : Cloud) (name network : string)
    (secgroups : list string) :
  keeps_ledger (create_port cloud name network secgroups).
Proof. unfold create_port. ledger. Qed.

Lemma keeps_ledger_create_keypair (cloud : Cloud) (name keydata : string) :
  keeps_ledger (create_keypair cloud name keydata).
Proof. unfold create_keypair. ledger. Qed.

Lemma keeps_ledger_associate_floating_ip (cloud : Cloud) (port_id fip_id : string) :
  keeps_ledger (associate_floating_ip cloud port_id fip_id).
Proof. unfold associate_floating_ip. ledger. Qed.

Lemma keeps_ledger_create_floating_ip (cloud : Cloud) :
  keeps_ledger (create_floating_ip cloud).
Proof. unfold create_floating_ip, find_floating_network. ledger. Qed.

Lemma keeps_ledger_create_network (cloud : Cloud) (name : string) (info : NetworkInfo) :
  keeps_ledger (create_network cloud name info).
Proof. unfold create_network. ledger. Qed.

Lemma keeps_ledger_create_security_group (cloud : Cloud) (base_name : string)
    (info : option (list RuleSpec)) :
  keeps_ledger (create_security_group cloud base_name info).
Proof. unfold create_security_group. ledger. Qed.

#[local] Hint Resolve keeps_ledger_associate_floating_ip : ledger.
#[local] Hint Resolve keeps_ledger_create_port keeps_ledger_create_keypair
  keeps_ledger_create_floating_ip keeps_ledger_create_network
  keeps_ledger_create_security_group : ledger.

Lemma keeps_ledger_Node_poll (cloud : Cloud) (key desired_status : string) :
  keeps_ledger (Node_poll cloud key desired_status).
Proof. unfold Node_poll. ledger. Qed.

Lemma keeps_ledger_Node_clean (cloud : Cloud) (key : string) :
  keeps_ledger (Node_clean cloud key).
Proof. unfold Node_clean, delete_floatingip, delete_port, delete_server. ledger. Qed.

Lemma keeps_ledger_Node_create_nics_from (cloud : Cloud) (key : string) (eth_idx : nat)
    (networks : list Attachment) (nics : list string) :
  keeps_ledger (Node_create_nics_from cloud key eth_idx networks nics).
Proof.
  revert eth_idx nics. induction networks as [|network rest IH]; intros eth_idx nics;
    cbn [Node_create_nics_from]; ledger.
Qed.

Lemma keeps_ledger_wait_volume (cloud : Cloud) (fuel : nat) (volume : ApiVolume) :
  keeps_ledger (wait_volume cloud fuel volume).
Proof.
  revert volume. induction fuel as [|fuel IH]; intros volume; simpl; ledger.
Qed.

#[local] Hint Resolve keeps_ledger_Node_poll keeps_ledger_Node_clean
  keeps_ledger_Node_create_nics_from keeps_ledger_wait_volume : ledger.

Lemma keeps_ledger_Node_build (cloud : Cloud) (fuel : nat) (key : string) :
  keeps_ledger (Node_build cloud fuel key).
Proof. unfold Node_build, Node_create_nics. ledger. Qed.

#[local] Hint Resolve keeps_ledger_Node_build : ledger.

Lemma keeps_ledger_create_node (cloud : Cloud) (fuel : nat) (base_name : string)
    (node_info : NodeInfo)
    (keypair_name userdata : option string) :
  keeps_ledger (_create_node cloud fuel base_name node_info keypair_name userdata).
Proof.
  intros s Hs. unfold _create_node. rewrite bind_run, gets_run. cbv beta iota.
  case_bool_decide; [by apply ledger_grows_refl|].
  assert (Hk : keeps_ledger
    (modify_dr (λ r, Runner.set_nodes
                       (<[base_name := Node_init (add_suffix r base_name) node_info r
                                         keypair_name userdata]> (Runner.nodes r)) r);;
     Node_build cloud fuel base_name;; mret (Some base_name))).
  { ledger. apply (keeps_ledger_new_node base_name (λ r, Node_init _ _ r _ _)).
    reflexivity. }
  exact (Hk s Hs).
Qed.

Lemma keeps_ledger_poll_pending_nodes (cloud : Cloud) (fuel : nat)
    (pending_nodes : gset string) :
  keeps_ledger (_poll_pending_nodes cloud fuel pending_nodes).
Proof. unfold _poll_pending_nodes. ledger. Qed.

#[local] Hint Resolve keeps_ledger_create_node keeps_ledger_poll_pending_nodes : ledger.

Lemma keeps_ledger_wait_pending_nodes (cloud : Cloud) (rounds fuel : nat)
    (pending_nodes : gset string) :
  keeps_ledger (wait_pending_nodes cloud rounds fuel pending_nodes).
Proof.
  revert pending_nodes. induction rounds as [|rounds IH]; intros pending_nodes;
    cbn [wait_pending_nodes]; ledger.
Qed.

#[local] Hint Resolve keeps_ledger_wait_pending_nodes : ledger.

Lemma keeps_ledger_provision_step (cloud : Cloud) (fuel : nat)
    (details : ProvisionDetails) :
  keeps_ledger (provision_step cloud fuel details).
Proof. unfold provision_step. ledger. Qed.

(** Reconciliation: every node it adopts is a new [Node]. *)
Lemma keeps_ledger_detect_existing_resources (cloud : Cloud) :
  keeps_ledger (detect_existing_resources cloud).
Proof.
  unfold detect_existing_resources, detect_network, detect_port, detect_floatingip,
    detect_secgroup, detect_server, detect_address.
  ledger.
  apply (keeps_ledger_new_node _ (λ r, Node_init _ _ r _ _)). reflexivity.
Qed.

Lemma keeps_ledger_build_env_prefix (pipes_quote : string → string)
    (environ : gmap string string) (details : ShellDetails) :
  keeps_ledger (build_env_prefix pipes_quote environ details).
Proof.
  intros s Hs. rewrite build_env_prefix_state. by apply ledger_grows_refl.
Qed.

Lemma keeps_ledger_shell_step_cmd (details : ShellDetails) (env_prefix : string) :
  keeps_ledger (shell_step_cmd details env_prefix).
Proof. intros s Hs. rewrite shell_step_cmd_state. by apply ledger_grows_refl. Qed.

Lemma keeps_ledger_tick : keeps_ledger (modify (λ s, set_clock (clock s + 1) s)).
Proof. by apply keeps_ledger_modify. Qed.

Lemma keeps_ledger_set_spawned (n : nat) : keeps_ledger (modify (set_spawned n)).
Proof. by apply keeps_ledger_modify. Qed.

#[local] Hint Resolve keeps_ledger_build_env_prefix keeps_ledger_shell_step_cmd
  keeps_ledger_tick keeps_ledger_set_spawned : ledger.

Lemma keeps_ledger_run_cmd_once_loop (fuel : nat) (p : Proc) (polls : nat)
    (deadline : option Z) :
  keeps_ledger (run_cmd_once_loop fuel p polls deadline).
Proof.
  revert polls. induction fuel as [|fuel IH]; intros polls; simpl; unfold time_time;
    ledger.
Qed.

#[local] Hint Resolve keeps_ledger_run_cmd_once_loop : ledger.

Lemma keeps_ledger_run_cmd_once (proc : nat → string → Proc) (fuel : nat)
    (shell_cmd real_cmd : string) (deadline : option Z) :
  keeps_ledger (run_cmd_once proc fuel shell_cmd real_cmd deadline).
Proof. unfold run_cmd_once. ledger. Qed.

#[local] Hint Resolve keeps_ledger_run_cmd_once : ledger.

Lemma keeps_ledger_shell_step_attempt (proc : nat → string → Proc) (fuel : nat)
    (details : ShellDetails) (cmd : string)
    (overall_deadline individual_exec_limit : option Z) (retry_delay : Z) :
  keeps_ledger (shell_step_attempt proc fuel details cmd overall_deadline
                  individual_exec_limit retry_delay).
Proof. unfold shell_step_attempt, time_time. ledger. Qed.

#[local] Hint Resolve keeps_ledger_shell_step_attempt : ledger.

Lemma keeps_ledger_shell_step_loop (proc : nat → string → Proc) (attempts fuel : nat)
    (details : ShellDetails) (cmd : string)
    (overall_deadline individual_exec_limit : option Z) (retry_delay : Z) :
  keeps_ledger (shell_step_loop proc attempts fuel details cmd overall_deadline
                  individual_exec_limit retry_delay).
Proof. induction attempts as [|attempts IH]; simpl; ledger. Qed.

#[local] Hint Resolve keeps_ledger_shell_step_loop : ledger.

Lemma keeps_ledger_shell_step (parse_time : string → Z) (pipes_quote : string → string)
    (environ : gmap string string) (proc : nat → string → Proc)
    (fuel : nat) (details : ShellDetails) :
  keeps_ledger (shell_step parse_time pipes_quote environ proc fuel details).
Proof. unfold shell_step, time_time. ledger. Qed.

#[local] Hint Resolve keeps_ledger_shell_step keeps_ledger_provision_step : ledger.

Lemma keeps_ledger_deploy (parse_time : string → Z) (pipes_quote : string → string)
    (environ : gmap string string) (proc : nat → string → Proc)
    (cloud : Cloud) (fuel : nat) (steps : list Step) :
  keeps_ledger (deploy parse_time pipes_quote environ proc cloud fuel steps).
Proof. unfold deploy. ledger. Qed.



(** X14.  [provision_step] records the key pair whether or not it created
    it: when the cloud answers the creation with a conflict, because a key
    pair of that name exists already, the conflict is swallowed and the
    line is written all the same, first of the lines of the step.  A
    teardown from that file deletes a key pair the run did not create. *)
Theorem provision_step_records_existing_keypair (cloud : Cloud) (fuel : nat)
    (details : ProvisionDetails) (key msg : string) (s : State) :
  nodes_silent s →
  Runner.record_resource (dr s) = sink_cleanup_file →
  Runner.key (dr s) = Some key → key ≠ "" →
  cloud unit (calls s) (nova_keypairs_create (add_suffix (dr s) "pubkey") key) =
    inl (NovaConflict msg) →
  ∃ entries,
    cleanup_file (provision_step cloud fuel details s).1 =
    cleanup_file s +:+
    ledger_text ((kind_keypair, add_suffix (dr s) "pubkey") :: entries).
Proof.
  intros Hs Hsink Hkey Hne Hconflict. unfold provision_step.
  rewrite bind_run, gets_run. cbv beta iota.
  rewrite Hkey. cbn [Str.truthy default from_option id].
  apply String.eqb_neq in Hne. rewrite Hne. cbn [negb].
  rewrite !bind_run.
  unfold create_keypair at 1, try_except. rewrite request_run, Hconflict.
  cbn [is_NovaConflict]. rewrite ret_run. cbv beta iota.
  rewrite bind_run, runner_record_resource_run. cbn [dr set_calls]. rewrite Hsink.
  cbv beta iota. rewrite ret_run. cbv beta iota.
  match goal with
  | |- context [(?m ?s2).1] =>
      assert (Hk : keeps_ledger m) by ledger;
      destruct (Hk s2 Hs) as (_ & _ & entries & _ & Hfile & _)
  end.
  exists entries. rewrite Hfile. simpl.
  fold (ledger_text entries). by rewrite !append_assoc.
Qed.

Lemma provision_step_records_existing_keypair_witness :
  ∃ entries,
    cleanup_file
      (provision_step (scripted_cloud keypair_exists) 5
         {| pd_stack := web_stack; pd_userdata := None |} recording_start).1 =
    ledger_text ((kind_keypair, "pubkey_env1") :: entries).
Proof.
  apply (provision_step_records_existing_keypair (scripted_cloud keypair_exists) 5
           {| pd_stack := web_stack; pd_userdata := None |} "ssh-rsa AAAA"
           "Key pair 'pubkey_env1' already exists." recording_start).
  - intros key n. unfold recording_start. simpl. by rewrite lookup_empty.
  - reflexivity.
  - reflexivity.
  - discriminate.
  - reflexivity.
Defined.

(** ** Provisioning what is there already *)

(** A loop whose every pass does nothing. *)
Lemma for_each_idle {A} (l : list A) (body : A → M unit) (s : State) :
  (∀ x, x ∈ l → body x s = (s, Val ())) → for_each l body s = (s, Val ()).
Proof.
  induction l as [|x l IH]; intros Hbody; [reflexivity|].
  rewrite for_each_cons, bind_run, (Hbody x (list_elem_of_here _ _)).
  apply IH. intros y Hy. apply Hbody. by apply list_elem_of_further.
Qed.

Lemma for_fold_idle {A B} (l : list A) (acc : B) (body : A → B → M B) (s : State) :
  (∀ x acc, x ∈ l → body x acc s = (s, Val acc)) →
  for_fold l acc body s = (s, Val acc).
Proof.
  induction l as [|x l IH]; intros Hbody; [reflexivity|].
  rewrite for_fold_cons, bind_run, (Hbody x acc (list_elem_of_here _ _)).
  apply IH. intros y acc' Hy. apply Hbody. by apply list_elem_of_further.
Qed.

(** The start of [provision_step]: the key pair, when the runner has a
    key.  It leaves the runner as it is. *)
Lemma provision_step_keypair (cloud : Cloud) {A} (k : option string → M A) (s : State) :
  ∃ s1,
    dr s1 = dr s ∧ clock s1 = clock s ∧
    calls s1 = calls s ++ keypair_request (dr s) ∧
    ((∃ keypair_name,
        ((if Str.truthy (Runner.key (dr s)) then
            create_keypair cloud (add_suffix (dr s) "pubkey")
              (default "" (Runner.key (dr s)));;
            runner_record_resource "keypair" (add_suffix (dr s) "pubkey");;
            mret (Some (add_suffix (dr s) "pubkey"))
          else mret None) ≫= k) s = k keypair_name s1) ∨
     (∃ e,
        ((if Str.truthy (Runner.key (dr s)) then
            create_keypair cloud (add_suffix (dr s) "pubkey")
              (default "" (Runner.key (dr s)));;
            runner_record_resource "keypair" (add_suffix (dr s) "pubkey");;
            mret (Some (add_suffix (dr s) "pubkey"))
          else mret None) ≫= k) s = (s1, Exc e) ∧
        cloud unit (calls s)
          (nova_keypairs_create (add_suffix (dr s) "pubkey")
             (default "" (Runner.key (dr s)))) = inl e)).
Proof.
  unfold keypair_request. destruct (Str.truthy (Runner.key (dr s))).
  - rewrite !bind_run. unfold create_keypair, try_except. rewrite request_run.
    destruct (cloud unit (calls s) _) as [e|[]] eqn:Hcloud.
    + destruct (is_NovaConflict e) eqn:Hconflict.
      * rewrite ret_run. cbv beta iota. rewrite bind_run, runner_record_resource_run.
        cbv beta iota. rewrite ret_run. cbv beta iota.
        eexists. split; [|split; [|split; [|left; eexists; reflexivity]]].
        -- by destruct (Runner.record_resource _).
        -- by destruct (Runner.record_resource _).
        -- by destruct (Runner.record_resource _).
      * eexists. split; [|split; [|split; [|right; eexists; split; [reflexivity|done]]]];
          reflexivity.
    + cbv beta iota. rewrite bind_run, runner_record_resource_run.
      cbv beta iota. rewrite ret_run. cbv beta iota.
      eexists. split; [|split; [|split; [|left; eexists; reflexivity]]].
      * by destruct (Runner.record_resource _).
      * by destruct (Runner.record_resource _).
      * by destruct (Runner.record_resource _).
  - exists s. rewrite app_nil_r, bind_run, ret_run.
    split; [done|]. split; [done|]. split; [done|]. left. by eexists.
Qed.

(** A node that is in the table is not created again. *)
Lemma create_node_known (cloud : Cloud) (fuel : nat) (base_name : string)
    (node_info : NodeInfo) (keypair_name userdata : option string) (s : State) :
  is_Some (Runner.nodes (dr s) !! base_name) →
  _create_node cloud fuel base_name node_info keypair_name userdata s = (s, Val None).
Proof.
  intros Hknown. unfold _create_node. rewrite bind_run, gets_run. cbv beta iota.
  by rewrite bool_decide_eq_true_2.
Qed.

(** X15.  A stack whose networks, security groups and nodes (every replica
    of a numbered node) are all in the tables of the runner is provisioned
    without creating anything: apart from the creation of the key pair,
    when the runner has a key, [provision_step] asks nothing of the cloud,
    does not wait, and leaves the runner as it is. *)
Theorem provision_step_nothing_to_do (cloud : Cloud) (fuel : nat)
    (details : ProvisionDetails) (s : State) :
  provisioned (dr s) (pd_stack details) →
  ∃ s' r,
    provision_step cloud (S fuel) details s = (s', r) ∧
    dr s' = dr s ∧ clock s' = clock s ∧
    calls s' = calls s ++ keypair_request (dr s) ∧
    (r = Val () ∨
     ∃ e, r = Exc e ∧
          cloud unit (calls s)
            (nova_keypairs_create (add_suffix (dr s) "pubkey")
               (default "" (Runner.key (dr s)))) = inl e).
Proof.
  intros (networks & securitygroups & nodes & Hnetworks & Hsecgroups & Hnodes &
          Hn & Hg & Hv).
  unfold provision_step. rewrite bind_run, gets_run. cbv beta iota.
  match goal with
  | |- context [mbind ?k _ s] =>
      destruct (provision_step_keypair cloud k s)
        as (s1 & Hdr & Hclock & Hcalls & [[keypair_name Hrun]|(e & Hrun & He)]);
      rewrite Hrun
  end; [|exists s1, (Exc e); eauto 10].
  exists s1, (Val ()). split; [|by eauto]. cbv beta.
  rewrite Hnetworks, Hsecgroups, Hnodes. simpl field.
  rewrite bind_run, ret_run. cbv beta iota. rewrite bind_run.
  rewrite for_each_idle; cycle 1.
  { intros [name info] Hin. rewrite bind_run, gets_run. cbv beta iota.
    rewrite Hdr, bool_decide_eq_true_2; [reflexivity|].
    by apply (proj1 (Forall_forall _ _) Hn (name, info)). }
  cbv beta iota. rewrite bind_run, ret_run. cbv beta iota. rewrite bind_run.
  rewrite for_each_idle; cycle 1.
  { intros [name info] Hin. rewrite bind_run, gets_run. cbv beta iota.
    rewrite Hdr, bool_decide_eq_true_2; [reflexivity|].
    by apply (proj1 (Forall_forall _ _) Hg (name, info)). }
  cbv beta iota. rewrite bind_run, ret_run. cbv beta iota. rewrite bind_run.
  rewrite for_fold_idle; cycle 1.
  { intros [name info] pending Hin.
    pose proof (proj1 (Forall_forall _ _) Hv (name, info) Hin) as Hknown.
    unfold node_known in Hknown. cbn [fst snd] in Hknown.
    destruct (info_number info) as [count|].
    - rewrite bind_run.
      rewrite (for_fold_idle (seqZ 1 count) (without_number info, pending)).
      + reflexivity.
      + intros idx [info' pending'] Hidx. rewrite bind_run.
        rewrite create_node_known by (rewrite Hdr; by apply Hknown).
        cbv beta iota. rewrite bind_run, gets_run. reflexivity.
    - rewrite bind_run, create_node_known by (by rewrite Hdr). reflexivity. }
  cbv beta iota. cbn [wait_pending_nodes]. unfold _poll_pending_nodes.
  rewrite elements_empty. simpl for_fold. rewrite !bind_run, !ret_run. cbv beta iota.
  rewrite ?ret_run. cbv beta iota. clear Hrun.
  rewrite bool_decide_eq_true_2 by apply difference_diag_L. reflexivity.
Qed.

Lemma provision_step_nothing_to_do_witness :
  provision_step (scripted_cloud (quiet "ACTIVE")) 1
    {| pd_stack := full_stack; pd_userdata := None |} full_runner =
  (full_runner, Val ()).
Proof.
  destruct (provision_step_nothing_to_do (scripted_cloud (quiet "ACTIVE")) 0
              {| pd_stack := full_stack; pd_userdata := None |} full_runner)
    as (s' & r & Hrun & _).
  - eexists _, _, _. split; [reflexivity|]. split; [reflexivity|].
    split; [reflexivity|]. split; [|split].
    + repeat constructor. simpl. by eexists.
    + repeat constructor. simpl. by eexists.
    + constructor; [by eexists|]. constructor; [|constructor].
      intros idx Hidx. unfold node_known. cbn [fst snd info_number] in *.
      apply elem_of_seqZ in Hidx.
      assert (idx = 1 ∨ idx = 2) as [->| ->] by lia; by eexists.
  - vm_compute. reflexivity.
Defined.

(** X16.  [provision_step] reads the [networks] section of the stack by
    subscript: a stack without one raises [KeyError] before any network,
    security group or node is looked at.  By then the key pair has been
    asked for (and recorded), when the runner has a key; nothing else has
    been asked of the cloud. *)
Theorem provision_step_needs_networks_section (cloud : Cloud) (fuel : nat)
    (details : ProvisionDetails) (s : State) :
  stack_networks (pd_stack details) = None →
  ∃ s' e,
    provision_step cloud fuel details s = (s', Exc e) ∧
    calls s' = calls s ++ keypair_request (dr s) ∧
    (e = KeyError "networks" ∨
     cloud unit (calls s)
       (nova_keypairs_create (add_suffix (dr s) "pubkey")
          (default "" (Runner.key (dr s)))) = inl e).
Proof.
  intros Hnetworks. unfold provision_step. rewrite bind_run, gets_run. cbv beta iota.
  match goal with
  | |- context [mbind ?k _ s] =>
      destruct (provision_step_keypair cloud k s)
        as (s1 & Hdr & Hclock & Hcalls & [[keypair_name Hrun]|(e & Hrun & He)]);
      rewrite Hrun
  end; [|exists s1, e; eauto].
  cbv beta. rewrite Hnetworks. exists s1, (KeyError "networks"). eauto.
Qed.

Lemma provision_step_needs_networks_section_witness :
  ∃ s',
    provision_step (scripted_cloud (quiet "ACTIVE")) 5
      {| pd_stack := {| stack_networks := None; stack_securitygroups := Some [];
                        stack_nodes := Some [("web", web_info)] |};
         pd_userdata := None |} recording_start = (s', Exc (KeyError "networks")) ∧
    calls s' = [call_of (nova_keypairs_create "pubkey_env1" "ssh-rsa AAAA")].
Proof.
  destruct (provision_step_needs_networks_section (scripted_cloud (quiet "ACTIVE")) 5
              {| pd_stack := {| stack_networks := None; stack_securitygroups := Some [];
                                stack_nodes := Some [("web", web_info)] |};
                 pd_userdata := None |} recording_start eq_refl)
    as (s' & e & Hrun & Hcalls & [->|He]).
  - exists s'. split; [exact Hrun | exact Hcalls].
  - discriminate He.
Defined.

(** ** Reconciliation: a port without an address *)

Lemma detect_ports_fail (nbid : gmap string string) (ports : list ApiPort) (s : State) :
  Exists (λ port, ap_fixed_ips port = []) ports →
  list_comp ports (detect_port nbid) s = (s, Exc IndexError).
Proof.
  induction ports as [|port ports IH]; intros Hbare; [by apply Exists_nil in Hbare|].
  rewrite list_comp_cons, bind_run. unfold detect_port at 1.
  destruct (ap_fixed_ips port) as [|fixed_ip ?] eqn:Hport; [reflexivity|].
  apply Exists_cons in Hbare as [Hbare|Hbare]; [congruence|].
  rewrite ret_run. cbv beta iota. rewrite bind_run, (IH Hbare). reflexivity.
Qed.

(** X17.  Reconciliation reads the first fixed IP of every port the cloud
    lists, before it looks at any name: one port without a fixed IP,
    whoever it belongs to, makes [detect_existing_resources] raise
    [IndexError] once the networks are through.  No security group and no
    server has been looked at by then. *)
Theorem detect_existing_resources_port_without_fixed_ip (cloud : Cloud) (L : Listing)
    (s : State) :
  lists cloud L →
  first_duplicate (add_suffix (dr s) "") (dom (Runner.networks (dr s)))
    (net_name <$> ls_networks L) = None →
  Exists (λ port, ap_fixed_ips port = []) (ls_ports L) →
  ∃ s',
    detect_existing_resources cloud s = (s', Exc IndexError) ∧
    calls s' = calls s ++ [call_of (neutron_list_networks false);
                           call_of (neutron_list_ports None)] ∧
    Runner.secgroups (dr s') = Runner.secgroups (dr s) ∧
    Runner.nodes (dr s') = Runner.nodes (dr s).
Proof.
  intros (Hnets & Hports & _) Hnodup Hbare. unfold detect_existing_resources.
  rewrite bind_run, gets_run. cbv beta iota.
  rewrite bind_run, request_run, Hnets. cbv beta iota.
  set (s1 := set_calls _ s).
  destruct (detect_networks_run (add_suffix (dr s) "") (ls_networks L) ∅ s1)
    as (table & nbid & Hrun & _).
  change (dr s1) with (dr s) in Hrun. rewrite Hnodup in Hrun.
  rewrite bind_run, Hrun. cbv beta iota.
  rewrite bind_run, request_run, Hports. cbv beta iota.
  rewrite bind_run, (detect_ports_fail _ _ _ Hbare).
  eexists. split; [reflexivity|]. simpl. rewrite <- app_assoc. done.
Qed.

Lemma detect_existing_resources_port_without_fixed_ip_witness :
  ∃ s',
    detect_existing_resources (scripted_cloud (listing_script with_bare_port))
      env1_start = (s', Exc IndexError) ∧
    Runner.nodes (dr s') = ∅.
Proof.
  destruct (detect_existing_resources_port_without_fixed_ip
              (scripted_cloud (listing_script with_bare_port)) with_bare_port env1_start)
    as (s' & Hrun & _ & _ & Hnodes).
  - apply lists_listing_script.
  - vm_compute. reflexivity.
  - apply Exists_cons_tl, Exists_cons_hd. reflexivity.
  - exists s'. split; [exact Hrun | exact Hnodes].
Defined.

(** ** What a build records, on any cloud that answers *)

Section BuildLedger.
Context (cloud : Cloud) (fuel : nat).
Hypothesis cloud_reliable : reliable cloud.
Hypothesis cloud_settles : volumes_settle cloud fuel.

Context (key name : string) (info : NodeInfo) (rest : Runner.t) (base : string).
Hypothesis info_buildable : buildable (Runner.secgroups rest) info.
Hypothesis rest_records : Runner.record_resource rest = sink_cleanup_file.

Abbreviation Rec := (Recorded key name info rest base).

Lemma recorded_request {A} (K C : list Kind) (q : Req A) :
  returns (Rec K C) (request cloud q)
    (λ a s, (∃ h, cloud A h q = inr a) ∧
            Rec K (C ++ option_list (creation (call_of q))) s).
Proof.
  intros s (Hrest & Hnode & Hfile & Hcalls).
  destruct (never_raises cloud cloud_reliable A (calls s) q) as [a Ha].
  rewrite request_run, Ha. eexists _, a. split; [reflexivity|].
  split; [eauto|]. split; [exact Hrest|]. split; [exact Hnode|].
  split; [exact Hfile|]. simpl. unfold creations in *.
  rewrite omap_app, Hcalls. simpl.
  destruct (creation (call_of q)); reflexivity.
Qed.

Lemma recorded_request_plain {A} (K C : list Kind) (q : Req A) :
  creation (call_of q) = None →
  returns (Rec K C) (request cloud q) (λ _, Rec K C).
Proof.
  intros Hplain. eapply returns_weaken; [apply recorded_request | done |].
  intros a s [_ H]. rewrite Hplain in H. simpl in H. by rewrite app_nil_r in H.
Qed.

Lemma recorded_modify_node (K C : list Kind) (f : Node.t → Node.t) :
  (∀ n, kept name info n → kept name info (f n)) →
  returns (Rec K C) (modify_node key f) (λ _, Rec K C).
Proof.
  intros Hf. apply returns_modify. intros s (Hrest & (n & Hn & Hkept) & Hfile & Hcalls).
  split; [exact Hrest|]. split; [|split; [exact Hfile | exact Hcalls]].
  exists (f n). simpl. rewrite lookup_alter_eq, Hn. split; [reflexivity | by apply Hf].
Qed.

Lemma recorded_get_node (K C : list Kind) :
  returns (Rec K C) (get_node key) (λ n s, kept name info n ∧ Rec K C s).
Proof.
  intros s HRec. pose proof HRec as (_ & (n & Hn & Hkept) & _).
  exists s, n. rewrite get_node_run, Hn. done.
Qed.

Lemma recorded_gets_dr (K C : list Kind) :
  returns (Rec K C) (gets dr) (λ r s, Runner.set_nodes ∅ r = rest ∧ Rec K C s).
Proof. apply returns_gets. intros s HRec. split; [apply HRec | exact HRec]. Qed.

(** The runner writes the line. *)
Lemma recorded_runner_record_resource (K C : list Kind) (kind : Kind) (id : string) :
  returns (Rec K C) (runner_record_resource (kind_name kind) id)
    (λ _, Rec (K ++ [kind]) C).
Proof.
  intros s (Hrest & Hnode & (entries & Hkinds & Hfile) & Hcalls).
  rewrite runner_record_resource_run. eexists _, (). split; [reflexivity|].
  assert (Hsink : Runner.record_resource (dr s) = sink_cleanup_file)
    by (by rewrite <- rest_records, <- Hrest).
  rewrite Hsink. split; [exact Hrest|]. split; [exact Hnode|]. split; [|exact Hcalls].
  exists (entries ++ [(kind, id)]). split.
  - by rewrite fmap_app, Hkinds.
  - simpl. rewrite Hfile, ledger_text_app, append_assoc. simpl.
    by rewrite append_empty_r.
Qed.

(** The node writes nothing. *)
Lemma recorded_node_record_resource (K C : list Kind) (type_ id : string) :
  returns (Rec K C) (node_record_resource key type_ id) (λ _, Rec K C).
Proof.
  unfold node_record_resource. eapply returns_bind; [apply recorded_get_node|].
  intros n s [(_ & _ & Hsink) HRec]. rewrite Hsink.
  eexists _, (). split; [reflexivity | exact HRec].
Qed.

Lemma recorded_time_sleep (K C : list Kind) (d : Z) :
  (0 ≤ d)%Z → returns (Rec K C) (time_sleep d) (λ _, Rec K C).
Proof.
  intros Hd. unfold time_sleep. destruct (d <? 0)%Z eqn:Hneg; [lia|].
  apply returns_modify. intros s HRec. exact HRec.
Qed.

Lemma recorded_create_port (K C : list Kind) (port_name network : string)
    (secgroups : list string) :
  returns (Rec K C) (create_port cloud port_name network secgroups)
    (λ _, Rec K (C ++ [kind_port])).
Proof.
  unfold create_port. eapply returns_bind.
  { unfold _map_network. eapply returns_bind; [apply recorded_gets_dr|].
    intros r. instantiate (1 := λ _, Rec K C).
    destruct (map_networks (Runner.mappings r) !! network);
      [|destruct (Runner.networks r !! network)];
      apply returns_ret; intros ? [_ H]; exact H. }
  intros network_id. eapply returns_bind; [apply recorded_request|].
  intros port s [[h Hport] HRec].
  apply (ports_have_fixed_ip cloud cloud_reliable) in Hport.
  destruct (ap_fixed_ips port) as [|fixed_ip ?]; [done|].
  eexists _, _. split; [reflexivity | exact HRec].
Qed.

Lemma recorded_create_floating_ip (K C : list Kind) :
  returns (Rec K C) (create_floating_ip cloud)
    (λ _, Rec (K ++ [kind_floatingip]) (C ++ [kind_floatingip])).
Proof.
  unfold create_floating_ip. eapply returns_bind.
  { unfold find_floating_network. eapply returns_bind; [apply recorded_request|].
    intros networks s [[h Hnetworks] HRec].
    apply (has_floating_network cloud cloud_reliable) in Hnetworks.
    destruct networks as [|network ?]; [done|].
    simpl in HRec. rewrite app_nil_r in HRec.
    instantiate (1 := λ _, Rec K C).
    eexists _, _. split; [reflexivity | exact HRec]. }
  intros floating_network.
  apply (returns_seq _ (Rec K (C ++ [kind_floatingip]))).
  { eapply returns_weaken; [apply recorded_request | done |]. by intros ? ? [_ ?]. }
  intros floatingip.
  apply (returns_seq _ (Rec (K ++ [kind_floatingip]) (C ++ [kind_floatingip])));
    [apply (recorded_runner_record_resource _ _ kind_floatingip)|].
  intros []. by apply returns_ret.
Qed.

Lemma kept_set_ports (ports : list Port) (n : Node.t) :
  kept name info n → kept name info (Node.set_ports ports n).
Proof. by intros (? & ? & ?). Qed.

Lemma kept_set_fip_ids (fip_ids : gset string) (n : Node.t) :
  kept name info n → kept name info (Node.set_fip_ids fip_ids n).
Proof. by intros (? & ? & ?). Qed.

Lemma kept_set_server_id (server_id : option string) (n : Node.t) :
  kept name info n → kept name info (Node.set_server_id server_id n).
Proof. by intros (? & ? & ?). Qed.

Lemma kept_set_flavor (flavor : option ApiFlavor) (n : Node.t) :
  kept name info n → kept name info (Node.set_flavor flavor n).
Proof. by intros (? & ? & ?). Qed.

Lemma kept_set_attempts_left (k : Z) (n : Node.t) :
  kept name info n → kept name info (Node.set_attempts_left k n).
Proof. by intros (? & ? & ?). Qed.

(** A port is created and recorded for each attachment, and a floating IP
    after it where the attachment asks for one. *)
Lemma recorded_create_nics (K C : list Kind) (networks : list Attachment)
    (eth_idx : nat) (nics : list string) :
  Forall (λ network, Forall (λ secgroup, is_Some (Runner.secgroups rest !! secgroup))
                            (default [] (att_securitygroups network))) networks →
  returns (Rec K C) (Node_create_nics_from cloud key eth_idx networks nics)
    (λ _, Rec (K ++ nic_kinds networks) (C ++ nic_kinds networks)).
Proof.
  intros Hnetworks. revert K C eth_idx nics.
  induction Hnetworks as [|network networks Hnetwork _ IH]; intros K C eth_idx nics.
  - apply returns_ret. intros s. unfold nic_kinds. simpl. by rewrite !app_nil_r.
  - cbn [Node_create_nics_from].
    apply (returns_seq _ (Rec K C)).
    { eapply returns_weaken; [apply recorded_get_node | done | by intros ? ? [_ ?]]. }
    intros n.
    apply (returns_bind _ (λ r s, Runner.set_nodes ∅ r = rest ∧ Rec K C s));
      [apply recorded_gets_dr|].
    intros r. cbv beta.
    apply (returns_seq _ (Rec K C)).
    { intros s [Hrest HRec]. apply (f_equal Runner.secgroups) in Hrest.
      simpl in Hrest. rewrite Hrest.
      revert s HRec. apply returns_list_comp. intros secgroup Hin.
      rewrite Forall_forall in Hnetwork. destruct (Hnetwork secgroup Hin) as [id Hid].
      unfold subscript. rewrite Hid. by apply returns_ret. }
    intros secgroups.
    apply (returns_seq _ (Rec K (C ++ [kind_port]))); [apply recorded_create_port|].
    intros port_info.
    apply (returns_seq _ (Rec (K ++ [kind_port]) (C ++ [kind_port])));
      [apply (recorded_runner_record_resource _ _ kind_port)|].
    intros [].
    apply (returns_seq _ (Rec (K ++ [kind_port]) (C ++ [kind_port]))).
    { apply recorded_modify_node. intros n'. apply kept_set_ports. }
    intros [].
    set (more := if att_assign_floating_ip network then [kind_floatingip] else []).
    apply (returns_seq _ (Rec ((K ++ [kind_port]) ++ more) ((C ++ [kind_port]) ++ more))).
    + subst more. destruct (att_assign_floating_ip network).
      * apply (returns_seq _ (Rec ((K ++ [kind_port]) ++ [kind_floatingip])
                                  ((C ++ [kind_port]) ++ [kind_floatingip])));
          [apply recorded_create_floating_ip|].
        intros [fip_id fip_address].
        apply (returns_seq _ (Rec ((K ++ [kind_port]) ++ [kind_floatingip])
                                  ((C ++ [kind_port]) ++ [kind_floatingip])));
          [by apply recorded_request_plain|].
        intros [].
        apply (returns_seq _ (Rec ((K ++ [kind_port]) ++ [kind_floatingip])
                                  ((C ++ [kind_port]) ++ [kind_floatingip]))).
        { apply recorded_modify_node. intros n'. apply kept_set_ports. }
        intros []. apply recorded_modify_node. intros n'. apply kept_set_fip_ids.
      * apply returns_ret. intros s. by rewrite !app_nil_r.
    + intros []. eapply returns_weaken; [apply IH | done |].
      intros a s. unfold nic_kinds. cbn [mbind list_bind].
      fold more. by rewrite <- !app_assoc.
Qed.

Lemma recorded_wait_volume (K C : list Kind) (volume : ApiVolume) :
  returns (Rec K C) (wait_volume cloud fuel volume) (λ _, Rec K C).
Proof.
  assert (Hany : ∀ fuel' volume s, Rec K C s →
            match wait_volume cloud fuel' volume s with
            | (s', Val _) => Rec K C s'
            | (_, Exc _) => False
            | (_, OutOfFuel) => True
            end).
  { clear volume. induction fuel' as [|fuel' IH]; intros volume s HRec; simpl.
    - destruct (String.eqb (vol_status volume) "available"); [exact HRec | exact I].
    - destruct (String.eqb (vol_status volume) "available"); [exact HRec|].
      destruct (recorded_time_sleep K C 3 ltac:(lia) s HRec) as (s1 & [] & Hsleep & HRec1).
      rewrite bind_run, Hsleep.
      destruct (recorded_request_plain K C (cinder_volumes_get (vol_id volume)) eq_refl
                  s1 HRec1) as (s2 & volume' & Hget & HRec2).
      rewrite bind_run, Hget. apply IH, HRec2. }
  intros s HRec. pose proof (Hany fuel volume s HRec) as H.
  pose proof (cloud_settles volume s) as Hsettles.
  destruct (wait_volume cloud fuel volume s) as [s' [volume'| |]]; [eauto | done | done].
Qed.

(** A build records its ports, its floating IPs and its server; it creates
    a volume as well, which it does not record. *)
Lemma recorded_Node_build (K C : list Kind) (networks : list Attachment) :
  info_networks info = Some networks →
  returns (Rec K C) (Node_build cloud fuel key)
    (λ _, Rec (K ++ nic_kinds networks ++ [kind_server])
              (C ++ nic_kinds networks ++ [kind_volume; kind_server])).
Proof.
  intros Hnets.
  destruct info_buildable as ([flavor_name Hflavor] & [disk Hdisk] & [image Himage] &
                              networks' & Hnetworks & Hsecgroups).
  rewrite Hnets in Hnetworks. injection Hnetworks as <-.
  unfold Node_build.
  apply (returns_bind _ (λ n s, kept name info n ∧ Rec K C s)); [apply recorded_get_node|].
  intros n s [Hkept HRec]. revert s HRec.
  pose proof Hkept as (Hname & Hinfo & _). rewrite Hinfo.
  apply (returns_seq _ (Rec K C)).
  { destruct (Node.flavor n); [by apply returns_ret|].
    apply (returns_seq _ (Rec K C)); [by eapply returns_field|]. intros flavor_name'.
    apply (returns_seq _ (Rec K C)); [by apply recorded_request_plain|]. intros flavor.
    apply recorded_modify_node. intros n'. apply kept_set_flavor. }
  intros [].
  apply (returns_bind _ (λ networks' s, networks' = networks ∧ Rec K C s)).
  { by eapply returns_field. }
  intros networks' s [-> HRec]. revert s HRec.
  set (K1 := K ++ nic_kinds networks). set (C1 := C ++ nic_kinds networks).
  apply (returns_seq _ (Rec K1 C1)); [by apply recorded_create_nics|]. intros nics.
  apply (returns_seq _ (Rec K1 C1)); [by eapply returns_field|]. intros disk'.
  apply (returns_seq _ (Rec K1 C1)); [by eapply returns_field|]. intros image'.
  apply (returns_seq _ (Rec K1 (C1 ++ [kind_volume]))).
  { eapply returns_weaken; [apply recorded_request | done |]. by intros ? ? [_ ?]. }
  intros volume.
  apply (returns_seq _ (Rec K1 (C1 ++ [kind_volume])));
    [apply recorded_node_record_resource|]. intros [].
  apply (returns_seq _ (Rec K1 (C1 ++ [kind_volume]))); [apply recorded_wait_volume|].
  intros volume'.
  apply (returns_seq _ (Rec K1 (C1 ++ [kind_volume])));
    [eapply returns_weaken; [apply recorded_get_node | done | by intros ? ? [_ ?]]|].
  intros n'.
  apply (returns_seq _ (Rec K1 ((C1 ++ [kind_volume]) ++ [kind_server]))).
  { eapply returns_weaken; [apply recorded_request | done |]. by intros ? ? [_ ?]. }
  intros server.
  apply (returns_seq _ (Rec (K1 ++ [kind_server]) ((C1 ++ [kind_volume]) ++ [kind_server])));
    [apply (recorded_runner_record_resource _ _ kind_server)|]. intros [].
  apply (returns_seq _ (Rec (K1 ++ [kind_server]) ((C1 ++ [kind_volume]) ++ [kind_server]))).
  { apply recorded_modify_node. intros n''. apply kept_set_server_id. }
  intros []. eapply returns_weaken.
  - apply recorded_modify_node. intros n''. apply kept_set_attempts_left.
  - done.
  - intros a s. subst K1 C1. by rewrite <- !app_assoc.
Qed.

End BuildLedger.



(** ** The weak references of a stack *)

Lemma find_weak_refs_nodes_spec (nodes : list (string * NodeInfo))
    (images flavors networks images' flavors' networks' : gset string) :
  find_weak_refs_nodes nodes images flavors networks =
    inr (images', flavors', networks') →
  Forall complete nodes.*2 ∧
  (∀ image, image ∈ images' ↔
     image ∈ images ∨ ∃ node, node ∈ nodes.*2 ∧ info_image node = Some image) ∧
  (∀ flavor, flavor ∈ flavors' ↔
     flavor ∈ flavors ∨ ∃ node, node ∈ nodes.*2 ∧ info_flavor node = Some flavor) ∧
  (∀ network, network ∈ networks' ↔
     network ∈ networks ∨ names_network nodes network).
Proof.
  revert images flavors networks.
  induction nodes as [|[node_name node] nodes IH]; intros images flavors networks.
  - intros [= <- <- <-]. split; [constructor|].
    repeat split; try tauto; intros [?|H]; try done.
    + destruct H as (? & H & _). by apply elem_of_nil in H.
    + destruct H as (? & H & _). by apply elem_of_nil in H.
    + destruct H as (? & ? & ? & H & _). by apply elem_of_nil in H.
  - cbn [find_weak_refs_nodes].
    destruct (info_image node) as [image|] eqn:Himage; [|discriminate].
    destruct (info_flavor node) as [flavor|] eqn:Hflavor; [|discriminate].
    destruct (info_networks node) as [attachments|] eqn:Hnets; [|discriminate].
    intros H. apply IH in H as (Hcomplete & Hi & Hf & Hn).
    split; [|split; [|split]].
    + rewrite fmap_cons. constructor; [|exact Hcomplete].
      unfold complete. simpl. rewrite Himage, Hflavor, Hnets. eauto.
    + intros i. rewrite Hi, elem_of_union, elem_of_singleton, fmap_cons. split.
      * intros [[->|?]|(n & Hin & Hn')]; [right|by left|right].
        -- exists node. split; [apply list_elem_of_here | exact Himage].
        -- exists n. split; [by apply list_elem_of_further | exact Hn'].
      * intros [?|(n & Hin & Hn')]; [by left; right|].
        apply elem_of_cons in Hin as [->|Hin].
        -- left. left. simpl in Hn'. congruence.
        -- right. eauto.
    + intros f. rewrite Hf, elem_of_union, elem_of_singleton, fmap_cons. split.
      * intros [[->|?]|(n & Hin & Hn')]; [right|by left|right].
        -- exists node. split; [apply list_elem_of_here | exact Hflavor].
        -- exists n. split; [by apply list_elem_of_further | exact Hn'].
      * intros [?|(n & Hin & Hn')]; [by left; right|].
        apply elem_of_cons in Hin as [->|Hin].
        -- left. left. simpl in Hn'. congruence.
        -- right. eauto.
    + intros network. rewrite Hn, elem_of_union, elem_of_list_to_set.
      unfold names_network. rewrite fmap_cons. split.
      * intros [[Hin|?]|(n & atts & att & Hin & Hn' & Hatt & Hname)];
          [right|by left|right].
        -- apply list_elem_of_fmap in Hin as (att & -> & Hatt).
           exists node, attachments, att.
           split; [apply list_elem_of_here|]. done.
        -- exists n, atts, att. split; [by apply list_elem_of_further | done].
      * intros [?|(n & atts & att & Hin & Hn' & Hatt & Hname)]; [by left; right|].
        apply elem_of_cons in Hin as [->|Hin].
        -- left. left. simpl in Hn'. rewrite Hnets in Hn'. injection Hn' as <-.
           apply list_elem_of_fmap. eauto.
        -- right. eauto 10.
Qed.

Lemma find_weak_refs_nodes_complete (nodes : list (string * NodeInfo))
    (images flavors networks : gset string) :
  Forall complete nodes.*2 →
  ∃ r, find_weak_refs_nodes nodes images flavors networks = inr r.
Proof.
  revert images flavors networks.
  induction nodes as [|[node_name node] nodes IH]; intros images flavors networks H.
  - by eexists.
  - rewrite fmap_cons in H. apply Forall_cons in H as [([i Hi] & [f Hf] & [n Hn]) H].
    cbn [find_weak_refs_nodes]. simpl in Hi, Hf, Hn. rewrite Hi, Hf, Hn. by apply IH.
Qed.

(** X19.  What [find_weak_refs] returns: the images and the flavors are
    those of the nodes of the stack; the networks are those an attachment
    of some node names and the [networks] section of the stack does not
    define.  A network the stack defines is never among them. *)
Theorem find_weak_refs_sets (stack : Stack) (images flavors networks : gset string) :
  find_weak_refs stack = inr (images, flavors, networks) →
  ∃ nodes,
    stack_nodes stack = Some nodes ∧
    (∀ image, image ∈ images ↔
       ∃ node, node ∈ nodes.*2 ∧ info_image node = Some image) ∧
    (∀ flavor, flavor ∈ flavors ↔
       ∃ node, node ∈ nodes.*2 ∧ info_flavor node = Some flavor) ∧
    (∀ network, network ∈ networks ↔
       names_network nodes network ∧
       network ∉ (default [] (stack_networks stack)).*1).
Proof.
  unfold find_weak_refs. destruct (stack_nodes stack) as [nodes|]; [|discriminate].
  destruct (find_weak_refs_nodes nodes ∅ ∅ ∅) as [e|[[images' flavors'] networks']] eqn:H;
    [discriminate|].
  intros [= <- <- <-]. apply find_weak_refs_nodes_spec in H as (_ & Hi & Hf & Hn).
  exists nodes. split; [reflexivity|]. split; [|split].
  - intros image. rewrite Hi. split.
    + intros [H|H]; [by apply not_elem_of_empty in H | exact H].
    + intros H. by right.
  - intros flavor. rewrite Hf. split.
    + intros [H|H]; [by apply not_elem_of_empty in H | exact H].
    + intros H. by right.
  - intros network. rewrite elem_of_difference, Hn, elem_of_list_to_set. split.
    + intros [[H|H] Hnot]; [by apply not_elem_of_empty in H | done].
    + intros [H Hnot]. split; [by right | done].
Qed.

Lemma find_weak_refs_sets_witness :
  find_weak_refs half_defined = inr ({["trusty"]}, {["m1.small"]}, {["management"]}) ∧
  "private" ∉ ({["management"]} : gset string).
Proof.
  assert (H : find_weak_refs half_defined =
              inr ({["trusty"]}, {["m1.small"]}, {["management"]})).
  { vm_compute. reflexivity. }
  split; [exact H|].
  destruct (find_weak_refs_sets half_defined _ _ _ H) as (nodes & _ & _ & _ & Hn).
  intros Hin. apply Hn in Hin as [_ Hnot]. apply Hnot. simpl. apply list_elem_of_here.
Defined.


(** ** The clients *)

Section ClientCache.
Context (environ : gmap string string) (raises : Client → option Exn).

Lemma get_keystone_session_outcome (st : Conns) :
  SessionOutcome environ raises st (get_keystone_session environ raises st).
Proof.
  unfold get_keystone_session. case_bool_decide as Hcached.
  - unfold Conn_bind at 1.
    destruct (get_creds_from_env environ) as [e|creds] eqn:Hcreds;
      [by apply session_no_creds|].
    unfold Conn_bind at 1, construct at 1.
    destruct (raises (keystone_Password creds)) as [e|] eqn:Hauth;
      [by eapply session_no_auth|].
    unfold Conn_bind at 1, cache at 1. unfold Conn_bind at 1, cached at 1.
    cbn [conncache]. rewrite lookup_insert_eq.
    unfold Conn_bind at 1, construct at 1.
    destruct (raises (keystone_Session (keystone_Password creds))) as [e|] eqn:Hsession;
      [by eapply session_no_session|].
    unfold Conn_bind, cache, cached. cbn [conncache constructed].
    rewrite lookup_insert_eq, <- app_assoc. by apply session_built.
  - unfold cached. destruct (conncache st !! "keystone_session") as [session|] eqn:Hs;
      [by apply session_cached | done].
Qed.

Lemma get_service_client_outcome (key : string)
    (new : Client → option string → Client) (st : Conns) :
  ClientOutcome environ raises key (λ session, new session (environ !! "OS_REGION_NAME")) st
    (get_service_client environ raises key new st).
Proof.
  unfold get_service_client. case_bool_decide as Hcached.
  - unfold Conn_bind at 1.
    pose proof (get_keystone_session_outcome st) as Hsession.
    destruct (get_keystone_session environ raises st) as [st1 [e|session]];
      [by apply client_no_session|].
    unfold Conn_bind at 1, construct at 1.
    destruct (raises (new session (environ !! "OS_REGION_NAME"))) as [e|] eqn:Hnew;
      [by eapply client_raises|].
    unfold Conn_bind, cache, cached. cbn [conncache constructed].
    rewrite lookup_insert_eq.
    by apply (client_built environ raises key
                (λ session, new session (environ !! "OS_REGION_NAME"))).
  - unfold cached. destruct (conncache st !! key) as [client|] eqn:Hc;
      [by apply client_cached | done].
Qed.

Lemma get_keystone_client_outcome (st : Conns) :
  ClientOutcome environ raises "keystone" keystone_Client st
    (get_keystone_client environ raises st).
Proof.
  unfold get_keystone_client. case_bool_decide as Hcached.
  - unfold Conn_bind at 1.
    pose proof (get_keystone_session_outcome st) as Hsession.
    destruct (get_keystone_session environ raises st) as [st1 [e|session]];
      [by apply client_no_session|].
    unfold Conn_bind at 1, construct at 1.
    destruct (raises (keystone_Client session)) as [e|] eqn:Hnew;
      [by eapply client_raises|].
    unfold Conn_bind, cache, cached. cbn [conncache constructed].
    rewrite lookup_insert_eq. by apply client_built.
  - unfold cached. destruct (conncache st !! "keystone") as [client|] eqn:Hc;
      [by apply client_cached | done].
Qed.

Lemma getter_outcome (g : Getter) (st : Conns) :
  g ≠ the_keystone_session →
  ClientOutcome environ raises (cache_key g) (constructor_of environ g) st
    (getter environ raises g st).
Proof.
  destruct g; intros Hg; try done.
  - apply get_keystone_client_outcome.
  - apply (get_service_client_outcome "nova" (nova_Client "2")).
  - apply (get_service_client_outcome "cinder" (cinder_Client "1")).
  - apply (get_service_client_outcome "neutron" (neutron_Client "2.0")).
Qed.

(** A getter finds what is in the cache. *)
Lemma getter_cached (g : Getter) (st : Conns) (client : Client) :
  conncache st !! cache_key g = Some client →
  getter environ raises g st = (st, inr client).
Proof.
  intros Hc.
  destruct g; cbn [getter cache_key] in *;
    unfold get_keystone_session, get_keystone_client, get_nova_client,
      get_cinder_client, get_neutron_client, get_service_client;
    (rewrite bool_decide_eq_false_2 by congruence); unfold cached; by rewrite Hc.
Qed.

(** What a call of [get_keystone_session] leaves in the cache. *)
Lemma session_outcome_cache (st st1 : Conns) (r : Exn + Client) :
  SessionOutcome environ raises st (st1, r) →
  (∀ key client, key ≠ "keystone_auth" → conncache st !! key = Some client →
                 conncache st1 !! key = Some client) ∧
  (∀ session, r = inr session → conncache st1 !! "keystone_session" = Some session) ∧
  (one_session st → one_session st1).
Proof.
  inversion 1 as [session Hs|e Hs Hcreds|creds e Hs Hcreds Hauth
                  |creds e Hs Hcreds Hauth Hsession|creds Hs Hcreds Hauth Hsession];
    subst; cbn [conncache constructed].
  - split; [done|]. split; [by intros ? [= <-] | done].
  - split; [done|]. split; [discriminate | done].
  - split; [done|]. split; [discriminate | done].
  - split; [|split; [discriminate|]].
    + intros key client Hkey Hc. by rewrite lookup_insert_ne.
    + intros [Hone Hall]. split; cbn [conncache constructed].
      * rewrite filter_app, Hone, lookup_insert_ne by done. simpl.
        by rewrite app_nil_r.
      * intros key client session.
        rewrite (lookup_insert_ne _ "keystone_auth" "keystone_session") by done.
        destruct (decide (key = "keystone_auth")) as [->|Hne].
        -- rewrite lookup_insert_eq. by intros [= <-].
        -- rewrite lookup_insert_ne by done. apply Hall.
  - split; [|split].
    + intros key client Hkey Hc.
      rewrite lookup_insert_ne by congruence. by rewrite lookup_insert_ne.
    + intros session [= <-]. by rewrite lookup_insert_eq.
    + intros [Hone Hall]. split; cbn [conncache constructed].
      * rewrite filter_app, Hone, Hs, lookup_insert_eq. reflexivity.
      * intros key client session.
        destruct (decide (key = "keystone_session")) as [->|Hne1].
        { rewrite lookup_insert_eq. by intros [= <-]. }
        rewrite lookup_insert_ne by done.
        destruct (decide (key = "keystone_auth")) as [->|Hne2].
        { rewrite lookup_insert_eq. by intros [= <-]. }
        rewrite lookup_insert_ne by done. intros Hc Hsess.
        rewrite (Hall key client session Hc Hsess) in Hs. discriminate.
Qed.

(** What a call of a getter of a client leaves in the cache. *)
Lemma client_outcome_cache (key : string) (new : Client → Client) (st st1 : Conns)
    (r : Exn + Client) :
  key ≠ "keystone_auth" → key ≠ "keystone_session" →
  (∀ session, session_of (new session) = Some session) →
  (∀ session, is_session (new session) = false) →
  ClientOutcome environ raises key new st (st1, r) →
  (∀ key' client, key' ≠ "keystone_auth" → conncache st !! key' = Some client →
                  conncache st1 !! key' = Some client) ∧
  (∀ client, r = inr client → conncache st1 !! key = Some client) ∧
  (one_session st → one_session st1).
Proof.
  intros Hk1 Hk2 Hnew Hnot.
  inversion 1 as [client Hc|st2 e Hc Hsession|st2 session e Hc Hsession Hraises
                  |st2 session Hc Hsession Hraises]; subst.
  - split; [done|]. split; [by intros ? [= <-] | done].
  - apply session_outcome_cache in Hsession as (Hkeep & _ & Hone).
    split; [exact Hkeep|]. split; [discriminate | exact Hone].
  - apply session_outcome_cache in Hsession as (Hkeep & _ & Hone).
    split; [exact Hkeep|]. split; [discriminate | exact Hone].
  - apply session_outcome_cache in Hsession as (Hkeep & Hs & Hone).
    specialize (Hs session eq_refl). cbn [conncache constructed].
    split; [|split].
    + intros key' client Hkey' Hc'. rewrite lookup_insert_ne; [by apply Hkeep|].
      intros <-. congruence.
    + intros client [= <-]. by rewrite lookup_insert_eq.
    + intros Hst. destruct (Hone Hst) as [Hfilter Hall].
      split; cbn [conncache constructed].
      * rewrite filter_app, Hfilter, lookup_insert_ne by done.
        rewrite filter_cons_False by (intros Hn; by rewrite Hnot in Hn).
        by rewrite filter_nil, app_nil_r.
      * intros key' client session'.
        rewrite (lookup_insert_ne _ key "keystone_session") by done.
        destruct (decide (key' = key)) as [->|Hne].
        -- rewrite lookup_insert_eq. intros [= <-]. rewrite Hnew. by intros [= <-].
        -- rewrite lookup_insert_ne by done. apply Hall.
Qed.

Lemma getter_cache (g : Getter) (st : Conns) :
  let run := getter environ raises g st in
  (∀ key client, key ≠ "keystone_auth" → conncache st !! key = Some client →
                 conncache run.1 !! key = Some client) ∧
  (∀ client, run.2 = inr client → conncache run.1 !! cache_key g = Some client) ∧
  (one_session st → one_session run.1).
Proof.
  intros run. subst run. destruct (decide (g = the_keystone_session)) as [->|Hg].
  - pose proof (get_keystone_session_outcome st) as H. cbn [getter cache_key].
    destruct (get_keystone_session environ raises st) as [st1 r].
    by apply session_outcome_cache in H.
  - pose proof (getter_outcome g st Hg) as H.
    destruct (getter environ raises g st) as [st1 r].
    apply client_outcome_cache in H; [exact H|by destruct g..].
Qed.

Lemma call_getters_cache (gs : list Getter) (st : Conns) :
  (∀ key client, key ≠ "keystone_auth" → conncache st !! key = Some client →
                 conncache (call_getters environ raises gs st) !! key = Some client) ∧
  (one_session st → one_session (call_getters environ raises gs st)).
Proof.
  revert st. induction gs as [|g gs IH]; intros st; [done|].
  cbn [call_getters foldl]. fold (call_getters environ raises gs).
  destruct (getter_cache g st) as (Hkeep & _ & Hone).
  destruct (IH (getter environ raises g st).1) as [Hkeep' Hone'].
  split; [|tauto]. intros key client Hkey Hc. by apply Hkeep', Hkeep.
Qed.

End ClientCache.

(** X21.  A getter that has returned a client returns that client from then
    on, whatever other getters are called in between (whether they return
    or raise): it finds the client in the cache, constructs nothing and
    leaves the cache as it is. *)
Theorem getter_memoised (environ : gmap string string) (raises : Client → option Exn)
    (g : Getter) (gs : list Getter) (st st' : Conns) (client : Client) :
  getter environ raises g st = (st', inr client) →
  let later := call_getters environ raises gs st' in
  getter environ raises g later = (later, inr client).
Proof.
  intros Hrun later. apply getter_cached. subst later.
  apply call_getters_cache; [by destruct g|].
  destruct (getter_cache environ raises g st) as (_ & Hc & _).
  rewrite Hrun in Hc. by apply Hc.
Qed.

Lemma getter_memoised_witness :
  let st' := (get_nova_client openrc (λ _, None) no_conns).1 in
  let later := call_getters openrc (λ _, None)
                 [the_neutron_client; the_cinder_client] st' in
  ∃ client,
    get_nova_client openrc (λ _, None) no_conns = (st', inr client) ∧
    get_nova_client openrc (λ _, None) later = (later, inr client).
Proof.
  intros st' later. eexists. split; [vm_compute; reflexivity|].
  apply (getter_memoised openrc (λ _, None) the_nova_client
           [the_neutron_client; the_cinder_client] no_conns st').
  vm_compute. reflexivity.
Defined.

(** X22.  A runner has one session.  After any sequence of calls of the
    getters from an empty cache, whichever of them raised, at most one
    session has been constructed; it is the one in the cache; and every
    client in the cache was constructed on it. *)
Theorem getters_share_one_session (environ : gmap string string)
    (raises : Client → option Exn) (gs : list Getter) :
  one_session (call_getters environ raises gs no_conns).
Proof.
  apply call_getters_cache. split; [reflexivity|].
  intros key client session. unfold no_conns. simpl. by rewrite lookup_empty.
Qed.

Lemma get_creds_from_env_missing (environ : gmap string string) (name : string) :
  name ∈ credentials → environ !! name = None →
  ∃ missing,
    get_creds_from_env environ = inl (KeyError missing) ∧
    missing ∈ credentials ∧ environ !! missing = None.
Proof.
  intros Hname Hnone. unfold get_creds_from_env, getenv.
  destruct (environ !! "OS_USERNAME") eqn:H1;
    [|exists "OS_USERNAME"; split; [done|]; split; [|done];
      apply (bool_decide_unpack _); vm_compute; exact I].
  destruct (environ !! "OS_PASSWORD") eqn:H2;
    [|exists "OS_PASSWORD"; split; [done|]; split; [|done];
      apply (bool_decide_unpack _); vm_compute; exact I].
  destruct (environ !! "OS_AUTH_URL") eqn:H3;
    [|exists "OS_AUTH_URL"; split; [done|]; split; [|done];
      apply (bool_decide_unpack _); vm_compute; exact I].
  destruct (environ !! "OS_TENANT_NAME") eqn:H4;
    [|exists "OS_TENANT_NAME"; split; [done|]; split; [|done];
      apply (bool_decide_unpack _); vm_compute; exact I].
  exfalso. unfold credentials in Hname.
  repeat (apply elem_of_cons in Hname as [->|Hname]; [congruence|]).
  by apply elem_of_nil in Hname.
Qed.

(** X23.  The clients need the four [OS_] variables of the credentials.
    When one of them is not set, a getter that does not find its client in
    the cache, nor a session, raises the [KeyError] of a variable that is
    not set, constructs nothing and leaves the cache as it is. *)
Theorem getter_without_credentials (environ : gmap string string)
    (raises : Client → option Exn) (g : Getter) (st : Conns) (name : string) :
  name ∈ credentials → environ !! name = None →
  conncache st !! cache_key g = None →
  conncache st !! "keystone_session" = None →
  ∃ missing,
    getter environ raises g st = (st, inl (KeyError missing)) ∧
    missing ∈ credentials ∧ environ !! missing = None.
Proof.
  intros Hname Hnone Hclient Hsession.
  destruct (get_creds_from_env_missing environ name Hname Hnone)
    as (missing & Hcreds & Hin & Hmissing).
  exists missing. split; [|done].
  assert (Hs : get_keystone_session environ raises st = (st, inl (KeyError missing))).
  { unfold get_keystone_session. rewrite bool_decide_eq_true_2 by exact Hsession.
    unfold Conn_bind at 1. by rewrite Hcreds. }
  destruct g; cbn [getter cache_key] in *; [exact Hs|..];
    unfold get_keystone_client, get_nova_client, get_cinder_client, get_neutron_client,
      get_service_client;
    rewrite bool_decide_eq_true_2 by exact Hclient;
    unfold Conn_bind at 1; by rewrite Hs.
Qed.

Lemma getter_without_credentials_witness :
  ∃ missing,
    get_neutron_client (delete "OS_PASSWORD" openrc) (λ _, None) no_conns =
      (no_conns, inl (KeyError missing)) ∧
    missing ∈ credentials ∧ delete "OS_PASSWORD" openrc !! missing = None.
Proof.
  apply (getter_without_credentials (delete "OS_PASSWORD" openrc) (λ _, None)
           the_neutron_client no_conns "OS_PASSWORD").
  - apply (bool_decide_unpack _). vm_compute. exact I.
  - reflexivity.
  - reflexivity.
  - reflexivity.
Defined.

(** ** Creating a network *)

(** X24.  On a cloud that answers, [create_network] creates the network,
    records it, creates the subnet on it, records it, and attaches the
    subnet to the router of the mappings when they name one for every
    network: an attachment that it does not record.  It returns the id of
    the network.  The [cidr] is read after the network has been created and
    recorded: without one, [create_network] raises [KeyError] and leaves a
    network without a subnet, which the cleanup file knows of. *)
Theorem create_network_requests (cloud : Cloud) (name : string) (info : NetworkInfo)
    (s : State) :
  obliging cloud →
  ∃ network,
    cloud _ (calls s) (neutron_create_network name) = inr network ∧
    (net_cidr info = None →
     ∃ s',
       create_network cloud name info s = (s', Exc (KeyError "cidr")) ∧
       calls s' = calls s ++ [call_of (neutron_create_network name)] ∧
       cleanup_file s' =
         cleanup_file s +:+ written (dr s) [(kind_network, net_id network)]) ∧
    (∀ cidr, net_cidr info = Some cidr →
     ∃ s' subnet,
       create_network cloud name info s = (s', Val (net_id network)) ∧
       calls s' =
         calls s ++
         [call_of (neutron_create_network name);
          call_of (neutron_create_subnet (net_id network) cidr name)] ++
         router_attachment (dr s) subnet ∧
       cleanup_file s' =
         cleanup_file s +:+
         written (dr s) [(kind_network, net_id network); (kind_subnet, subnet)]).
Proof.
  intros Hcloud. destruct (Hcloud _ (calls s) (neutron_create_network name))
    as [network Hnetwork].
  exists network. split; [exact Hnetwork|].
  unfold create_network, written, router_attachment.
  rewrite bind_run, request_run, Hnetwork. cbv beta iota.
  rewrite bind_run, runner_record_resource_run. cbn [dr set_calls].
  destruct (Runner.record_resource (dr s)) eqn:Hsink; cbv beta iota.
  - split.
    + intros Hcidr. rewrite bind_run, Hcidr. simpl field.
      eexists. split; [reflexivity|]. simpl. by rewrite append_empty_r.
    + intros cidr Hcidr. rewrite bind_run, Hcidr. simpl field. rewrite ret_run.
      cbv beta iota. rewrite bind_run, request_run.
      match goal with
      | |- context [cloud string ?h ?q] =>
          destruct (Hcloud string h q) as [subnet Hsubnet]
      end.
      rewrite Hsubnet. cbv beta iota.
      rewrite bind_run, runner_record_resource_run. cbn [dr set_calls].
      rewrite Hsink. cbv beta iota. rewrite bind_run, gets_run. cbv beta iota.
      cbn [dr set_calls].
      destruct (map_routers (Runner.mappings (dr s)) !! "*") as [router|].
      * rewrite bind_run, request_run.
        match goal with
        | |- context [cloud unit ?h ?q] => destruct (Hcloud unit h q) as [[] Hattach]
        end.
        rewrite Hattach. cbv beta iota. rewrite ret_run.
        eexists. exists subnet. split; [reflexivity|]. simpl.
        by rewrite ?append_empty_r, ?app_nil_r, <- ?app_assoc, ?append_assoc.
      * rewrite bind_run, ret_run. cbv beta iota. rewrite ret_run.
        eexists. exists subnet. split; [reflexivity|]. simpl.
        by rewrite ?append_empty_r, ?app_nil_r, <- ?app_assoc, ?append_assoc.
  - split.
    + intros Hcidr. rewrite bind_run, Hcidr. simpl field.
      eexists. split; [reflexivity|]. simpl. by rewrite append_empty_r.
    + intros cidr Hcidr. rewrite bind_run, Hcidr. simpl field. rewrite ret_run.
      cbv beta iota. rewrite bind_run, request_run.
      match goal with
      | |- context [cloud string ?h ?q] =>
          destruct (Hcloud string h q) as [subnet Hsubnet]
      end.
      rewrite Hsubnet. cbv beta iota.
      rewrite bind_run, runner_record_resource_run. cbn [dr set_calls set_cleanup_file].
      rewrite Hsink. cbv beta iota. rewrite bind_run, gets_run. cbv beta iota.
      cbn [dr set_calls set_cleanup_file].
      destruct (map_routers (Runner.mappings (dr s)) !! "*") as [router|].
      * rewrite bind_run, request_run.
        match goal with
        | |- context [cloud unit ?h ?q] => destruct (Hcloud unit h q) as [[] Hattach]
        end.
        rewrite Hattach. cbv beta iota. rewrite ret_run.
        eexists. exists subnet. split; [reflexivity|]. simpl.
        by rewrite ?append_empty_r, ?app_nil_r, <- ?app_assoc, ?append_assoc.
      * rewrite bind_run, ret_run. cbv beta iota. rewrite ret_run.
        eexists. exists subnet. split; [reflexivity|]. simpl.
        by rewrite ?append_empty_r, ?app_nil_r, <- ?app_assoc, ?append_assoc.
Qed.

(** The network [private_env1] goes to the router [router-1]: three
    requests, two lines. *)
Lemma create_network_requests_witness :
  ∃ s' subnet,
    create_network (scripted_cloud (quiet "ACTIVE")) "private_env1"
      {| net_cidr := Some "10.0.0.0/24" |} routed_start = (s', Val "net-0") ∧
    calls s' =
      [ call_of (neutron_create_network "private_env1");
        call_of (neutron_create_subnet "net-0" "10.0.0.0/24" "private_env1");
        call_of (neutron_add_interface_router "router-1" subnet) ] ∧
    cleanup_file s' = ledger_text [(kind_network, "net-0"); (kind_subnet, subnet)].
Proof.
  destruct (create_network_requests (scripted_cloud (quiet "ACTIVE")) "private_env1"
              {| net_cidr := Some "10.0.0.0/24" |} routed_start)
    as (network & Hnetwork & _ & Hrun).
  - intros A h q. eexists. reflexivity.
  - injection Hnetwork as <-.
    destruct (Hrun "10.0.0.0/24" eq_refl) as (s' & subnet & Hcreate & Hcalls & Hfile).
    exists s', subnet. split; [exact Hcreate|]. split; [exact Hcalls | exact Hfile].
Defined.
